(** * ProyectoAjedrezMicro: the chess GUI that drives the Arduino board

    A shallow embedding of [Programacion/Arduino/completo.py] and of
    the command-line sender [Programacion/Arduino/inicial.py], which
    share the serial transport.

    The chess rules (python-chess), the serial port (pyserial), the
    random generator and Tk are collaborators of the program.  The rules
    engine is an interface ([ChessRules]); the serial port is a small
    scripted device; Python exceptions are results of a state-and-error
    monad, so that every [try]/[except] of the source is visible. *)

From Stdlib Require Import ZArith List Lia QArith.QArith_base Ascii String.
From stdpp Require Import base option list gmap sets.
Import ListNotations.

Local Open Scope Z_scope.

(** ** Python text and bytes *)

(** A Python [str] is a sequence of code points; [bytes] a sequence of
    octets. *)
Definition str := list Z.
Definition bytes := list Z.

(** An ASCII literal of the source as a [str]. *)
Definition lit (s : string) : str :=
  List.map (fun a => Z.of_N (N_of_ascii a)) (list_ascii_of_string s).

Definition NEWLINE : Z := 10.

(** [c.encode("utf-8")] for one code point; [None] is UnicodeEncodeError
    (lone surrogates) or a value that is no code point at all. *)
Definition utf8_encode_char (c : Z) : option bytes :=
  if c <? 0 then None
  else if c <? 0x80 then Some [c]
  else if c <? 0x800 then
    Some [Z.lor 0xC0 (Z.shiftr c 6); Z.lor 0x80 (Z.land c 0x3F)]
  else if c <? 0x10000 then
    if (0xD800 <=? c) && (c <=? 0xDFFF) then None
    else Some [Z.lor 0xE0 (Z.shiftr c 12);
               Z.lor 0x80 (Z.land (Z.shiftr c 6) 0x3F);
               Z.lor 0x80 (Z.land c 0x3F)]
  else if c <? 0x110000 then
    Some [Z.lor 0xF0 (Z.shiftr c 18);
          Z.lor 0x80 (Z.land (Z.shiftr c 12) 0x3F);
          Z.lor 0x80 (Z.land (Z.shiftr c 6) 0x3F);
          Z.lor 0x80 (Z.land c 0x3F)]
  else None.

(** [s.encode("utf-8")]. *)
Fixpoint utf8_encode (s : str) : option bytes :=
  match s with
  | [] => Some []
  | c :: s' =>
      match utf8_encode_char c, utf8_encode s' with
      | Some bs, Some rest => Some (bs ++ rest)
      | _, _ => None
      end
  end.

Definition is_cont (b : Z) : bool := (0x80 <=? b) && (b <=? 0xBF).
Definition in_range (lo hi b : Z) : bool := (lo <=? b) && (b <=? hi).
Definition cont_bits (b : Z) : Z := Z.land b 0x3F.

(** The range allowed for the second octet after lead octet [b0]
    (overlong forms, surrogates and values above U+10FFFF are excluded
    here). *)
Definition second_ok (b0 b1 : Z) : bool :=
  if b0 =? 0xE0 then in_range 0xA0 0xBF b1
  else if b0 =? 0xED then in_range 0x80 0x9F b1
  else if b0 =? 0xF0 then in_range 0x90 0xBF b1
  else if b0 =? 0xF4 then in_range 0x80 0x8F b1
  else is_cont b1.

(** [bs.decode("utf-8", errors="ignore")]: a well-formed sequence yields
    its code point; otherwise the offending octet is dropped and decoding
    resumes at the next one.  (CPython drops the maximal ill-formed
    prefix at once; the octets of such a prefix after the first are
    continuation octets, which are dropped one by one here, to the same
    effect.)  It never raises. *)
Fixpoint utf8_decode_ignore (bs : bytes) : str :=
  match bs with
  | [] => []
  | b0 :: r0 =>
      if in_range 0 0x7F b0 then b0 :: utf8_decode_ignore r0
      else if in_range 0xC2 0xDF b0 then
        match r0 with
        | b1 :: r1 =>
            if is_cont b1
            then Z.lor (Z.shiftl (Z.land b0 0x1F) 6) (cont_bits b1)
                 :: utf8_decode_ignore r1
            else utf8_decode_ignore r0
        | _ => utf8_decode_ignore r0
        end
      else if in_range 0xE0 0xEF b0 then
        match r0 with
        | b1 :: (b2 :: r2) =>
            if second_ok b0 b1 && is_cont b2
            then Z.lor (Z.shiftl (Z.land b0 0x0F) 12)
                   (Z.lor (Z.shiftl (cont_bits b1) 6) (cont_bits b2))
                 :: utf8_decode_ignore r2
            else utf8_decode_ignore r0
        | _ => utf8_decode_ignore r0
        end
      else if in_range 0xF0 0xF4 b0 then
        match r0 with
        | b1 :: (b2 :: (b3 :: r3)) =>
            if second_ok b0 b1 && is_cont b2 && is_cont b3
            then Z.lor (Z.shiftl (Z.land b0 0x07) 18)
                   (Z.lor (Z.shiftl (cont_bits b1) 12)
                      (Z.lor (Z.shiftl (cont_bits b2) 6) (cont_bits b3)))
                 :: utf8_decode_ignore r3
            else utf8_decode_ignore r0
        | _ => utf8_decode_ignore r0
        end
      else utf8_decode_ignore r0
  end.

(** [c.isspace()] for a code point: the characters [str.strip()]
    removes. *)
Definition isspace (c : Z) : bool :=
  in_range 0x09 0x0D c || in_range 0x1C 0x20 c
  || (c =? 0x85) || (c =? 0xA0) || (c =? 0x1680)
  || in_range 0x2000 0x200A c || (c =? 0x2028) || (c =? 0x2029)
  || (c =? 0x202F) || (c =? 0x205F) || (c =? 0x3000).

Fixpoint lstrip (s : str) : str :=
  match s with
  | [] => []
  | c :: s' => if isspace c then lstrip s' else s
  end.

Definition rstrip (s : str) : str := rev (lstrip (rev s)).

(** [s.strip()]: whitespace is removed at both ends. *)
Definition strip (s : str) : str := rstrip (lstrip s).

(** [s.endswith("\n")]. *)
Definition endswith_newline (s : str) : bool :=
  match rev s with
  | c :: _ => c =? NEWLINE
  | [] => false
  end.

(** Printable ASCII, the alphabet of a FEN. *)
Definition printable (c : Z) : Prop := 32 <= c < 127.

(** The line [send_line] puts on the wire for [text]. *)
Definition wire_line (text : str) : str :=
  if endswith_newline text then text else text ++ [NEWLINE].

(** [text] holds no newline, except possibly as its last character. *)
Definition single_line (text : str) : bool :=
  forallb (fun c => negb (c =? NEWLINE)) (removelast text).

(** ** Exceptions and the effect monad *)

Inductive exn : Type :=
  | SerialException
  | UnicodeEncodeError
  | IndexError
  | ValueError.

Inductive Res (A : Type) : Type :=
  | Ok (a : A)
  | Raise (e : exn).
Arguments Ok {A} a.
Arguments Raise {A} e.

(** A computation over a mutable object of type [S]: it returns or
    raises, and the object keeps whatever was done to it before a
    raise. *)
Definition M (S A : Type) : Type := S -> Res A * S.

Definition ret {S A} (a : A) : M S A := fun s => (Ok a, s).

Definition bind {S A B} (m : M S A) (k : A -> M S B) : M S B :=
  fun s =>
    match m s with
    | (Ok a, s') => k a s'
    | (Raise e, s') => (Raise e, s')
    end.

Definition raise {S A} (e : exn) : M S A := fun s => (Raise e, s).
Definition get {S} : M S S := fun s => (Ok s, s).
Definition modify {S} (f : S -> S) : M S unit := fun s => (Ok tt, f s).

(** [try: m  except Exception: h]. *)
Definition try_except {S A} (m : M S A) (h : exn -> M S A) : M S A :=
  fun s =>
    match m s with
    | (Ok a, s') => (Ok a, s')
    | (Raise e, s') => h e s'
    end.

(** Run a method of a component held in a field of the object. *)
Definition zoom {S T A} (proj : S -> T) (upd : T -> S -> S)
    (m : M T A) : M S A :=
  fun s => let '(r, t') := m (proj s) in (r, upd t' s).

#[global] Instance M_ret {S} : MRet (M S) := fun A => @ret S A.
#[global] Instance M_bind {S} : MBind (M S) := fun A B k m => @bind S A B m k.

(** [for x in xs: body x]. *)
Fixpoint for_each {S A} (xs : list A) (body : A -> M S unit) : M S unit :=
  match xs with
  | [] => ret tt
  | x :: xs' => bind (body x) (fun _ => for_each xs' body)
  end.

(** [wp m s Q]: run from [s], [m] returns (it does not raise) with a
    value and a final state that satisfy [Q]. *)
Definition wp {S A} (m : M S A) (s : S) (Q : A -> S -> Prop) : Prop :=
  match m s with
  | (Ok a, s') => Q a s'
  | (Raise _, _) => False
  end.

(** ** The serial port (pyserial's [serial.Serial]) *)

(** The device end of the link is a script: the bytes that reach the
    port in time for each coming [readline()] call, and which of the
    coming port operations fail. *)
Record Serial : Type := mkSerial {
  is_open : bool;
  tx : list bytes;      (* payload of every accepted write(), oldest first *)
  flushes : nat;        (* completed flush() calls *)
  rx : list bytes;      (* what arrives for each coming readline() call;
                           when none is left the read times out and
                           gives b"" *)
  faults : list bool;   (* for each coming port operation: does it raise? *)
}.

Definition set_tx (v : list bytes) (s : Serial) : Serial :=
  mkSerial (is_open s) v (flushes s) (rx s) (faults s).
Definition set_flushes (v : nat) (s : Serial) : Serial :=
  mkSerial (is_open s) (tx s) v (rx s) (faults s).
Definition set_rx (v : list bytes) (s : Serial) : Serial :=
  mkSerial (is_open s) (tx s) (flushes s) v (faults s).
Definition set_faults (v : list bool) (s : Serial) : Serial :=
  mkSerial (is_open s) (tx s) (flushes s) (rx s) v.
Definition set_is_open (v : bool) (s : Serial) : Serial :=
  mkSerial v (tx s) (flushes s) (rx s) (faults s).

(** Every port operation starts here: it raises on a closed port or when
    the script says so, and uses up one entry of the script. *)
Definition port_op : M Serial unit :=
  fun s =>
    let s' := set_faults (tail (faults s)) s in
    if negb (is_open s) then (Raise SerialException, s')
    else match faults s with
         | true :: _ => (Raise SerialException, s')
         | _ => (Ok tt, s')
         end.

Definition ser_write (bs : bytes) : M Serial Z :=
  port_op ;;
  modify (fun s => set_tx (tx s ++ [bs]) s) ;;
  mret (Z.of_nat (length bs)).

Definition ser_flush : M Serial unit :=
  port_op ;; modify (fun s => set_flushes (S (flushes s)) s).

(** The bytes up to and including the first newline, and those after
    it. *)
Fixpoint up_to_newline (bs : bytes) : bytes * bytes :=
  match bs with
  | [] => ([], [])
  | b :: r =>
      if b =? NEWLINE then ([b], r)
      else let '(line, rest) := up_to_newline r in (b :: line, rest)
  end.

(** [readline()] stops at the first newline; what arrived after it
    stays in the input buffer, ahead of what arrives for the next call.
    Without a newline the call times out and returns what there is. *)
Definition ser_readline : M Serial bytes :=
  port_op ;;
  s ← get;
  match rx s with
  | [] => mret []
  | d :: ds =>
      let '(line, rest) := up_to_newline d in
      modify (set_rx match rest, ds with
                     | [], _ => ds
                     | _ :: _, [] => [rest]
                     | _ :: _, d' :: ds' => (rest ++ d') :: ds'
                     end) ;;
      mret line
  end.

(** Bytes discarded by [reset_input_buffer()] are not part of the
    script: [rx] lists what later reads see. *)
Definition ser_reset_input_buffer : M Serial unit := port_op.

Definition ser_close : M Serial unit :=
  fun s =>
    match faults s with
    | true :: fs => (Raise SerialException, set_faults fs s)
    | _ => (Ok tt, set_is_open false (set_faults (tail (faults s)) s))
    end.

(** The port takes the next [n] operations without raising. *)
Definition accepts (n : nat) (s : Serial) : bool :=
  is_open s && forallb negb (firstn n (faults s)).

(** ** Serial transport: [class ArduinoLink] *)

Record ArduinoLink : Type := mkLink {
  port : str;
  baud : Z;
  timeout : Q;
  write_delay : Q;
  ser : Serial;
  slept : list Q;       (* the time.sleep() calls made so far, in seconds *)
}.

Definition set_ser (v : Serial) (l : ArduinoLink) : ArduinoLink :=
  mkLink (port l) (baud l) (timeout l) (write_delay l) v (slept l).

Definition on_ser {A} (m : M Serial A) : M ArduinoLink A :=
  zoom ser set_ser m.

(** [time.sleep(d)]: a negative delay raises ValueError.  (Delays are
    finite numbers here.) *)
Definition time_sleep (d : Q) : M ArduinoLink unit :=
  if Qnum d <? 0 then raise ValueError
  else modify (fun l => mkLink (port l) (baud l) (timeout l) (write_delay l)
                          (ser l) (slept l ++ [d])).

(** Truth value of a Python number. *)
Definition truthy (d : Q) : bool := negb (Qnum d =? 0).

Module ArduinoLink_.

Definition flush_input : M ArduinoLink unit :=
  try_except (on_ser ser_reset_input_buffer) (fun _ => mret tt).

(** [__post_init__], given the port that [serial.Serial(...)] opened. *)
Definition post_init : M ArduinoLink unit :=
  time_sleep (2 # 1) ;; flush_input.

Definition encode (line : str) : M ArduinoLink bytes :=
  match utf8_encode line with
  | Some bs => mret bs
  | None => raise UnicodeEncodeError
  end.

Definition send_line (line : str) : M ArduinoLink unit :=
  let line := if negb (endswith_newline line) then line ++ [NEWLINE]
              else line in
  data ← encode line;
  on_ser (ser_write data) ;;
  on_ser ser_flush ;;
  l ← get;
  if truthy (write_delay l) then time_sleep (write_delay l) else mret tt.

Definition read_line : M ArduinoLink str :=
  try_except
    (data ← on_ser ser_readline;
     mret (strip (utf8_decode_ignore data)))
    (fun _ => mret []).

Definition close : M ArduinoLink unit :=
  try_except (on_ser ser_close) (fun _ => mret tt).

End ArduinoLink_.

(** ** Chess vocabulary (python-chess) *)

Inductive Color : Type := BLACK | WHITE.
Inductive PieceType : Type := PAWN | KNIGHT | BISHOP | ROOK | QUEEN | KING.

Record Piece : Type := mkPiece { piece_type : PieceType; color : Color }.

Definition Square := Z.

(** [chess.Move(from_square, to_square, promotion=None)]. *)
Record Move : Type := mkMove {
  from_square : Square;
  to_square : Square;
  promotion : option PieceType;
}.

#[global] Instance Color_eq_dec : EqDecision Color.
Proof. solve_decision. Defined.
#[global] Instance PieceType_eq_dec : EqDecision PieceType.
Proof. solve_decision. Defined.
#[global] Instance Piece_eq_dec : EqDecision Piece.
Proof. solve_decision. Defined.
#[global] Instance Move_eq_dec : EqDecision Move.
Proof. solve_decision. Defined.
#[global] Instance exn_eq_dec : EqDecision exn.
Proof. solve_decision. Defined.

(** [chess.square(file_index, rank_index)], [chess.square_file],
    [chess.square_rank] and [chess.SQUARES]. *)
Definition square (file_index rank_index : Z) : Square :=
  rank_index * 8 + file_index.
Definition square_file (sq : Square) : Z := Z.land sq 7.
Definition square_rank (sq : Square) : Z := Z.shiftr sq 3.
Definition SQUARES : list Square := List.map Z.of_nat (seq 0 64).

(** [piece.symbol()]: the letter of the piece, upper case for white. *)
Definition symbol (p : Piece) : Z :=
  let lower :=
    match piece_type p with
    | PAWN => 112 | KNIGHT => 110 | BISHOP => 98
    | ROOK => 114 | QUEEN => 113 | KING => 107
    end in
  match color p with WHITE => lower - 32 | BLACK => lower end.

(** What the program asks of the rules engine.  [legal_moves] is the
    iteration over [board.legal_moves] and [is_legal] the membership
    test [move in board.legal_moves]; python-chess answers the two by
    different routes (move generation, [Board.is_legal]). *)
Class ChessRules (Board : Type) : Type := {
  start_position : Board;                      (* chess.Board() *)
  turn : Board -> Color;
  piece_at : Board -> Square -> option Piece;
  legal_moves : Board -> list Move;
  is_legal : Board -> Move -> bool;
  is_capture : Board -> Move -> bool;
  push : Board -> Move -> Board;
  is_game_over : Board -> bool;
  fen : Board -> str;
  result : Board -> str;
  outcome_termination : Board -> option str;   (* outcome().termination.name *)
}.

(** ** The window *)

Inductive Colour : Type :=
  | SYSTEM_DEFAULT
  | LIGHT_COLOR | DARK_COLOR
  | SELECT_COLOR | MOVE_COLOR | CAPTURE_COLOR | INVALID_COLOR.

(** The attributes of a board button that [update_board] configures. *)
Record Button : Type := mkButton {
  bg : Colour;
  activebackground : Colour;
  text : str;
}.

Definition PIECE_SYMBOLS : list (Z * Z) :=
  [ (80, 0x2659); (78, 0x2658); (66, 0x2657);
    (82, 0x2656); (81, 0x2655); (75, 0x2654);
    (112, 0x265F); (110, 0x265E); (98, 0x265D);
    (114, 0x265C); (113, 0x265B); (107, 0x265A) ].

(** [PIECE_SYMBOLS.get(symbol, symbol)]. *)
Definition piece_glyph (sym : Z) : Z :=
  match List.find (fun kv => fst kv =? sym) PIECE_SYMBOLS with
  | Some kv => snd kv
  | None => sym
  end.

(** The value of the radio group [mode_var]: "pvp" or "pvc". *)
Inductive Mode : Type := pvp | pvc.

#[global] Instance Mode_eq_dec : EqDecision Mode.
Proof. solve_decision. Defined.

(** Lines printed on the console. *)
Inductive ConsoleLine : Type :=
  | Print_Arduino (resp : str)
  | Print_Arduino_maquina (resp : str)
  | Print_Error_enviando_FEN (e : exn).

(** ** [class ChessGUI] *)

Section GUI.

Context {Board : Type} `{Rules : ChessRules Board}.

Record ChessGUI : Type := mkGUI {
  link : ArduinoLink;
  board : Board;
  move_stack : list Move;          (* board.move_stack *)
  selected_square : option Square;
  legal_targets : gset Z;
  capture_targets : gset Z;
  buttons : gmap (Z * Z) Button;   (* (rank, file) -> button *)
  mode_var : Mode;
  rng : list nat;                  (* the coming draws of the generator *)
  stdout : list ConsoleLine;
  dialogs : list (str * str);      (* message boxes shown: title, text *)
}.

Definition set_link (v : ArduinoLink) (g : ChessGUI) : ChessGUI :=
  mkGUI v (board g) (move_stack g) (selected_square g) (legal_targets g)
    (capture_targets g) (buttons g) (mode_var g) (rng g) (stdout g)
    (dialogs g).
Definition set_board (v : Board) (ms : list Move) (g : ChessGUI) : ChessGUI :=
  mkGUI (link g) v ms (selected_square g) (legal_targets g)
    (capture_targets g) (buttons g) (mode_var g) (rng g) (stdout g)
    (dialogs g).
Definition set_selected_square (v : option Square) (g : ChessGUI) : ChessGUI :=
  mkGUI (link g) (board g) (move_stack g) v (legal_targets g)
    (capture_targets g) (buttons g) (mode_var g) (rng g) (stdout g)
    (dialogs g).
Definition set_legal_targets (v : gset Z) (g : ChessGUI) : ChessGUI :=
  mkGUI (link g) (board g) (move_stack g) (selected_square g) v
    (capture_targets g) (buttons g) (mode_var g) (rng g) (stdout g)
    (dialogs g).
Definition set_capture_targets (v : gset Z) (g : ChessGUI) : ChessGUI :=
  mkGUI (link g) (board g) (move_stack g) (selected_square g)
    (legal_targets g) v (buttons g) (mode_var g) (rng g) (stdout g)
    (dialogs g).
Definition set_buttons (v : gmap (Z * Z) Button) (g : ChessGUI) : ChessGUI :=
  mkGUI (link g) (board g) (move_stack g) (selected_square g)
    (legal_targets g) (capture_targets g) v (mode_var g) (rng g)
    (stdout g) (dialogs g).
Definition set_mode_var (v : Mode) (g : ChessGUI) : ChessGUI :=
  mkGUI (link g) (board g) (move_stack g) (selected_square g)
    (legal_targets g) (capture_targets g) (buttons g) v (rng g)
    (stdout g) (dialogs g).
Definition set_rng (v : list nat) (g : ChessGUI) : ChessGUI :=
  mkGUI (link g) (board g) (move_stack g) (selected_square g)
    (legal_targets g) (capture_targets g) (buttons g) (mode_var g) v
    (stdout g) (dialogs g).
Definition set_stdout (v : list ConsoleLine) (g : ChessGUI) : ChessGUI :=
  mkGUI (link g) (board g) (move_stack g) (selected_square g)
    (legal_targets g) (capture_targets g) (buttons g) (mode_var g)
    (rng g) v (dialogs g).
Definition set_dialogs (v : list (str * str)) (g : ChessGUI) : ChessGUI :=
  mkGUI (link g) (board g) (move_stack g) (selected_square g)
    (legal_targets g) (capture_targets g) (buttons g) (mode_var g)
    (rng g) (stdout g) v.

Definition on_link {A} (m : M ArduinoLink A) : M ChessGUI A :=
  zoom link set_link m.

Definition print (l : ConsoleLine) : M ChessGUI unit :=
  modify (fun g => set_stdout (stdout g ++ [l]) g).

(** [self.board.push(move)].  [move_stack] keeps the move as entered;
    python-chess files castling entered as the king taking its own rook
    under the king's two-square move (e1g1 for e1h1). *)
Definition board_push (move : Move) : M ChessGUI unit :=
  modify (fun g => set_board (push (board g) move) (move_stack g ++ [move]) g).

(** [random.choice(seq)] is [seq[randbelow(len(seq))]]; the draw comes
    from the generator's script, brought into range. *)
Definition random_choice {A} (xs : list A) : M ChessGUI A :=
  g ← get;
  modify (set_rng (tail (rng g))) ;;
  match xs !! (Nat.modulo (hd 0%nat (rng g)) (length xs)) with
  | Some x => mret x
  | None => raise IndexError
  end.

(** [send_fen(link, board)]. *)
Definition send_fen (b : Board) : M ArduinoLink unit :=
  ArduinoLink_.send_line (fen b).

Definition send_position_to_arduino : M ChessGUI unit :=
  try_except
    (g ← get; on_link (send_fen (board g)))
    (fun e => print (Print_Error_enviando_FEN e)).

Definition _show_game_over : M ChessGUI unit :=
  g ← get;
  let msg := lit "Resultado: " ++ result (board g) in
  let msg :=
    match outcome_termination (board g) with
    | Some name => msg ++ lit " (" ++ name ++ lit ")"
    | None => msg
    end in
  modify (set_dialogs (dialogs g ++ [(lit "Fin de la partida", msg)])).

Definition clear_targets : M ChessGUI unit :=
  modify (set_legal_targets ∅) ;; modify (set_capture_targets ∅).

Definition _compute_targets_for_selected : M ChessGUI unit :=
  clear_targets ;;
  g ← get;
  match selected_square g with
  | None => mret tt
  | Some sel =>
      for_each (legal_moves (board g)) (fun m =>
        if bool_decide (from_square m = sel) then
          modify (fun g => set_legal_targets
                             ({[to_square m]} ∪ legal_targets g) g) ;;
          g ← get;
          if is_capture (board g) m then
            modify (fun g => set_capture_targets
                               ({[to_square m]} ∪ capture_targets g) g)
          else mret tt
        else mret tt)
  end.

Definition _is_pawn_promotion (from_sq to_sq : Square) : M ChessGUI bool :=
  g ← get;
  match piece_at (board g) from_sq with
  | None => mret false
  | Some piece =>
      if negb (bool_decide (piece_type piece = PAWN)) then mret false
      else
        let to_rank := square_rank to_sq in
        mret ((bool_decide (color piece = WHITE) && (to_rank =? 7))
              || (bool_decide (color piece = BLACK) && (to_rank =? 0)))
  end.

Definition _make_computer_move : M ChessGUI unit :=
  g ← get;
  if is_game_over (board g) then mret tt
  else
    let legal := legal_moves (board g) in
    match legal with
    | [] => mret tt
    | _ =>
        move ← random_choice legal;
        board_push move ;;
        send_position_to_arduino ;;
        resp ← on_link ArduinoLink_.read_line;
        (match resp with
         | [] => mret tt
         | _ => print (Print_Arduino_maquina resp)
         end) ;;
        g ← get;
        if is_game_over (board g) then _show_game_over else mret tt
    end.

(** The colour [update_board] gives to a square. *)
Definition square_bg (g : ChessGUI) (sq : Square) : Colour :=
  let file := square_file sq in
  let rank := square_rank sq in
  match selected_square g with
  | None => if (rank + file) `mod` 2 =? 0 then LIGHT_COLOR else DARK_COLOR
  | Some sel =>
      if bool_decide (sel = sq) then SELECT_COLOR
      else if bool_decide (sq ∈ capture_targets g) then CAPTURE_COLOR
      else if bool_decide (sq ∈ legal_targets g) then MOVE_COLOR
      else INVALID_COLOR
  end.

Definition update_board : M ChessGUI unit :=
  for_each SQUARES (fun sq =>
    g ← get;
    let file := square_file sq in
    let rank := square_rank sq in
    let colour := square_bg g sq in
    let label :=
      match piece_at (board g) sq with
      | None => []
      | Some piece => [piece_glyph (symbol piece)]
      end in
    modify (set_buttons
              (<[(rank, file) := mkButton colour colour label]> (buttons g)))).

(** [on_square_clicked(rank, file)], for the clicks the board buttons
    make: rank and file from 0 to 7.  (Off the board python-chess
    raises IndexError where [piece_at] and the legality test index
    their tables.) *)
Definition on_square_clicked (rank file : Z) : M ChessGUI unit :=
  g ← get;
  if is_game_over (board g) then mret tt
  else if bool_decide (mode_var g = pvc)
          && bool_decide (turn (board g) = BLACK) then mret tt
  else
    let sq := square file rank in
    match selected_square g with
    | None =>
        match piece_at (board g) sq with
        | None => mret tt
        | Some piece =>
            if negb (bool_decide (color piece = turn (board g)))
            then mret tt
            else
              modify (set_selected_square (Some sq)) ;;
              _compute_targets_for_selected ;;
              update_board
        end
    | Some sel =>
        (if bool_decide (sq = sel) then
           modify (set_selected_square None) ;; clear_targets
         else
           let plain := mkMove sel sq None in
           move ← (if negb (is_legal (board g) plain) then
                     promo ← _is_pawn_promotion sel sq;
                     mret (if (promo : bool) then mkMove sel sq (Some QUEEN)
                           else plain)
                   else mret plain);
           if is_legal (board g) move then
             board_push move ;;
             modify (set_selected_square None) ;;
             clear_targets ;;
             send_position_to_arduino ;;
             resp ← on_link ArduinoLink_.read_line;
             (match resp with
              | [] => mret tt
              | _ => print (Print_Arduino resp)
              end) ;;
             g ← get;
             if is_game_over (board g) then _show_game_over
             else if bool_decide (mode_var g = pvc)
                  then _make_computer_move
                  else mret tt
           else
             modify (set_selected_square None) ;; clear_targets) ;;
        update_board
    end.

Definition reset_game : M ChessGUI unit :=
  modify (set_board start_position []) ;;
  modify (set_selected_square None) ;;
  clear_targets ;;
  send_position_to_arduino ;;
  update_board.

(** The board buttons that [_build_ui] creates, one per square. *)
Definition _build_ui : M ChessGUI unit :=
  for_each (List.map Z.of_nat (seq 0 8)) (fun rank_visual =>
    let board_rank := 7 - rank_visual in
    for_each (List.map Z.of_nat (seq 0 8)) (fun file_visual =>
      let board_file := file_visual in
      modify (fun g =>
        set_buttons
          (<[(board_rank, board_file) :=
               mkButton SYSTEM_DEFAULT SYSTEM_DEFAULT []]> (buttons g)) g))).

(** [ChessGUI(root, link)]: the object as [__init__] leaves it, for a
    given link and generator. *)
Definition new_gui (l : ArduinoLink) (draws : list nat) : ChessGUI :=
  snd ((_build_ui ;; send_position_to_arduino ;; update_board)
         (mkGUI l start_position [] None ∅ ∅ ∅ pvp draws [] [])).

(** What the user can do with the window. *)
Inductive Event : Type :=
  | Click (rank file : Z)          (* a board button *)
  | Reiniciar                      (* the reset button *)
  | SelectMode (m : Mode).         (* a radio button *)

Definition event_ok (e : Event) : Prop :=
  match e with
  | Click rank file => 0 <= rank < 8 /\ 0 <= file < 8
  | _ => True
  end.

Definition handle (e : Event) : M ChessGUI unit :=
  match e with
  | Click rank file => on_square_clicked rank file
  | Reiniciar => reset_game
  | SelectMode m => modify (set_mode_var m)
  end.

Definition after (e : Event) (g : ChessGUI) : ChessGUI := snd (handle e g).

(** The states of the window in some session. *)
Inductive reachable : ChessGUI -> Prop :=
  | reachable_new l draws : reachable (new_gui l draws)
  | reachable_after g e :
      reachable g -> event_ok e -> reachable (after e g).

(** The two guards at the head of [on_square_clicked] let the click
    through. *)
Definition clicks_accepted (g : ChessGUI) : Prop :=
  is_game_over (board g) = false
  /\ ~ (mode_var g = pvc /\ turn (board g) = BLACK).

(** What python-chess guarantees of the moves it enumerates for a
    position: each passes the legality test, starts on a piece of the
    side to move and ends on another square, both on the board; and a
    promotion is the move of a pawn to the last rank of its colour,
    which without the promotion does not pass the test. *)
Definition enumeration_sound (b : Board) : Prop :=
  forall m, In m (legal_moves b) ->
    is_legal b m = true
    /\ (exists p, piece_at b (from_square m) = Some p /\ color p = turn b)
    /\ from_square m <> to_square m
    /\ 0 <= from_square m < 64
    /\ 0 <= to_square m < 64
    /\ (promotion m <> None ->
        is_legal b (mkMove (from_square m) (to_square m) None) = false
        /\ exists p,
             piece_at b (from_square m) = Some p
             /\ piece_type p = PAWN
             /\ ((color p = WHITE /\ square_rank (to_square m) = 7)
                 \/ (color p = BLACK /\ square_rank (to_square m) = 0))).

(** The move that the coming draw of the generator picks among the
    legal moves of the position. *)
Definition drawn_move (g : ChessGUI) : option Move :=
  legal_moves (board g)
    !! Nat.modulo (hd 0%nat (rng g)) (length (legal_moves (board g))).

(** The machine's answer to a human move that leads to position [b']:
    none in two-player mode or when the game is over at [b']; otherwise
    the move that the coming draw picks among the legal moves of [b']
    (none when there is none). *)
Definition machine_reply (g : ChessGUI) (b' : Board) : option Move :=
  if bool_decide (mode_var g = pvc) && negb (is_game_over b')
  then legal_moves b'
         !! Nat.modulo (hd 0%nat (rng g)) (length (legal_moves b'))
  else None.

End GUI.

Arguments ChessGUI : clear implicits.

(** ** A scripted rules engine

    A stand-in for python-chess on a handful of real positions: each
    position carries its FEN, whether the game is over there, and its
    legal moves (in the order python-chess generates them) with the
    positions they lead to.  Side to move and piece placement are read
    off the FEN.  The script is cut at [leaf] positions. *)

Module Script.

Local Open Scope string_scope.
Local Open Scope Z_scope.

Local Unset Elimination Schemes.
Inductive Position : Type :=
  | Pos (p_fen : string)
        (p_over : option (string * string))   (* result, termination *)
        (p_moves : list (string * Position)). (* UCI move, next position *)
Local Set Elimination Schemes.

Definition p_fen (p : Position) : string :=
  match p with Pos f _ _ => f end.
Definition p_over (p : Position) : option (string * string) :=
  match p with Pos _ o _ => o end.
Definition p_moves (p : Position) : list (string * Position) :=
  match p with Pos _ _ ms => ms end.

Definition leaf (f : string) : Position := Pos f None [].

Definition code (a : ascii) : Z := Z.of_N (N_of_ascii a).

(** [chess.Piece.from_symbol]. *)
Definition piece_of_symbol (c : Z) : option Piece :=
  let lower := if c <? 97 then c + 32 else c in
  let col := if c <? 97 then WHITE else BLACK in
  (if lower =? 112 then Some PAWN
   else if lower =? 110 then Some KNIGHT
   else if lower =? 98 then Some BISHOP
   else if lower =? 114 then Some ROOK
   else if lower =? 113 then Some QUEEN
   else if lower =? 107 then Some KING
   else None) ≫= fun t => Some (mkPiece t col).

(** The piece placement field of a FEN, from rank 8 down. *)
Fixpoint placement (cs : list ascii) (rank file : Z)
    : list (Square * Piece) :=
  match cs with
  | [] => []
  | a :: cs' =>
      let c := code a in
      if c =? 32 then []
      else if c =? 47 then placement cs' (rank - 1) 0
      else if in_range 49 56 c then placement cs' rank (file + (c - 48))
      else match piece_of_symbol c with
           | Some p => (square file rank, p) :: placement cs' rank (file + 1)
           | None => placement cs' rank file
           end
  end.

Definition pieces (p : Position) : list (Square * Piece) :=
  placement (list_ascii_of_string (p_fen p)) 7 0.

(** The side to move: the field after the first blank. *)
Fixpoint side_to_move (cs : list ascii) : Color :=
  match cs with
  | a :: cs' =>
      if code a =? 32 then
        match cs' with
        | b :: _ => if code b =? 98 then BLACK else WHITE
        | [] => WHITE
        end
      else side_to_move cs'
  | [] => WHITE
  end.

(** [chess.Move.from_uci] for ordinary moves and promotions. *)
Definition uci (s : string) : Move :=
  match List.map code (list_ascii_of_string s) with
  | f1 :: r1 :: f2 :: r2 :: rest =>
      mkMove (square (f1 - 97) (r1 - 49)) (square (f2 - 97) (r2 - 49))
        (match rest with
         | c :: _ => piece_type <$> piece_of_symbol c
         | [] => None
         end)
  | _ => mkMove 0 0 None
  end.

(** [chess.parse_square]. *)
Definition parse_square (s : string) : Square :=
  match List.map code (list_ascii_of_string s) with
  | f :: r :: _ => square (f - 97) (r - 49)
  | _ => 0
  end.

Definition moves (p : Position) : list Move :=
  List.map (fun e => uci (fst e)) (p_moves p).

Definition lookup_piece (p : Position) (sq : Square) : option Piece :=
  snd <$> List.find (fun e => fst e =? sq) (pieces p).

Definition next (p : Position) (m : Move) : Position :=
  match List.find (fun e => bool_decide (uci (fst e) = m)) (p_moves p) with
  | Some e => snd e
  | None => p
  end.

(** A capture, as far as the scripted positions go (no en passant
    occurs in them): the destination holds a piece of the other side. *)
Definition captures (p : Position) (m : Move) : bool :=
  match lookup_piece p (to_square m) with
  | Some q => negb (bool_decide (color q = side_to_move
                                   (list_ascii_of_string (p_fen p))))
  | None => false
  end.

Definition after_e4 : Position :=
  Pos "rnbqkbnr/pppppppp/8/8/4P3/8/PPPP1PPP/RNBQKBNR b KQkq - 0 1" None
  [ ("g8h6", leaf "rnbqkb1r/pppppppp/7n/8/4P3/8/PPPP1PPP/RNBQKBNR w KQkq - 1 2");
    ("g8f6", leaf "rnbqkb1r/pppppppp/5n2/8/4P3/8/PPPP1PPP/RNBQKBNR w KQkq - 1 2");
    ("b8c6", leaf "r1bqkbnr/pppppppp/2n5/8/4P3/8/PPPP1PPP/RNBQKBNR w KQkq - 1 2");
    ("b8a6", leaf "r1bqkbnr/pppppppp/n7/8/4P3/8/PPPP1PPP/RNBQKBNR w KQkq - 1 2");
    ("h7h6", leaf "rnbqkbnr/ppppppp1/7p/8/4P3/8/PPPP1PPP/RNBQKBNR w KQkq - 0 2");
    ("g7g6", leaf "rnbqkbnr/pppppp1p/6p1/8/4P3/8/PPPP1PPP/RNBQKBNR w KQkq - 0 2");
    ("f7f6", leaf "rnbqkbnr/ppppp1pp/5p2/8/4P3/8/PPPP1PPP/RNBQKBNR w KQkq - 0 2");
    ("e7e6", leaf "rnbqkbnr/pppp1ppp/4p3/8/4P3/8/PPPP1PPP/RNBQKBNR w KQkq - 0 2");
    ("d7d6", leaf "rnbqkbnr/ppp1pppp/3p4/8/4P3/8/PPPP1PPP/RNBQKBNR w KQkq - 0 2");
    ("c7c6", leaf "rnbqkbnr/pp1ppppp/2p5/8/4P3/8/PPPP1PPP/RNBQKBNR w KQkq - 0 2");
    ("b7b6", leaf "rnbqkbnr/p1pppppp/1p6/8/4P3/8/PPPP1PPP/RNBQKBNR w KQkq - 0 2");
    ("a7a6", leaf "rnbqkbnr/1ppppppp/p7/8/4P3/8/PPPP1PPP/RNBQKBNR w KQkq - 0 2");
    ("h7h5", leaf "rnbqkbnr/ppppppp1/8/7p/4P3/8/PPPP1PPP/RNBQKBNR w KQkq - 0 2");
    ("g7g5", leaf "rnbqkbnr/pppppp1p/8/6p1/4P3/8/PPPP1PPP/RNBQKBNR w KQkq - 0 2");
    ("f7f5", leaf "rnbqkbnr/ppppp1pp/8/5p2/4P3/8/PPPP1PPP/RNBQKBNR w KQkq - 0 2");
    ("e7e5", leaf "rnbqkbnr/pppp1ppp/8/4p3/4P3/8/PPPP1PPP/RNBQKBNR w KQkq - 0 2");
    ("d7d5", leaf "rnbqkbnr/ppp1pppp/8/3p4/4P3/8/PPPP1PPP/RNBQKBNR w KQkq - 0 2");
    ("c7c5", leaf "rnbqkbnr/pp1ppppp/8/2p5/4P3/8/PPPP1PPP/RNBQKBNR w KQkq - 0 2");
    ("b7b5", leaf "rnbqkbnr/p1pppppp/8/1p6/4P3/8/PPPP1PPP/RNBQKBNR w KQkq - 0 2");
    ("a7a5", leaf "rnbqkbnr/1ppppppp/8/p7/4P3/8/PPPP1PPP/RNBQKBNR w KQkq - 0 2") ].

Definition start : Position :=
  Pos "rnbqkbnr/pppppppp/8/8/8/8/PPPPPPPP/RNBQKBNR w KQkq - 0 1" None
  [ ("g1h3", leaf "rnbqkbnr/pppppppp/8/8/8/7N/PPPPPPPP/RNBQKB1R b KQkq - 1 1");
    ("g1f3", leaf "rnbqkbnr/pppppppp/8/8/8/5N2/PPPPPPPP/RNBQKB1R b KQkq - 1 1");
    ("b1c3", leaf "rnbqkbnr/pppppppp/8/8/8/2N5/PPPPPPPP/R1BQKBNR b KQkq - 1 1");
    ("b1a3", leaf "rnbqkbnr/pppppppp/8/8/8/N7/PPPPPPPP/R1BQKBNR b KQkq - 1 1");
    ("h2h3", leaf "rnbqkbnr/pppppppp/8/8/8/7P/PPPPPPP1/RNBQKBNR b KQkq - 0 1");
    ("g2g3", leaf "rnbqkbnr/pppppppp/8/8/8/6P1/PPPPPP1P/RNBQKBNR b KQkq - 0 1");
    ("f2f3", leaf "rnbqkbnr/pppppppp/8/8/8/5P2/PPPPP1PP/RNBQKBNR b KQkq - 0 1");
    ("e2e3", leaf "rnbqkbnr/pppppppp/8/8/8/4P3/PPPP1PPP/RNBQKBNR b KQkq - 0 1");
    ("d2d3", leaf "rnbqkbnr/pppppppp/8/8/8/3P4/PPP1PPPP/RNBQKBNR b KQkq - 0 1");
    ("c2c3", leaf "rnbqkbnr/pppppppp/8/8/8/2P5/PP1PPPPP/RNBQKBNR b KQkq - 0 1");
    ("b2b3", leaf "rnbqkbnr/pppppppp/8/8/8/1P6/P1PPPPPP/RNBQKBNR b KQkq - 0 1");
    ("a2a3", leaf "rnbqkbnr/pppppppp/8/8/8/P7/1PPPPPPP/RNBQKBNR b KQkq - 0 1");
    ("h2h4", leaf "rnbqkbnr/pppppppp/8/8/7P/8/PPPPPPP1/RNBQKBNR b KQkq - 0 1");
    ("g2g4", leaf "rnbqkbnr/pppppppp/8/8/6P1/8/PPPPPP1P/RNBQKBNR b KQkq - 0 1");
    ("f2f4", leaf "rnbqkbnr/pppppppp/8/8/5P2/8/PPPPP1PP/RNBQKBNR b KQkq - 0 1");
    ("e2e4", after_e4);
    ("d2d4", leaf "rnbqkbnr/pppppppp/8/8/3P4/8/PPP1PPPP/RNBQKBNR b KQkq - 0 1");
    ("c2c4", leaf "rnbqkbnr/pppppppp/8/8/2P5/8/PP1PPPPP/RNBQKBNR b KQkq - 0 1");
    ("b2b4", leaf "rnbqkbnr/pppppppp/8/8/1P6/8/P1PPPPPP/RNBQKBNR b KQkq - 0 1");
    ("a2a4", leaf "rnbqkbnr/pppppppp/8/8/P7/8/1PPPPPPP/RNBQKBNR b KQkq - 0 1") ].

(** King against king: drawn for want of material, so the game is
    over, although the side to move has legal moves. *)
Definition bare_kings : Position :=
  Pos "8/8/8/4k3/8/8/8/4K3 b - - 0 1"
    (Some ("1/2-1/2", "INSUFFICIENT_MATERIAL"))
  [ ("e5f6", leaf "8/8/5k2/8/8/8/8/4K3 w - - 1 2");
    ("e5e6", leaf "8/8/4k3/8/8/8/8/4K3 w - - 1 2");
    ("e5d6", leaf "8/8/3k4/8/8/8/8/4K3 w - - 1 2");
    ("e5f5", leaf "8/8/8/5k2/8/8/8/4K3 w - - 1 2");
    ("e5d5", leaf "8/8/8/3k4/8/8/8/4K3 w - - 1 2");
    ("e5f4", leaf "8/8/8/8/5k2/8/8/4K3 w - - 1 2");
    ("e5e4", leaf "8/8/8/8/4k3/8/8/4K3 w - - 1 2");
    ("e5d4", leaf "8/8/8/8/3k4/8/8/4K3 w - - 1 2") ].

(** A white pawn about to promote. *)
Definition white_promotes : Position :=
  Pos "8/P6k/8/8/8/8/8/K7 w - - 0 1" None
  [ ("a1b2", leaf "8/P6k/8/8/8/8/1K6/8 b - - 1 1");
    ("a1a2", leaf "8/P6k/8/8/8/8/K7/8 b - - 1 1");
    ("a1b1", leaf "8/P6k/8/8/8/8/8/1K6 b - - 1 1");
    ("a7a8q", leaf "Q7/7k/8/8/8/8/8/K7 b - - 0 1");
    ("a7a8r", leaf "R7/7k/8/8/8/8/8/K7 b - - 0 1");
    ("a7a8b", leaf "B7/7k/8/8/8/8/8/K7 b - - 0 1");
    ("a7a8n", leaf "N7/7k/8/8/8/8/8/K7 b - - 0 1") ].

(** A black pawn about to promote. *)
Definition black_promotes : Position :=
  Pos "7k/8/8/8/8/8/p7/7K b - - 0 1" None
  [ ("h8g8", leaf "6k1/8/8/8/8/8/p7/7K w - - 1 2");
    ("h8h7", leaf "8/7k/8/8/8/8/p7/7K w - - 1 2");
    ("h8g7", leaf "8/6k1/8/8/8/8/p7/7K w - - 1 2");
    ("a2a1q", leaf "7k/8/8/8/8/8/8/q6K w - - 0 2");
    ("a2a1r", leaf "7k/8/8/8/8/8/8/r6K w - - 0 2");
    ("a2a1b", leaf "7k/8/8/8/8/8/8/b6K w - - 0 2");
    ("a2a1n", leaf "7k/8/8/8/8/8/8/n6K w - - 0 2") ].

#[global] Instance rules : ChessRules Position := {|
  start_position := start;
  turn p := side_to_move (list_ascii_of_string (p_fen p));
  piece_at := lookup_piece;
  legal_moves := moves;
  is_legal p m := bool_decide (m ∈ moves p);
  is_capture := captures;
  push := next;
  is_game_over p := bool_decide (is_Some (p_over p));
  fen p := lit (p_fen p);
  result p := match p_over p with Some o => lit (fst o) | None => lit "*" end;
  outcome_termination p := (fun o => lit (snd o)) <$> p_over p;
|}.

(** A port that is open and works, with nothing to read. *)
Definition quiet_port : Serial := mkSerial true [] 0 [] [].

Definition the_link : ArduinoLink :=
  mkLink (lit "/dev/ttyACM0") 115200 (1 # 1) (2 # 100) quiet_port [].

(** A window on position [p], as play would have left it. *)
Definition window_on (p : Position) (mode : Mode) (draws : list nat)
    : ChessGUI Position :=
  mkGUI the_link p [] None ∅ ∅ ∅ mode draws [] [].

(** The window as the program opens it (two-player mode). *)
Definition opening : ChessGUI Position := new_gui the_link [0%nat].

(** White has picked up the pawn on e2. *)
Definition e2_selected : ChessGUI Position := after (Click 1 4) opening.

(** The same with "Jugador vs maquina" chosen before the first move. *)
Definition opening_vs_machine : ChessGUI Position :=
  after (SelectMode pvc) opening.

(** Two-player mode: white plays e2-e4, black picks up the pawn on e7,
    and the mode is then switched to "pvc" with the pawn still
    selected. *)
Definition e7_selected_then_pvc : ChessGUI Position :=
  after (SelectMode pvc)
    (after (Click 6 4) (after (Click 3 4) (after (Click 1 4) opening))).

(** White has selected the pawn on a7. *)
Definition a7_selected : ChessGUI Position :=
  after (Click 6 0) (window_on white_promotes pvp []).

(** Black has selected the pawn on a2 in two-player mode, and the mode
    is then switched to "pvc". *)
Definition a2_selected_then_pvc : ChessGUI Position :=
  after (SelectMode pvc) (after (Click 1 0) (window_on black_promotes pvp [])).

(** A drawn game (king against king) with black to move. *)
Definition drawn_game : ChessGUI Position := window_on bare_kings pvc [3%nat].

End Script.

(** ** What the window promises

    The statements of the properties below: what the two target sets
    hold for a selection, what counts as a line sent for a position, and
    what a move stack of legal moves is. *)

Section GUI_spec.

Context {Board : Type} `{Rules : ChessRules Board}.

(** [lt] and [ct] are the destinations of the moves of [ms] that start
    on [sel], and those among them that capture. *)
Definition targets_among (b : Board) (ms : list Move) (sel : Square)
    (lt ct : gset Z) : Prop :=
  (forall x, x ∈ lt <->
     exists m, In m ms /\ from_square m = sel /\ to_square m = x)
  /\ (forall x, x ∈ ct <->
        exists m, In m ms /\ from_square m = sel
                  /\ to_square m = x /\ is_capture b m = true).

(** The targets of [sel] in position [b]: those among its enumerated
    legal moves. *)
Definition targets_for (b : Board) (sel : Square) (lt ct : gset Z) : Prop :=
  targets_among b (legal_moves b) sel lt ct.

(** [data] is the line [send_line] writes for the FEN of some position. *)
Definition fen_line (data : bytes) : Prop :=
  exists b : Board, utf8_encode (wire_line (fen b)) = Some data.

(** Between [l] and [l'] at most [n] writes were accepted, each a FEN
    line. *)
Definition sent_fens (n : nat) (l l' : ArduinoLink) : Prop :=
  exists chunks,
    tx (ser l') = tx (ser l) ++ chunks
    /\ Forall fen_line chunks
    /\ (length chunks <= n)%nat.

(** Every move of the list was legal in the position it was played in:
    it passed the legality test or was one of the enumerated moves. *)
Inductive played (b : Board) : list Move -> Prop :=
  | played_nil : played b []
  | played_cons m ms :
      is_legal b m = true \/ In m (legal_moves b) ->
      played (push b m) ms ->
      played b (m :: ms).

(** The selection fits the board: nothing selected and no targets, or a
    piece of the side to move selected in a game that is not over, with
    the targets of that square. *)
Definition selection_fits (g : ChessGUI Board) : Prop :=
  match selected_square g with
  | None => legal_targets g = ∅ /\ capture_targets g = ∅
  | Some sel =>
      is_game_over (board g) = false
      /\ (exists p, piece_at (board g) sel = Some p
                    /\ color p = turn (board g))
      /\ targets_for (board g) sel (legal_targets g) (capture_targets g)
  end.

(** The button of square [sq] shows what [update_board] computes for
    it from the state [g]. *)
Definition painted (g : ChessGUI Board) (bs : gmap (Z * Z) Button)
    (sq : Square) : Prop :=
  bs !! (square_rank sq, square_file sq) =
  Some (mkButton (square_bg g sq) (square_bg g sq)
          match piece_at (board g) sq with
          | None => []
          | Some piece => [piece_glyph (symbol piece)]
          end).

(** What a click can do to the window, in full. *)
Definition click_outcome (g : ChessGUI Board) (sq : Square)
    (g' : ChessGUI Board) : Prop :=
  g' = g
  \/ (selected_square g = None
      /\ is_game_over (board g) = false
      /\ (exists p, piece_at (board g) sq = Some p
                    /\ color p = turn (board g))
      /\ exists lt ct bs,
           targets_for (board g) sq lt ct
           /\ g' = mkGUI (link g) (board g) (move_stack g) (Some sq) lt ct
                     bs (mode_var g) (rng g) (stdout g) (dialogs g)
           /\ forall s, s ∈ SQUARES -> painted g' bs s)
  \/ (exists bs,
        selected_square g <> None
        /\ g' = mkGUI (link g) (board g) (move_stack g) None ∅ ∅ bs
                  (mode_var g) (rng g) (stdout g) (dialogs g)
        /\ forall s, s ∈ SQUARES -> painted g' bs s)
  \/ (exists move rest l' out d bs r',
        selected_square g = Some (from_square move)
        /\ to_square move = sq
        /\ is_legal (board g) move = true
        /\ played (push (board g) move) rest
        /\ (rest = [] \/ (mode_var g = pvc /\ exists m, rest = [m]))
        /\ sent_fens (1 + length rest) (link g) l'
        /\ g' = mkGUI l' (fold_left push rest (push (board g) move))
                  (move_stack g ++ move :: rest) None ∅ ∅ bs (mode_var g)
                  r' out d
        /\ forall s, s ∈ SQUARES -> painted g' bs s).

(** What an event can do to the window. *)
Definition event_outcome (e : Event) (g g' : ChessGUI Board) : Prop :=
  match e with
  | Click rank file => click_outcome g (square file rank) g'
  | Reiniciar =>
      exists l' out bs,
        sent_fens 1 (link g) l'
        /\ g' = mkGUI l' start_position [] None ∅ ∅ bs (mode_var g) (rng g)
                  out (dialogs g)
        /\ forall s, s ∈ SQUARES -> painted g' bs s
  | SelectMode m => g' = set_mode_var m g
  end.

(** The message box of [_show_game_over] for position [b]: title and
    text. *)
Definition game_over_dialog (b : Board) : str * str :=
  (lit "Fin de la partida",
   match outcome_termination b with
   | Some name => (lit "Resultado: " ++ result b) ++ lit " (" ++ name ++ lit ")"
   | None => lit "Resultado: " ++ result b
   end).

(** From [g] to [g'] the end-of-game box was shown exactly if the game
    went from running to over, and then once, for the final position;
    the mode did not change. *)
Definition dialog_rule (g g' : ChessGUI Board) : Prop :=
  mode_var g' = mode_var g
  /\ dialogs g' =
     if is_game_over (board g') && negb (is_game_over (board g))
     then dialogs g ++ [game_over_dialog (board g')]
     else dialogs g.

End GUI_spec.

(** ** The command-line sender (inicial.py)

    Its [ArduinoLink] is the class above without [close], and its
    [send_fen] is the function above. *)

(** [xs[i]] for a Python list: a negative index counts from the end;
    [None] is IndexError. *)
Definition py_index {A} (xs : list A) (i : Z) : option A :=
  let i := if i <? 0 then i + Z.of_nat (length xs) else i in
  if i <? 0 then None else xs !! Z.to_nat i.

(** [sep.join(xs)]. *)
Fixpoint join (sep : str) (xs : list str) : str :=
  match xs with
  | [] => []
  | x :: xs' =>
      match xs' with
      | [] => x
      | _ :: _ => x ++ sep ++ join sep xs'
      end
  end.

(** [[f(x) for x in xs]]: the first call that raises ends it. *)
Fixpoint list_comp {S A B} (f : A -> M S B) (xs : list A) : M S (list B) :=
  match xs with
  | [] => mret []
  | x :: xs' => y ← f x; ys ← list_comp f xs'; mret (y :: ys)
  end.

(** python-chess: [FILE_NAMES], [RANK_NAMES],
    [SQUARE_NAMES = [f + r for r in RANK_NAMES for f in FILE_NAMES]] and
    [square_name(square)], which is [SQUARE_NAMES[square]]. *)
Definition FILE_NAMES : list str := List.map (fun c => [c]) (lit "abcdefgh").
Definition RANK_NAMES : list str := List.map (fun c => [c]) (lit "12345678").
Definition SQUARE_NAMES : list str :=
  List.flat_map (fun r => List.map (fun f => f ++ r) FILE_NAMES) RANK_NAMES.

Definition square_name {S} (sq : Square) : M S str :=
  match py_index SQUARE_NAMES sq with
  | Some name => mret name
  | None => raise IndexError
  end.

Definition send_highlight_squares (squares : list Square)
    : M ArduinoLink unit :=
  names ← list_comp square_name squares;
  let payload := lit "HIGHLIGHT:" ++ join (lit ",") names in
  ArduinoLink_.send_line payload.


(** [SERIAL_PORT], by platform. *)
Definition SERIAL_PORT (win : bool) : str :=
  if win then lit "COM3" else lit "/dev/ttyACM0".

(** What the command-line program asks of python-chess and of Python
    beyond [ChessRules]; [None] is the ValueError that
    [chess.Move.from_uci] and [board.parse_san] raise on text they
    reject. *)
Class MoveText (Board : Type) : Type := {
  from_uci : str -> option Move;             (* chess.Move.from_uci(s) *)
  parse_san : Board -> str -> option Move;   (* board.parse_san(s) *)
  str_lower : str -> str;                    (* s.lower() *)
  board_str : Board -> str;                  (* str(board) *)
  outcome_str : Board -> str;                (* str(board.outcome()) *)
}.

(** What the program writes on its standard output. *)
Inductive CliLine : Type :=
  | Prompt_Move                         (* the prompt of input() *)
  | Print_Illegal_invalid_move
  | Print_Sent_initial_FEN
  | Print_Arduino_says (resp : str)
  | Print_board (diagram : str)
  | Print_FEN (fen : str)
  | Print_Arduino_resp (resp : str)
  | Print_Game_over (result outcome : str).

(** How [main()] ends: it returns, or an exception leaves it: one of
    the link's, or the EOFError of [input()] at the end of the input. *)
Inductive Exit : Type :=
  | Returned
  | Raised (e : exn)
  | RaisedEOFError.

Section CLI.

Context {Board : Type} `{Rules : ChessRules Board} `{Text : MoveText Board}.

(** [pick_move_cli(board)], on the lines that remain on standard input
    (each without its newline) and after what was printed so far: the
    move returned ([None]: [input()] raised EOFError), the lines left
    and what is printed by then. *)
Fixpoint pick_move_cli (b : Board) (stdin : list str) (out : list CliLine)
    : option Move * (list str * list CliLine) :=
  match stdin with
  | [] => (None, ([], out ++ [Prompt_Move]))
  | line :: rest =>
      let out := out ++ [Prompt_Move] in
      let txt := strip line in
      match txt with
      | [] => pick_move_cli b rest out
      | _ :: _ =>
          match
            match from_uci (str_lower txt) with
            | Some move => if is_legal b move then Some move else None
            | None => None
            end
          with
          | Some move => (Some move, (rest, out))
          | None =>
              match
                match parse_san b txt with
                | Some move => if is_legal b move then Some move else None
                | None => None
                end
              with
              | Some move => (Some move, (rest, out))
              | None =>
                  pick_move_cli b rest (out ++ [Print_Illegal_invalid_move])
              end
          end
      end
  end.

(** The objects of [main()]: the link, the board with its move stack,
    and the console. *)
Record Session : Type := mkSession {
  s_link : ArduinoLink;
  s_board : Board;
  s_moves : list Move;          (* board.move_stack *)
  s_stdin : list str;
  s_stdout : list CliLine;
}.

(** The [while not board.is_game_over()] loop of [main()], for at most
    [fuel] rounds ([None]: the rounds ran out). *)
Fixpoint game_loop (fuel : nat) (s : Session) : option (Exit * Session) :=
  match fuel with
  | O => None
  | S fuel' =>
      if is_game_over (s_board s) then Some (Returned, s)
      else
        let out := s_stdout s ++ [Print_board (board_str (s_board s));
                                  Print_FEN (fen (s_board s))] in
        match pick_move_cli (s_board s) (s_stdin s) out with
        | (None, (stdin', out')) =>
            Some (RaisedEOFError,
                  mkSession (s_link s) (s_board s) (s_moves s) stdin' out')
        | (Some move, (stdin', out')) =>
            let b' := push (s_board s) move in
            let ms' := s_moves s ++ [move] in
            match send_fen b' (s_link s) with
            | (Raise e, l') =>
                Some (Raised e, mkSession l' b' ms' stdin' out')
            | (Ok _, l') =>
                match ArduinoLink_.read_line l' with
                | (Raise e, l'') =>
                    Some (Raised e, mkSession l'' b' ms' stdin' out')
                | (Ok resp, l'') =>
                    let out'' :=
                      match resp with
                      | [] => out'
                      | _ :: _ => out' ++ [Print_Arduino_resp resp]
                      end in
                    game_loop fuel' (mkSession l'' b' ms' stdin' out'')
                end
            end
        end
  end.

(** [main()], given the port that [serial.Serial(...)] opened and the
    lines on standard input. *)
Definition main (win : bool) (port : Serial) (stdin : list str) (fuel : nat)
    : option (Exit * Session) :=
  let l0 := mkLink (SERIAL_PORT win) 115200 (1 # 1) (2 # 100) port [] in
  let board := start_position in
  match ArduinoLink_.post_init l0 with
  | (Raise e, l) => Some (Raised e, mkSession l board [] stdin [])
  | (Ok _, l) =>
      match send_fen board l with
      | (Raise e, l) => Some (Raised e, mkSession l board [] stdin [])
      | (Ok _, l) =>
          let out := [Print_Sent_initial_FEN] in
          match ArduinoLink_.read_line l with
          | (Raise e, l) => Some (Raised e, mkSession l board [] stdin out)
          | (Ok resp, l) =>
              let out := out ++ [Print_Arduino_says resp] in
              match game_loop fuel (mkSession l board [] stdin out) with
              | Some (Returned, s) =>
                  Some (Returned,
                        mkSession (s_link s) (s_board s) (s_moves s)
                          (s_stdin s)
                          (s_stdout s
                           ++ [Print_Game_over (result (s_board s))
                                 (outcome_str (s_board s))]))
              | r => r
              end
          end
      end
  end.

(** The move that one line typed at the prompt stands for in position
    [b], if any: a legal move in UCI, else a legal move in SAN. *)
Definition typed_san (b : Board) (line : str) : option Move :=
  match parse_san b (strip line) with
  | Some m => if is_legal b m then Some m else None
  | None => None
  end.

Definition typed_move (b : Board) (line : str) : option Move :=
  match strip line with
  | [] => None
  | _ :: _ =>
      match from_uci (str_lower (strip line)) with
      | Some m => if is_legal b m then Some m else typed_san b line
      | None => typed_san b line
      end
  end.

End CLI.

Arguments Session : clear implicits.

(** The name of a square of the board, a1 to h8: file letter, rank
    digit. *)
Definition coordinate (sq : Square) : str :=
  [97 + sq `mod` 8; 49 + (sq `mod` 64) / 8].

(** The port is open and no fault is scripted for it. *)
Definition healthy (p : Serial) : Prop := is_open p = true /\ faults p = [].

Section CLI_spec.

Context {Board : Type} `{Rules : ChessRules Board} `{Text : MoveText Board}.

(** What [pick_move_cli] prints for lines it does not accept: the
    prompt for each, and the complaint unless the line is blank. *)
Definition rejected_output (lines : list str) : list CliLine :=
  List.flat_map (fun line =>
    Prompt_Move ::
    match strip line with
    | [] => []
    | _ :: _ => [Print_Illegal_invalid_move]
    end) lines.

(** [data] is the line [send_line] writes for the FEN of [b]. *)
Definition line_of (b : Board) (data : bytes) : Prop :=
  utf8_encode (wire_line (fen b)) = Some data.

(** Each move passes the legality test in the position it is played
    in. *)
Fixpoint legal_from (b : Board) (ms : list Move) : Prop :=
  match ms with
  | [] => True
  | m :: ms' => is_legal b m = true /\ legal_from (push b m) ms'
  end.

(** The positions the moves lead to, from [b]. *)
Fixpoint positions_after (b : Board) (ms : list Move) : list Board :=
  match ms with
  | [] => []
  | m :: ms' => push b m :: positions_after (push b m) ms'
  end.

(** What one run of the loop of [main()] does, from [s] to [s']. *)
Definition loop_outcome (s : Session Board) (exit : Exit)
    (s' : Session Board) : Prop :=
  exists ms chunks used,
    s_moves s' = s_moves s ++ ms
    /\ s_board s' = fold_left push ms (s_board s)
    /\ legal_from (s_board s) ms
    /\ s_stdin s = used ++ s_stdin s'
    /\ (length ms <= length used)%nat
    /\ tx (ser (s_link s')) = tx (ser (s_link s)) ++ chunks
    /\ Forall2 line_of
         (take (length chunks) (positions_after (s_board s) ms)) chunks
    /\ (length chunks <= length ms <= S (length chunks))%nat
    /\ match exit with
       | Returned =>
           is_game_over (s_board s') = true /\ length chunks = length ms
       | RaisedEOFError =>
           is_game_over (s_board s') = false /\ s_stdin s' = []
           /\ length chunks = length ms
       | Raised e =>
           (e = SerialException \/ e = UnicodeEncodeError) /\ ms <> []
       end
    /\ (healthy (ser (s_link s)) ->
        healthy (ser (s_link s')) /\ exit <> Raised SerialException).

(** What [main()] does with the port it is given and the lines on
    standard input. *)
Definition main_outcome (port : Serial) (stdin : list str) (exit : Exit)
    (s' : Session Board) : Prop :=
  exists chunks used,
    s_board s' = fold_left push (s_moves s') start_position
    /\ legal_from start_position (s_moves s')
    /\ stdin = used ++ s_stdin s'
    /\ (length (s_moves s') <= length used)%nat
    /\ tx (ser (s_link s')) = tx port ++ chunks
    /\ Forall2 line_of
         (take (length chunks)
            (start_position :: positions_after start_position (s_moves s')))
         chunks
    /\ (length chunks <= S (length (s_moves s')) <= S (length chunks))%nat
    /\ match exit with
       | Returned =>
           is_game_over (s_board s') = true
           /\ length chunks = S (length (s_moves s'))
           /\ last (s_stdout s')
              = Some (Print_Game_over (result (s_board s'))
                        (outcome_str (s_board s')))
       | RaisedEOFError =>
           is_game_over (s_board s') = false /\ s_stdin s' = []
           /\ length chunks = S (length (s_moves s'))
       | Raised e => e = SerialException \/ e = UnicodeEncodeError
       end
    /\ (healthy port -> exit <> Raised SerialException).

End CLI_spec.

(** The scripted engine at the prompt: UCI as python-chess reads it
    (two squares and an optional promotion letter), SAN for pawn
    advances only ("e4"), ASCII lower case, the board diagram of
    [str(board)], and the outcome by the name of its termination. *)
Module ScriptText.

Import Script.

Definition ascii_lower (s : str) : str :=
  List.map (fun c => if in_range 65 90 c then c + 32 else c) s.

Definition uci_move (txt : str) : option Move :=
  match txt with
  | f1 :: r1 :: f2 :: r2 :: rest =>
      if in_range 97 104 f1 && in_range 49 56 r1
         && in_range 97 104 f2 && in_range 49 56 r2
      then
        let from_sq := square (f1 - 97) (r1 - 49) in
        let to_sq := square (f2 - 97) (r2 - 49) in
        match rest with
        | [] => Some (mkMove from_sq to_sq None)
        | [c] =>
            if (c =? 113) || (c =? 114) || (c =? 98) || (c =? 110)
            then (fun q => mkMove from_sq to_sq (Some (piece_type q)))
                 <$> piece_of_symbol c
            else None
        | _ => None
        end
      else None
  | _ => None
  end.

Definition san_move (p : Position) (txt : str) : option Move :=
  match txt with
  | [f; r] =>
      List.find (fun m =>
        (to_square m =? square (f - 97) (r - 49))
        && (square_file (from_square m) =? f - 97)
        && match lookup_piece p (from_square m) with
           | Some q => bool_decide (piece_type q = PAWN)
           | None => false
           end) (moves p)
  | _ => None
  end.

Definition diagram (p : Position) : str :=
  join [NEWLINE]
    (List.map (fun rank =>
       join [32]
         (List.map (fun file =>
            match lookup_piece p (square file rank) with
            | Some q => [symbol q]
            | None => [46]
            end) (List.map Z.of_nat (seq 0 8))))
       (List.map (fun k => 7 - Z.of_nat k) (seq 0 8))).

#[global] Instance text : MoveText Position := {|
  from_uci := uci_move;
  parse_san := san_move;
  str_lower := ascii_lower;
  board_str := diagram;
  outcome_str p :=
    match p_over p with
    | Some o => lit (snd o)
    | None => lit "None"
    end;
|}.

(** What is typed in a short session: a blank line, "e2e4" with blanks
    around it, a line that is no move, and black's answer in SAN. *)
Definition typed : list str :=
  [lit ""; lit " e2e4 "; lit "castle"; lit "e5"].

End ScriptText.

(** ** Castling by taking one's own rook

    python-chess reads a king's move onto a rook of its own side as
    castling to that side: the legality test accepts it and [push] plays
    it, though the enumeration lists castling as the king's two-square
    move only.  [Lib] is the scripted engine with that reading. *)
Module Castling.

Import Script.

Local Open Scope string_scope.
Local Open Scope Z_scope.

Definition as_castling (p : Position) (m : Move) : Move :=
  match lookup_piece p (from_square m), lookup_piece p (to_square m) with
  | Some k, Some r =>
      if bool_decide (piece_type k = KING)
         && bool_decide (piece_type r = ROOK)
         && bool_decide (color k = color r)
      then mkMove (from_square m)
             (if from_square m <? to_square m
              then from_square m + 2 else from_square m - 2)
             None
      else m
  | _, _ => m
  end.

Record Lib : Type := mkLib { position : Position }.

#[local] Instance lib_rules : ChessRules Lib := {|
  start_position := mkLib start;
  turn b := turn (position b);
  piece_at b := piece_at (position b);
  legal_moves b := legal_moves (position b);
  is_legal b m := is_legal (position b) (as_castling (position b) m);
  is_capture b := is_capture (position b);
  push b m := mkLib (push (position b) (as_castling (position b) m));
  is_game_over b := is_game_over (position b);
  fen b := fen (position b);
  result b := result (position b);
  outcome_termination b := outcome_termination (position b);
|}.

(** White may castle king side. *)
Definition white_castles : Position :=
  Pos "4k3/8/8/8/8/8/8/4K2R w K - 0 1" None
  [ ("h1h8", leaf "4k2R/8/8/8/8/8/8/4K3 b - - 1 1");
    ("h1h7", leaf "4k3/7R/8/8/8/8/8/4K3 b - - 1 1");
    ("h1h6", leaf "4k3/8/7R/8/8/8/8/4K3 b - - 1 1");
    ("h1h5", leaf "4k3/8/8/7R/8/8/8/4K3 b - - 1 1");
    ("h1h4", leaf "4k3/8/8/8/7R/8/8/4K3 b - - 1 1");
    ("h1h3", leaf "4k3/8/8/8/8/7R/8/4K3 b - - 1 1");
    ("h1h2", leaf "4k3/8/8/8/8/8/7R/4K3 b - - 1 1");
    ("h1g1", leaf "4k3/8/8/8/8/8/8/4K1R1 b - - 1 1");
    ("h1f1", leaf "4k3/8/8/8/8/8/8/4KR2 b - - 1 1");
    ("e1f2", leaf "4k3/8/8/8/8/8/5K2/7R b - - 1 1");
    ("e1e2", leaf "4k3/8/8/8/8/8/4K3/7R b - - 1 1");
    ("e1d2", leaf "4k3/8/8/8/8/8/3K4/7R b - - 1 1");
    ("e1f1", leaf "4k3/8/8/8/8/8/8/5K1R b - - 1 1");
    ("e1d1", leaf "4k3/8/8/8/8/8/8/3K3R b - - 1 1");
    ("e1g1", leaf "4k3/8/8/8/8/8/8/5RK1 b - - 1 1") ].

(** The king on e1 has been selected in two-player mode. *)
Definition e1_selected : ChessGUI Lib :=
  after (Click 0 4)
    (mkGUI the_link (mkLib white_castles) [] None ∅ ∅ ∅ pvp [] [] []).

End Castling.


(** * Properties *)

Ltac unfold_monad :=
  unfold mbind, mret, M_bind, M_ret, bind, ret, get, modify, raise,
    try_except, zoom in *.

(** ** Text *)

Lemma square_of_file_rank (sq : Square) :
  square (square_file sq) (square_rank sq) = sq.
Proof.
  unfold square, square_file, square_rank.
  rewrite Z.shiftr_div_pow2 by lia.
  change 7 with (Z.ones 3). rewrite Z.land_ones by lia.
  change (2 ^ 3) with 8. pose proof (Z.div_mod sq 8). lia.
Qed.

Lemma utf8_encode_printable (s : str) :
  Forall printable s -> utf8_encode (s ++ [NEWLINE]) = Some (s ++ [NEWLINE]).
Proof.
  induction 1 as [|c s Hc _ IH]; [reflexivity|].
  cbn [app utf8_encode]. rewrite IH.
  unfold printable in Hc. unfold utf8_encode_char.
  destruct (Z.ltb_spec c 0); [lia|].
  destruct (Z.ltb_spec c 128); [reflexivity|lia].
Qed.

Lemma endswith_newline_printable (s : str) :
  Forall printable s -> endswith_newline s = false.
Proof.
  intros Hs. unfold endswith_newline.
  destruct (rev s) as [|c r] eqn:E; [reflexivity|].
  assert (Hc : printable c).
  { rewrite Forall_forall in Hs. apply Hs.
    apply list_elem_of_In. apply in_rev. rewrite E. left. reflexivity. }
  unfold printable, NEWLINE in *. apply Z.eqb_neq. lia.
Qed.

(** ** The serial transport *)

Lemma utf8_encode_app (s t : str) :
  utf8_encode (s ++ t) =
  match utf8_encode s, utf8_encode t with
  | Some a, Some b => Some (a ++ b)
  | _, _ => None
  end.
Proof.
  induction s as [|c s IH]; cbn [app utf8_encode].
  - destruct (utf8_encode t); reflexivity.
  - rewrite IH. destruct (utf8_encode_char c), (utf8_encode s), (utf8_encode t);
      try reflexivity.
    rewrite app_assoc. reflexivity.
Qed.





(** [send_line] in full: what it returns and how it leaves the link,
    by what the text and the port allow. *)
Lemma send_line_cases (text : str) (l : ArduinoLink) :
  match utf8_encode (wire_line text) with
  | None => ArduinoLink_.send_line text l = (Raise UnicodeEncodeError, l)
  | Some data =>
      if negb (accepts 1 (ser l)) then
        ArduinoLink_.send_line text l
        = (Raise SerialException,
           set_ser (set_faults (tail (faults (ser l))) (ser l)) l)
      else if negb (accepts 2 (ser l)) then
        ArduinoLink_.send_line text l
        = (Raise SerialException,
           set_ser (mkSerial true (tx (ser l) ++ [data]) (flushes (ser l))
                      (rx (ser l)) (tail (tail (faults (ser l))))) l)
      else
        ArduinoLink_.send_line text l
        = (if Qnum (write_delay l) <? 0 then Raise ValueError else Ok tt,
           mkLink (port l) (baud l) (timeout l) (write_delay l)
             (mkSerial true (tx (ser l) ++ [data]) (S (flushes (ser l)))
                (rx (ser l)) (tail (tail (faults (ser l)))))
             (if 0 <? Qnum (write_delay l) then slept l ++ [write_delay l]
              else slept l))
  end.
Proof.
  unfold ArduinoLink_.send_line, ArduinoLink_.encode, wire_line.
  destruct (endswith_newline text); cbn [negb];
    (destruct (utf8_encode _) as [data|]; [|reflexivity]);
    destruct l as [p b t w s sl]; destruct s as [o tx0 f rx0 fs];
    unfold accepts, on_ser, ser_write, ser_flush, port_op, time_sleep, truthy;
    unfold_monad; cbn.
  all: destruct o; cbn; [|reflexivity].
  all: destruct fs as [|[] [|[] fs]]; cbn; try reflexivity.
  all: rewrite ?firstn_O; cbn; destruct w as [[|n|n] d]; reflexivity.
Qed.

Lemma send_line_accepted (text : str) (data : bytes) (l : ArduinoLink) :
  utf8_encode (wire_line text) = Some data ->
  accepts 2 (ser l) = true ->
  ArduinoLink_.send_line text l =
  (if Qnum (write_delay l) <? 0 then Raise ValueError else Ok tt,
   mkLink (port l) (baud l) (timeout l) (write_delay l)
     (mkSerial true (tx (ser l) ++ [data]) (S (flushes (ser l))) (rx (ser l))
        (tail (tail (faults (ser l)))))
     (if 0 <? Qnum (write_delay l) then slept l ++ [write_delay l]
      else slept l)).
Proof.
  intros Hd Ha. pose proof (send_line_cases text l) as H.
  rewrite Hd, Ha in H.
  assert (Ha1 : accepts 1 (ser l) = true).
  { unfold accepts in *. apply andb_prop in Ha as [Ho Hf]. rewrite Ho.
    destruct (faults (ser l)) as [|[] fs]; [reflexivity|discriminate|].
    reflexivity. }
  rewrite Ha1 in H. exact H.
Qed.


Lemma read_line_returns (l : ArduinoLink) :
  exists (line : str) (l' : ArduinoLink),
    ArduinoLink_.read_line l = (Ok line, l') /\ tx (ser l') = tx (ser l).
Proof.
  unfold ArduinoLink_.read_line, on_ser, ser_readline, port_op. unfold_monad.
  destruct l as [p b t w s sl]; destruct s as [o tx0 f rx0 fs]; cbn.
  destruct o; cbn; [|eauto].
  destruct fs as [|[] fs]; cbn; [|eauto|];
    (destruct rx0 as [|d rx0]; cbn;
     [|destruct (up_to_newline d) as [line rest]; cbn]); eauto.
Qed.

(** What [read_line] does to the port: one operation of the script is
    used up, nothing is written, the port stays open or closed. *)
Lemma read_line_port (l : ArduinoLink) :
  tx (ser (snd (ArduinoLink_.read_line l))) = tx (ser l)
  /\ is_open (ser (snd (ArduinoLink_.read_line l))) = is_open (ser l)
  /\ faults (ser (snd (ArduinoLink_.read_line l))) = tail (faults (ser l))
  /\ write_delay (snd (ArduinoLink_.read_line l)) = write_delay l.
Proof.
  unfold ArduinoLink_.read_line, on_ser, ser_readline, port_op. unfold_monad.
  destruct l as [p b t w s sl]; destruct s as [o tx0 f rx0 fs]; cbn.
  destruct o; cbn; [|auto].
  destruct fs as [|[] fs]; cbn; [|auto|];
    (destruct rx0 as [|d rx0]; cbn;
     [|destruct (up_to_newline d) as [line rest]; cbn]); auto.
Qed.

(** A port that takes the next [k + n] operations takes the next [n]
    once [k] of them are done. *)
Lemma accepts_later (k n : nat) (p p' : Serial) :
  accepts (k + n) p = true ->
  is_open p' = true ->
  faults p' = drop k (faults p) ->
  accepts n p' = true.
Proof.
  unfold accepts. intros Ha -> ->. cbn [andb].
  apply andb_prop in Ha as [_ Ha]. revert Ha.
  generalize (faults p). induction k as [|k IH]; intros fs Ha.
  - exact Ha.
  - destruct fs as [|f fs]; [destruct n; reflexivity|].
    cbn in Ha. apply andb_prop in Ha as [_ Ha]. apply IH, Ha.
Qed.

Lemma accepts_fewer (k n : nat) (p : Serial) :
  accepts (k + n) p = true -> accepts k p = true.
Proof.
  unfold accepts. intros Ha. apply andb_prop in Ha as [-> Ha]. cbn [andb].
  revert Ha. generalize (faults p). induction k as [|k IH]; intros fs Ha.
  - reflexivity.
  - destruct fs as [|f fs]; [reflexivity|].
    cbn in Ha |- *. apply andb_prop in Ha as [-> Ha]. apply IH, Ha.
Qed.


(** ** Reasoning about computations *)

Lemma wp_elim {S A} (m : M S A) (s : S) (Q : A -> S -> Prop) :
  wp m s Q -> exists a s', m s = (Ok a, s') /\ Q a s'.
Proof.
  unfold wp. destruct (m s) as [[a|e] s']; [eauto|tauto].
Qed.

Lemma wp_intro {S A} (m : M S A) (s s' : S) (a : A) (Q : A -> S -> Prop) :
  m s = (Ok a, s') -> Q a s' -> wp m s Q.
Proof. unfold wp. intros ->. auto. Qed.

Lemma wp_mono {S A} (m : M S A) (s : S) (Q Q' : A -> S -> Prop) :
  wp m s Q -> (forall a s', Q a s' -> Q' a s') -> wp m s Q'.
Proof.
  unfold wp. destruct (m s) as [[a|e] s']; [auto|tauto].
Qed.

Lemma wp_bind {S A B} (m : M S A) (k : A -> M S B) (s : S)
    (Q : B -> S -> Prop) :
  wp m s (fun a s' => wp (k a) s' Q) -> wp (mbind k m) s Q.
Proof.
  unfold wp, mbind, M_bind, bind. destruct (m s) as [[a|e] s']; auto.
Qed.

Lemma wp_ret {S A} (a : A) (s : S) (Q : A -> S -> Prop) :
  Q a s -> wp (mret a) s Q.
Proof. auto. Qed.

Lemma wp_get {S} (s : S) (Q : S -> S -> Prop) : Q s s -> wp get s Q.
Proof. auto. Qed.

Lemma wp_modify {S} (f : S -> S) (s : S) (Q : unit -> S -> Prop) :
  Q tt (f s) -> wp (modify f) s Q.
Proof. auto. Qed.

(** One step of a sequence whose first command has a known effect. *)
Ltac wp_step lem :=
  apply wp_bind; eapply wp_mono; [apply lem|]; cbv beta.
Ltac wp_pure :=
  repeat lazymatch goal with
    | |- wp (mbind _ get) _ _ => apply wp_bind; apply wp_get; cbv beta
    | |- wp (mbind _ (modify _)) _ _ => apply wp_bind; apply wp_modify; cbv beta
    | |- wp (mbind _ (mret _)) _ _ => apply wp_bind; apply wp_ret; cbv beta
    | |- wp get _ _ => apply wp_get; cbv beta
    | |- wp (modify _) _ _ => apply wp_modify; cbv beta
    | |- wp (mret _) _ _ => apply wp_ret
    | |- wp (ret _) _ _ => apply wp_ret
    end.

(** Bring a window state built from setters into constructor form. *)
Ltac gui_simpl :=
  cbn [set_link set_board set_selected_square set_legal_targets
       set_capture_targets set_buttons set_mode_var set_rng set_stdout
       set_dialogs link board move_stack selected_square legal_targets
       capture_targets buttons mode_var rng stdout dialogs] in *.

Lemma wp_for_each_inv {S A} (I : S -> Prop) (xs : list A)
    (body : A -> M S unit) (s : S) :
  I s ->
  (forall x s0, I s0 -> wp (body x) s0 (fun _ s' => I s')) ->
  wp (for_each xs body) s (fun _ s' => I s').
Proof.
  intros Hs Hbody. revert s Hs.
  induction xs as [|x xs IH]; intros s Hs; cbn [for_each].
  - apply wp_ret. exact Hs.
  - apply (wp_bind (S:=S)). eapply wp_mono; [apply Hbody, Hs|].
    intros [] s' Hs'. apply IH, Hs'.
Qed.

Section GUI_facts.

Context {Board : Type} `{Rules : ChessRules Board}.
Implicit Types g : ChessGUI Board.

Lemma wp_update_board g :
  wp update_board g (fun _ g' => exists bs, g' = set_buttons bs g).
Proof.
  unfold update_board. generalize SQUARES. intros l.
  assert (H : forall bs0, wp
    (for_each l (fun sq =>
       g ← get;
       let file := square_file sq in
       let rank := square_rank sq in
       let colour := square_bg g sq in
       let label :=
         match piece_at (board g) sq with
         | None => []
         | Some piece => [piece_glyph (symbol piece)]
         end in
       modify (set_buttons
                 (<[(rank, file) := mkButton colour colour label]> (buttons g)))))
    (set_buttons bs0 g) (fun _ g' => exists bs, g' = set_buttons bs g)).
  { induction l as [|sq l IH]; intros bs0.
    - apply wp_ret. eauto.
    - cbn [for_each]. apply (wp_bind (S:=ChessGUI Board)). wp_pure.
      apply IH. }
  destruct g. apply (H _).
Qed.

Lemma wp_clear_targets_eq g :
  wp clear_targets g (fun _ g' =>
    g' = set_capture_targets ∅ (set_legal_targets ∅ g)).
Proof. unfold clear_targets. wp_pure. reflexivity. Qed.

Lemma wp_compute_targets g :
  wp _compute_targets_for_selected g (fun _ g' =>
    exists lt ct, ct ⊆ lt
      /\ g' = set_capture_targets ct (set_legal_targets lt g)).
Proof.
  unfold _compute_targets_for_selected.
  wp_step wp_clear_targets_eq. intros _ g0 ->. wp_pure. gui_simpl.
  destruct (selected_square g) as [sel|].
  2:{ apply wp_ret. exists ∅, ∅. split; [set_solver|reflexivity]. }
  generalize (legal_moves (board g)). intros l.
  assert (H : forall lt ct, ct ⊆ lt -> wp
    (for_each l (fun m =>
       if bool_decide (from_square m = sel) then
         modify (fun g => set_legal_targets
                            ({[to_square m]} ∪ legal_targets g) g) ;;
         g ← get;
         if is_capture (board g) m then
           modify (fun g => set_capture_targets
                              ({[to_square m]} ∪ capture_targets g) g)
         else mret tt
       else mret tt))
    (mkGUI (link g) (board g) (move_stack g) (selected_square g) lt ct
       (buttons g) (mode_var g) (rng g) (stdout g) (dialogs g))
    (fun _ g' => exists lt ct, ct ⊆ lt
       /\ g' = set_capture_targets ct (set_legal_targets lt g))).
  { induction l as [|m l IH]; intros lt ct Hsub.
    - apply wp_ret. eauto.
    - cbn [for_each]. apply (wp_bind (S:=ChessGUI Board)).
      destruct (bool_decide (from_square m = sel)).
      + wp_pure. gui_simpl.
        destruct (is_capture (board g) m).
        * wp_pure. gui_simpl.
          apply (IH ({[to_square m]} ∪ lt) ({[to_square m]} ∪ ct)).
          apply union_mono_l. exact Hsub.
        * wp_pure. apply (IH ({[to_square m]} ∪ lt) ct). set_solver.
      + wp_pure. apply (IH lt ct Hsub). }
  apply (H ∅ ∅). set_solver.
Qed.


Lemma wp_send_position g :
  wp send_position_to_arduino g (fun _ g' =>
    exists l' out,
      g' = set_stdout out (set_link l' g)
      /\ (Forall printable (fen (board g)) ->
          accepts 2 (ser (link g)) = true ->
          out = (if Qnum (write_delay (link g)) <? 0
                 then stdout g ++ [Print_Error_enviando_FEN ValueError]
                 else stdout g)
          /\ tx (ser l') = tx (ser (link g)) ++ [fen (board g) ++ [NEWLINE]]
          /\ is_open (ser l') = true
          /\ faults (ser l') = drop 2 (faults (ser (link g)))
          /\ write_delay l' = write_delay (link g))).
Proof.
  assert (Hs : Forall printable (fen (board g)) ->
               accepts 2 (ser (link g)) = true ->
               exists l',
                 send_fen (board g) (link g)
                 = (if Qnum (write_delay (link g)) <? 0
                    then Raise ValueError else Ok tt, l')
                 /\ tx (ser l') =
                    tx (ser (link g)) ++ [fen (board g) ++ [NEWLINE]]
                 /\ is_open (ser l') = true
                 /\ faults (ser l') = drop 2 (faults (ser (link g)))
                 /\ write_delay l' = write_delay (link g)).
  { intros Hp Ha. eexists. split.
    - apply (send_line_accepted _ (fen (board g) ++ [NEWLINE])); [|exact Ha].
      unfold wire_line. rewrite (endswith_newline_printable _ Hp).
      apply utf8_encode_printable, Hp.
    - cbn. repeat split.
      destruct (faults (ser (link g))) as [|? [|? ?]]; reflexivity. }
  unfold wp, send_position_to_arduino, on_link, print. unfold_monad.
  destruct (send_fen (board g) (link g)) as [[[]|e] l'].
  - exists l', (stdout g). split; [reflexivity|]. intros Hp Ha.
    destruct (Hs Hp Ha) as (l2 & Heq & Hrest).
    destruct (Qnum (write_delay (link g)) <? 0); [discriminate|].
    injection Heq as <-. auto.
  - exists l', (stdout g ++ [Print_Error_enviando_FEN e]).
    split; [reflexivity|]. intros Hp Ha.
    destruct (Hs Hp Ha) as (l2 & Heq & Hrest).
    destruct (Qnum (write_delay (link g)) <? 0); [|discriminate].
    injection Heq as <- <-. auto.
Qed.

Lemma wp_read_line g :
  wp (on_link ArduinoLink_.read_line) g (fun _ g' =>
    exists l',
      g' = set_link l' g
      /\ tx (ser l') = tx (ser (link g))
      /\ is_open (ser l') = is_open (ser (link g))
      /\ faults (ser l') = tail (faults (ser (link g)))
      /\ write_delay l' = write_delay (link g)).
Proof.
  unfold wp, on_link, zoom.
  pose proof (read_line_port (link g)) as Hport.
  destruct (read_line_returns (link g)) as (line & l' & Hrun & _).
  rewrite Hrun in Hport |- *. cbn [snd] in Hport. eauto.
Qed.

Lemma wp_show_game_over g :
  wp _show_game_over g (fun _ g' => exists d, g' = set_dialogs d g).
Proof. unfold _show_game_over. wp_pure. eauto. Qed.

Lemma wp_print line g :
  wp (print line) g (fun _ g' => g' = set_stdout (stdout g ++ [line]) g).
Proof. unfold print. wp_pure. reflexivity. Qed.

Lemma drawn_move_legal g m :
  drawn_move g = Some m -> In m (legal_moves (board g)).
Proof.
  unfold drawn_move. intros H. apply list_elem_of_In.
  eapply list_elem_of_lookup_2, H.
Qed.

Lemma drawn_move_some g :
  legal_moves (board g) <> [] -> exists m, drawn_move g = Some m.
Proof.
  unfold drawn_move. intros Hne.
  apply lookup_lt_is_Some. apply Nat.mod_upper_bound.
  destruct (legal_moves (board g)); [congruence|cbn; lia].
Qed.

(** What the machine's turn does to the window. *)
Lemma wp_make_computer_move g :
  wp _make_computer_move g (fun _ g' =>
    if is_game_over (board g) then g' = g
    else match drawn_move g with
         | None => g' = g
         | Some m =>
             exists l' out d,
               g' = mkGUI l' (push (board g) m) (move_stack g ++ [m])
                      (selected_square g) (legal_targets g)
                      (capture_targets g) (buttons g) (mode_var g)
                      (tail (rng g)) out d
               /\ (Forall printable (fen (push (board g) m)) ->
                   accepts 2 (ser (link g)) = true ->
                   tx (ser l') =
                   tx (ser (link g)) ++ [fen (push (board g) m) ++ [NEWLINE]])
         end).
Proof.
  unfold _make_computer_move. wp_pure.
  destruct (is_game_over (board g)); [apply wp_ret; reflexivity|].
  destruct (legal_moves (board g)) as [|m0 ms] eqn:El.
  { apply wp_ret. unfold drawn_move. rewrite El. reflexivity. }
  rewrite <- El. unfold random_choice.
  apply (wp_bind (S:=ChessGUI Board)). wp_pure. gui_simpl.
  fold (drawn_move g).
  destruct (drawn_move_some g) as [m Hm]; [congruence|]. rewrite Hm.
  wp_pure. unfold board_push. wp_pure. gui_simpl.
  wp_step wp_send_position. intros _ g1 (l1 & o1 & -> & Hsent).
  wp_step wp_read_line. intros resp g2 (l2 & -> & Htx & _).
  gui_simpl.
  assert (Hline : Forall printable (fen (push (board g) m)) ->
                  accepts 2 (ser (link g)) = true ->
                  tx (ser l2) =
                  tx (ser (link g)) ++ [fen (push (board g) m) ++ [NEWLINE]]).
  { intros Hp Ha. rewrite Htx. apply (Hsent Hp Ha). }
  apply (wp_bind (S:=ChessGUI Board)).
  destruct resp as [|c resp];
    [wp_pure|eapply wp_mono; [apply wp_print|]; intros _ g3 ->; wp_pure];
    gui_simpl.
  - destruct (is_game_over (push (board g) m)).
    + eapply wp_mono; [apply wp_show_game_over|].
      intros _ g3 (d & ->). gui_simpl. eauto 6.
    + apply wp_ret. eauto 6.
  - destruct (is_game_over (push (board g) m)).
    + eapply wp_mono; [apply wp_show_game_over|].
      intros _ g3 (d & ->). gui_simpl. eauto 6.
    + apply wp_ret. eauto 6.
Qed.


Lemma guards_pass g :
  clicks_accepted g ->
  is_game_over (board g) = false
  /\ bool_decide (mode_var g = pvc) && bool_decide (turn (board g) = BLACK)
     = false.
Proof.
  intros [Hover Hturn]. split; [exact Hover|].
  apply andb_false_iff.
  destruct (decide (mode_var g = pvc)) as [Hm|Hm].
  - right. apply bool_decide_eq_false. tauto.
  - left. apply bool_decide_eq_false. exact Hm.
Qed.

Lemma is_pawn_promotion_true g from_sq to_sq p :
  piece_at (board g) from_sq = Some p ->
  piece_type p = PAWN ->
  (color p = WHITE /\ square_rank to_sq = 7)
  \/ (color p = BLACK /\ square_rank to_sq = 0) ->
  _is_pawn_promotion from_sq to_sq g = (Ok true, g).
Proof.
  intros Hp Ht Hr. unfold _is_pawn_promotion. unfold_monad.
  rewrite Hp, Ht. cbn.
  destruct Hr as [[-> ->]|[-> ->]]; reflexivity.
Qed.

(** A first click on a piece of the side to move selects it. *)
Lemma wp_first_click g rank file p :
  clicks_accepted g ->
  selected_square g = None ->
  piece_at (board g) (square file rank) = Some p ->
  color p = turn (board g) ->
  wp (on_square_clicked rank file) g (fun _ g' =>
    exists lt ct bs,
      ct ⊆ lt
      /\ g' = mkGUI (link g) (board g) (move_stack g)
                (Some (square file rank)) lt ct bs (mode_var g) (rng g)
                (stdout g) (dialogs g)).
Proof.
  intros Hacc Hsel Hp Hc. destruct (guards_pass g Hacc) as [Hover Hguard].
  unfold on_square_clicked. wp_pure. rewrite Hover, Hguard, Hsel, Hp.
  rewrite (bool_decide_eq_true_2 _ Hc). cbn [negb].
  wp_pure. wp_step wp_compute_targets. intros _ g1 (lt & ct & Hsub & ->).
  eapply wp_mono; [apply wp_update_board|]. intros _ g2 (bs & ->).
  gui_simpl. eauto 6.
Qed.

(** A second click whose candidate [move] passes the legality test:
    the move is pushed, the selection dropped, the position sent, and
    in "pvc" mode the machine answers. *)
Lemma wp_second_click_move g rank file sel move :
  clicks_accepted g ->
  selected_square g = Some sel ->
  square file rank <> sel ->
  (move = mkMove sel (square file rank) None
   /\ is_legal (board g) move = true)
  \/ (is_legal (board g) (mkMove sel (square file rank) None) = false
      /\ _is_pawn_promotion sel (square file rank) g = (Ok true, g)
      /\ move = mkMove sel (square file rank) (Some QUEEN)
      /\ is_legal (board g) move = true) ->
  wp (on_square_clicked rank file) g (fun _ g' =>
    exists l' out d bs r' rest,
      g' = mkGUI l' (fold_left push rest (push (board g) move))
             (move_stack g ++ move :: rest) None ∅ ∅ bs (mode_var g) r'
             out d
      /\ (rest = []
          \/ (mode_var g = pvc
              /\ is_game_over (push (board g) move) = false
              /\ exists m, rest = [m]
                   /\ In m (legal_moves (push (board g) move))))
      /\ (mode_var g = pvp \/ is_game_over (push (board g) move) = true ->
          rest = [] /\ r' = rng g)
      /\ (Forall printable (fen (push (board g) move)) ->
          accepts 2 (ser (link g)) = true ->
          rest = [] ->
          tx (ser l') =
          tx (ser (link g)) ++ [fen (push (board g) move) ++ [NEWLINE]])
      /\ rest = match machine_reply g (push (board g) move) with
                | Some r => [r]
                | None => []
                end
      /\ (forall r,
            rest = [r] ->
            Forall printable (fen (push (board g) move)) ->
            Forall printable (fen (push (push (board g) move) r)) ->
            accepts 5 (ser (link g)) = true ->
            tx (ser l') =
            tx (ser (link g))
            ++ [fen (push (board g) move) ++ [NEWLINE];
                fen (push (push (board g) move) r) ++ [NEWLINE]])).
Proof.
  intros Hacc Hsel Hne Hmove.
  destruct (guards_pass g Hacc) as [Hover Hguard].
  assert (Hlegal : is_legal (board g) move = true) by tauto.
  unfold on_square_clicked. wp_pure. rewrite Hover, Hguard, Hsel.
  apply (wp_bind (S:=ChessGUI Board)).
  rewrite (bool_decide_eq_false_2 _ Hne).
  apply (wp_bind (S:=ChessGUI Board)).
  apply (wp_intro _ g g move).
  { destruct Hmove as [[-> Hl]|(Hl & Hpromo & -> & _)]; rewrite Hl; cbn [negb].
    - reflexivity.
    - unfold_monad. rewrite Hpromo. reflexivity. }
  rewrite Hlegal. unfold board_push. wp_pure. gui_simpl.
  wp_step wp_clear_targets_eq. intros _ g0 ->. gui_simpl.
  wp_step wp_send_position. intros _ g1 (l1 & o1 & -> & Hsent).
  wp_step wp_read_line. intros resp g2 (l2 & -> & Htx & Hopen & Hfaults & _).
  gui_simpl.
  apply (wp_bind (S:=ChessGUI Board)).
  assert (Hcont : forall out,
    wp (g ← get;
        if is_game_over (board g) then _show_game_over
        else if bool_decide (mode_var g = pvc) then _make_computer_move
             else mret ())
      (mkGUI l2 (push (board g) move) (move_stack g ++ [move]) None ∅ ∅
         (buttons g) (mode_var g) (rng g) out (dialogs g))
      (fun _ g3 =>
         exists l' out d r' rest,
           g3 = mkGUI l' (fold_left push rest (push (board g) move))
                  (move_stack g ++ move :: rest) None ∅ ∅ (buttons g)
                  (mode_var g) r' out d
           /\ (rest = []
               \/ (mode_var g = pvc
                   /\ is_game_over (push (board g) move) = false
                   /\ exists m, rest = [m]
                        /\ In m (legal_moves (push (board g) move))))
           /\ (mode_var g = pvp
               \/ is_game_over (push (board g) move) = true ->
               rest = [] /\ r' = rng g)
           /\ (rest = [] -> l' = l2)
           /\ rest = match machine_reply g (push (board g) move) with
                     | Some r => [r]
                     | None => []
                     end
           /\ (forall r,
                 rest = [r] ->
                 Forall printable (fen (push (push (board g) move) r)) ->
                 accepts 2 (ser l2) = true ->
                 tx (ser l') =
                 tx (ser l2)
                 ++ [fen (push (push (board g) move) r) ++ [NEWLINE]]))).
  { intros out. wp_pure. gui_simpl. unfold machine_reply.
    destruct (is_game_over (push (board g) move)) eqn:Hover'.
    - eapply wp_mono; [apply wp_show_game_over|]. intros _ g3 (d & ->).
      gui_simpl. exists l2, out, d, (rng g), [].
      rewrite andb_false_r. cbn.
      repeat split; auto; discriminate.
    - destruct (decide (mode_var g = pvc)) as [Hm|Hm].
      + rewrite (bool_decide_eq_true_2 _ Hm).
        eapply wp_mono; [apply wp_make_computer_move|]. intros [] g3.
        gui_simpl. rewrite Hover'. cbn [andb negb].
        unfold drawn_move. gui_simpl.
        destruct (legal_moves (push (board g) move)
                    !! _) as [m|] eqn:Hd.
        * intros (l' & out' & d & -> & Hline).
          assert (Hin : In m (legal_moves (push (board g) move))).
          { apply list_elem_of_In. eapply list_elem_of_lookup_2, Hd. }
          gui_simpl. exists l', out', d, (tail (rng g)), [m].
          rewrite <- app_assoc. cbn.
          split; [reflexivity|]. split; [right; eauto|].
          split; [intros [Hp|Hp]; [rewrite Hm in Hp|]; discriminate|].
          split; [discriminate|]. split; [reflexivity|].
          intros r [= <-] Hp Ha. apply (Hline Hp Ha).
        * intros ->. exists l2, out, (dialogs g), (rng g), [].
          cbn. repeat split; auto; discriminate.
      + rewrite (bool_decide_eq_false_2 _ Hm). apply wp_ret.
        exists l2, out, (dialogs g), (rng g), []. cbn.
        repeat split; auto; discriminate. }
  assert (Hfin : forall out,
    wp (g ← get;
        if is_game_over (board g) then _show_game_over
        else if bool_decide (mode_var g = pvc) then _make_computer_move
             else mret ())
      (mkGUI l2 (push (board g) move) (move_stack g ++ [move]) None ∅ ∅
         (buttons g) (mode_var g) (rng g) out (dialogs g))
      (fun _ s' => wp ((fun _ : unit => update_board) tt) s' (fun _ g' =>
    exists l' out d bs r' rest,
      g' = mkGUI l' (fold_left push rest (push (board g) move))
             (move_stack g ++ move :: rest) None ∅ ∅ bs (mode_var g) r'
             out d
      /\ (rest = []
          \/ (mode_var g = pvc
              /\ is_game_over (push (board g) move) = false
              /\ exists m, rest = [m]
                   /\ In m (legal_moves (push (board g) move))))
      /\ (mode_var g = pvp \/ is_game_over (push (board g) move) = true ->
          rest = [] /\ r' = rng g)
      /\ (Forall printable (fen (push (board g) move)) ->
          accepts 2 (ser (link g)) = true ->
          rest = [] ->
          tx (ser l') =
          tx (ser (link g)) ++ [fen (push (board g) move) ++ [NEWLINE]])
      /\ rest = match machine_reply g (push (board g) move) with
                | Some r => [r]
                | None => []
                end
      /\ (forall r,
            rest = [r] ->
            Forall printable (fen (push (board g) move)) ->
            Forall printable (fen (push (push (board g) move) r)) ->
            accepts 5 (ser (link g)) = true ->
            tx (ser l') =
            tx (ser (link g))
            ++ [fen (push (board g) move) ++ [NEWLINE];
                fen (push (push (board g) move) r) ++ [NEWLINE]])))).
  { intros out. eapply wp_mono; [apply Hcont|]. cbv beta.
    intros _ g3 (l' & out' & d & r' & rest & -> & Hrest & Hquiet & Hl
                 & Hreply & Hline).
    eapply wp_mono; [apply wp_update_board|]. intros _ g4 (bs & ->).
    gui_simpl. exists l', out', d, bs, r', rest.
    split; [reflexivity|]. split; [exact Hrest|]. split; [exact Hquiet|].
    split; [|split; [exact Hreply|]].
    - intros Hp Ha Hr. rewrite (Hl Hr), Htx. apply Hsent; assumption.
    - intros r Hr Hp1 Hp2 Ha.
      destruct (Hsent Hp1 (accepts_fewer 2 3 _ Ha))
        as (_ & Htx1 & Hopen1 & Hfaults1 & _).
      assert (Ha2 : accepts 2 (ser l2) = true).
      { apply (accepts_later 3 2 (ser (link g))); [exact Ha| |].
        - rewrite Hopen. exact Hopen1.
        - rewrite Hfaults, Hfaults1.
          destruct (faults (ser (link g))) as [|? [|? [|? ?]]]; reflexivity. }
      rewrite (Hline r Hr Hp2 Ha2), Htx, Htx1, <- app_assoc. reflexivity. }
  destruct resp as [|c resp];
    [wp_pure|eapply wp_mono; [apply wp_print|]; intros _ g3 ->; gui_simpl];
    apply Hfin.
Qed.


Lemma is_pawn_promotion_total g from_sq to_sq :
  exists r, _is_pawn_promotion from_sq to_sq g = (Ok r, g).
Proof.
  unfold _is_pawn_promotion. unfold_monad.
  destruct (piece_at (board g) from_sq) as [p|]; [|eauto].
  destruct (negb (bool_decide (piece_type p = PAWN))); eauto.
Qed.

(** A second click on the selected square, or on a square whose
    candidate move fails the legality test: the selection is dropped
    and nothing else happens. *)
Lemma wp_second_click_drop g rank file sel :
  clicks_accepted g ->
  selected_square g = Some sel ->
  square file rank = sel
  \/ (is_legal (board g) (mkMove sel (square file rank) None) = false
      /\ (_is_pawn_promotion sel (square file rank) g = (Ok false, g)
          \/ is_legal (board g) (mkMove sel (square file rank) (Some QUEEN))
             = false)) ->
  wp (on_square_clicked rank file) g (fun _ g' =>
    exists bs,
      g' = mkGUI (link g) (board g) (move_stack g) None ∅ ∅ bs
             (mode_var g) (rng g) (stdout g) (dialogs g)).
Proof.
  intros Hacc Hsel Hcase.
  destruct (guards_pass g Hacc) as [Hover Hguard].
  unfold on_square_clicked. wp_pure. rewrite Hover, Hguard, Hsel.
  apply (wp_bind (S:=ChessGUI Board)).
  destruct (decide (square file rank = sel)) as [He|Hne].
  - rewrite (bool_decide_eq_true_2 _ He). wp_pure.
    eapply wp_mono; [apply wp_clear_targets_eq|]. intros _ g1 ->.
    eapply wp_mono; [apply wp_update_board|]. intros _ g2 (bs & ->).
    gui_simpl. eauto.
  - rewrite (bool_decide_eq_false_2 _ Hne).
    destruct Hcase as [He|[Hplain Hq]]; [contradiction|].
    destruct (is_pawn_promotion_total g sel (square file rank)) as [r Hr].
    apply (wp_bind (S:=ChessGUI Board)).
    apply (wp_intro _ g g
             (if r then mkMove sel (square file rank) (Some QUEEN)
              else mkMove sel (square file rank) None)).
    { rewrite Hplain. cbn [negb]. unfold_monad. rewrite Hr. reflexivity. }
    assert (Hill : is_legal (board g)
                     (if r then mkMove sel (square file rank) (Some QUEEN)
                      else mkMove sel (square file rank) None) = false).
    { destruct r; [|exact Hplain].
      destruct Hq as [Hq|Hq]; [congruence|exact Hq]. }
    rewrite Hill. wp_pure.
    eapply wp_mono; [apply wp_clear_targets_eq|]. intros _ g1 ->.
    eapply wp_mono; [apply wp_update_board|]. intros _ g2 (bs & ->).
    gui_simpl. eauto.
Qed.

(** Every outcome of a click on a board button. *)
Lemma wp_click_cases g rank file :
  wp (on_square_clicked rank file) g (fun _ g' =>
    g' = g
    \/ (exists lt ct bs,
          ct ⊆ lt
          /\ g' = mkGUI (link g) (board g) (move_stack g)
                    (Some (square file rank)) lt ct bs (mode_var g)
                    (rng g) (stdout g) (dialogs g))
    \/ (exists l' b' ms' bs r' out d,
          g' = mkGUI l' b' ms' None ∅ ∅ bs (mode_var g) r' out d)).
Proof.
  destruct (is_game_over (board g)) eqn:Hover.
  { unfold on_square_clicked. wp_pure. rewrite Hover. wp_pure. auto. }
  destruct (bool_decide (mode_var g = pvc)
            && bool_decide (turn (board g) = BLACK)) eqn:Hguard.
  { unfold on_square_clicked. wp_pure. rewrite Hover, Hguard. wp_pure. auto. }
  assert (Hacc : clicks_accepted g).
  { split; [exact Hover|]. intros [Hm Ht].
    rewrite (bool_decide_eq_true_2 _ Hm), (bool_decide_eq_true_2 _ Ht) in Hguard.
    discriminate. }
  destruct (selected_square g) as [sel|] eqn:Hsel.
  - destruct (decide (square file rank = sel)) as [He|Hne].
    { eapply wp_mono; [apply (wp_second_click_drop g rank file sel); auto|].
      intros _ g' (bs & ->). right. right. eauto 10. }
    destruct (is_legal (board g) (mkMove sel (square file rank) None))
      eqn:Hplain.
    { eapply wp_mono;
        [apply (wp_second_click_move g rank file sel
                  (mkMove sel (square file rank) None)); auto|].
      intros _ g' (l' & out & d & bs & r' & rest & -> & _).
      right. right. eauto 10. }
    destruct (is_pawn_promotion_total g sel (square file rank)) as [[] Hr].
    2:{ eapply wp_mono; [apply (wp_second_click_drop g rank file sel); auto|].
        intros _ g' (bs & ->). right. right. eauto 10. }
    destruct (is_legal (board g)
                (mkMove sel (square file rank) (Some QUEEN))) eqn:Hq.
    + eapply wp_mono;
        [apply (wp_second_click_move g rank file sel
                  (mkMove sel (square file rank) (Some QUEEN))); auto|].
      intros _ g' (l' & out & d & bs & r' & rest & -> & _).
      right. right. eauto 10.
    + eapply wp_mono; [apply (wp_second_click_drop g rank file sel); auto|].
      intros _ g' (bs & ->). right. right. eauto 10.
  - destruct (piece_at (board g) (square file rank)) as [p|] eqn:Hp.
    2:{ unfold on_square_clicked. wp_pure.
        rewrite Hover, Hguard, Hsel, Hp. wp_pure. auto. }
    destruct (decide (color p = turn (board g))) as [Hc|Hc].
    + eapply wp_mono; [apply (wp_first_click g rank file p); auto|].
      intros [] g' H. right. left. exact H.
    + unfold on_square_clicked. wp_pure.
      rewrite Hover, Hguard, Hsel, Hp, (bool_decide_eq_false_2 _ Hc).
      cbn [negb]. wp_pure. auto.
Qed.


Lemma wp_build_ui g :
  wp _build_ui g (fun _ g' => exists bs, g' = set_buttons bs g).
Proof.
  unfold _build_ui.
  apply (wp_for_each_inv (fun g' => exists bs, g' = set_buttons bs g)).
  { exists (buttons g). destruct g; reflexivity. }
  intros rank_visual g1 H1.
  apply (wp_for_each_inv (fun g' => exists bs, g' = set_buttons bs g));
    [exact H1|].
  intros file_visual g2 (bs & ->). wp_pure. gui_simpl. eauto.
Qed.

Lemma new_gui_targets l draws :
  legal_targets (new_gui l draws) = ∅
  /\ capture_targets (new_gui l draws) = ∅
  /\ selected_square (new_gui l draws) = None.
Proof.
  unfold new_gui.
  match goal with |- context [snd (?m ?g0)] =>
    assert (H : wp m g0 (fun _ g' =>
      legal_targets g' = ∅ /\ capture_targets g' = ∅
      /\ selected_square g' = None))
  end.
  { wp_step wp_build_ui. intros _ g1 (bs & ->).
    wp_step wp_send_position. intros _ g2 (l' & out & -> & _).
    eapply wp_mono; [apply wp_update_board|]. intros _ g3 (bs' & ->).
    gui_simpl. auto. }
  apply wp_elim in H. destruct H as ([] & g' & -> & H). exact H.
Qed.

Lemma wp_reset_game g :
  wp reset_game g (fun _ g' =>
    legal_targets g' = ∅ /\ capture_targets g' = ∅
    /\ selected_square g' = None).
Proof.
  unfold reset_game. wp_pure.
  wp_step wp_clear_targets_eq. intros _ g0 ->.
  wp_step wp_send_position. intros _ g2 (l' & out & -> & _).
  eapply wp_mono; [apply wp_update_board|]. intros _ g3 (bs' & ->).
  gui_simpl. auto.
Qed.

(** No handler raises: every event leaves the window in a state. *)
Lemma wp_handle_subset e g :
  capture_targets g ⊆ legal_targets g ->
  wp (handle e) g (fun _ g' => capture_targets g' ⊆ legal_targets g').
Proof.
  intros Hg. destruct e as [rank file| |m]; cbn [handle].
  - eapply wp_mono; [apply wp_click_cases|]. intros [] g'.
    intros [->|[(lt & ct & bs & Hsub & ->)
               |(l' & b' & ms' & bs & r' & out & d & ->)]]; gui_simpl.
    + exact Hg.
    + exact Hsub.
    + reflexivity.
  - eapply wp_mono; [apply wp_reset_game|]. intros _ g' (-> & -> & _).
    reflexivity.
  - wp_pure. gui_simpl. exact Hg.
Qed.

(** C10. When the game is over, or in "pvc" mode with black (the
    machine) to move, a click on any square changes nothing at all:
    board, selection, both target sets and the serial link stay as
    they were. *)
Theorem click_ignored_when_over_or_machine_to_move g rank file :
  is_game_over (board g) = true
  \/ (mode_var g = pvc /\ turn (board g) = BLACK) ->
  on_square_clicked rank file g = (Ok tt, g).
Proof.
  intros H. unfold on_square_clicked. unfold_monad.
  destruct (is_game_over (board g)) eqn:Hover; [reflexivity|].
  destruct H as [H|[Hm Ht]]; [discriminate|].
  rewrite (bool_decide_eq_true_2 _ Hm), (bool_decide_eq_true_2 _ Ht).
  reflexivity.
Qed.

(** C5. With nothing selected, a click on an empty square or on a
    piece of the side not to move changes nothing: no selection is
    made, the board stays and nothing is sent. *)
Theorem idle_click_off_own_piece_is_noop g rank file :
  selected_square g = None ->
  piece_at (board g) (square file rank) = None
  \/ (exists p, piece_at (board g) (square file rank) = Some p
                /\ color p <> turn (board g)) ->
  on_square_clicked rank file g = (Ok tt, g).
Proof.
  intros Hsel Hp. unfold on_square_clicked. unfold_monad.
  destruct (is_game_over (board g)); [reflexivity|].
  destruct (bool_decide (mode_var g = pvc)
            && bool_decide (turn (board g) = BLACK)); [reflexivity|].
  rewrite Hsel. destruct Hp as [->|(p & -> & Hc)]; [reflexivity|].
  rewrite (bool_decide_eq_false_2 _ Hc). reflexivity.
Qed.

(** C6 (amended). When clicks are let through (the game is not over
    and it is not the machine's turn in "pvc" mode), a click on the
    selected square deselects: selection and both target sets are
    cleared; board, move stack and serial link are untouched. *)
Theorem reclick_deselects g rank file :
  clicks_accepted g ->
  selected_square g = Some (square file rank) ->
  exists bs,
    on_square_clicked rank file g =
    (Ok tt, mkGUI (link g) (board g) (move_stack g) None ∅ ∅ bs
              (mode_var g) (rng g) (stdout g) (dialogs g)).
Proof.
  intros Hacc Hsel.
  destruct (wp_elim _ _ _
              (wp_second_click_drop g rank file _ Hacc Hsel
                 (or_introl eq_refl)))
    as ([] & g' & Hrun & bs & ->).
  eauto.
Qed.

(** C3 (amended). When clicks are let through, a click on a square
    that is not the selected one and whose plain and queen-promotion
    moves from the selected square both fail the legality test drops
    the selection without applying a move: the board and the serial
    link are untouched and nothing is raised. *)
Theorem illegal_target_drops_selection g rank file sel :
  clicks_accepted g ->
  selected_square g = Some sel ->
  square file rank <> sel ->
  is_legal (board g) (mkMove sel (square file rank) None) = false ->
  is_legal (board g) (mkMove sel (square file rank) (Some QUEEN)) = false ->
  exists bs,
    on_square_clicked rank file g =
    (Ok tt, mkGUI (link g) (board g) (move_stack g) None ∅ ∅ bs
              (mode_var g) (rng g) (stdout g) (dialogs g)).
Proof.
  intros Hacc Hsel Hne Hplain Hqueen.
  destruct (wp_elim _ _ _
              (wp_second_click_drop g rank file _ Hacc Hsel
                 (or_intror (conj Hplain (or_intror Hqueen)))))
    as ([] & g' & Hrun & bs & ->).
  eauto.
Qed.

(** C4 (amended). When clicks are let through and the selected square
    holds a pawn, a click on a square of the pawn's last rank (rank 7
    for white, rank 0 for black) whose plain move fails the legality
    test is retried as the queen promotion; if that passes the test it
    is the move pushed on the board (in "pvc" mode the machine's reply
    may follow it). *)
Theorem pawn_on_last_rank_promotes_to_queen g rank file sel p :
  clicks_accepted g ->
  selected_square g = Some sel ->
  square file rank <> sel ->
  piece_at (board g) sel = Some p ->
  piece_type p = PAWN ->
  (color p = WHITE /\ square_rank (square file rank) = 7)
  \/ (color p = BLACK /\ square_rank (square file rank) = 0) ->
  is_legal (board g) (mkMove sel (square file rank) None) = false ->
  is_legal (board g) (mkMove sel (square file rank) (Some QUEEN)) = true ->
  exists g' rest,
    on_square_clicked rank file g = (Ok tt, g')
    /\ move_stack g' =
       move_stack g ++ mkMove sel (square file rank) (Some QUEEN) :: rest
    /\ board g' =
       fold_left push rest
         (push (board g) (mkMove sel (square file rank) (Some QUEEN)))
    /\ selected_square g' = None
    /\ (rest = []
        \/ (mode_var g = pvc
            /\ exists m, rest = [m]
                 /\ In m (legal_moves
                            (push (board g)
                               (mkMove sel (square file rank) (Some QUEEN)))))).
Proof.
  intros Hacc Hsel Hne Hp Hpawn Hrank Hplain Hqueen.
  pose proof (is_pawn_promotion_true g sel _ p Hp Hpawn Hrank) as Hpromo.
  destruct (wp_elim _ _ _
              (wp_second_click_move g rank file sel _ Hacc Hsel Hne
                 (or_intror (conj Hplain (conj Hpromo (conj eq_refl Hqueen))))))
    as ([] & g' & Hrun & l' & out & d & bs & r' & rest & -> & Hrest & _).
  eexists. exists rest. split; [exact Hrun|]. gui_simpl.
  do 3 (split; [reflexivity|]).
  destruct Hrest as [->|(Hm & _ & m & -> & Hin)]; [left|right]; eauto.
Qed.


(** C1 (amended). With nothing selected and clicks let through, for a
    move that the position enumerates as legal and that is no
    under-promotion: the click on its origin selects it and the click on
    its destination pushes exactly that move (for a pawn reaching the
    last rank, its queen promotion) and drops the selection.  When the
    machine does not answer (two-player mode, the game over after the
    move, or no move for the machine) the board is the one after the
    move, and with a port that takes the write one line has gone out,
    the FEN of the new position.  When it answers, its reply, the
    enumerated move its generator draws, is pushed as well, and with a
    port that takes the writes two lines have gone out: the FEN after
    the move, then the FEN after the reply. *)
Theorem two_clicks_apply_the_move g m :
  selected_square g = None ->
  clicks_accepted g ->
  In m (legal_moves (board g)) ->
  enumeration_sound (board g) ->
  promotion m = None \/ promotion m = Some QUEEN ->
  exists g1 g2,
    on_square_clicked (square_rank (from_square m))
      (square_file (from_square m)) g
    = (Ok tt, g1)
    /\ selected_square g1 = Some (from_square m)
    /\ on_square_clicked (square_rank (to_square m))
         (square_file (to_square m)) g1
       = (Ok tt, g2)
    /\ selected_square g2 = None
    /\ match machine_reply g (push (board g) m) with
       | None =>
           board g2 = push (board g) m
           /\ move_stack g2 = move_stack g ++ [m]
           /\ (Forall printable (fen (push (board g) m)) ->
               accepts 2 (ser (link g)) = true ->
               tx (ser (link g2)) =
               tx (ser (link g)) ++ [fen (push (board g) m) ++ [NEWLINE]])
       | Some reply =>
           In reply (legal_moves (push (board g) m))
           /\ board g2 = push (push (board g) m) reply
           /\ move_stack g2 = move_stack g ++ [m; reply]
           /\ (Forall printable (fen (push (board g) m)) ->
               Forall printable (fen (push (push (board g) m) reply)) ->
               accepts 5 (ser (link g)) = true ->
               tx (ser (link g2)) =
               tx (ser (link g))
               ++ [fen (push (board g) m) ++ [NEWLINE];
                   fen (push (push (board g) m) reply) ++ [NEWLINE]])
       end.
Proof.
  intros Hsel Hacc Hin Hsound Hpromo.
  destruct (Hsound _ Hin)
    as (Hlegal & (p & Hp & Hc) & Hne & _ & _ & Hpawn).
  destruct m as [from_sq to_sq promo].
  cbn [from_square to_square promotion] in *.
  pose proof (wp_first_click g (square_rank from_sq) (square_file from_sq) p
                Hacc Hsel) as H1.
  rewrite square_of_file_rank in H1. specialize (H1 Hp Hc).
  apply wp_elim in H1.
  destruct H1 as ([] & g1 & Hrun1 & lt & ct & bs & _ & ->).
  set (s1 := mkGUI (link g) (board g) (move_stack g) (Some from_sq)
               lt ct bs (mode_var g) (rng g) (stdout g) (dialogs g)).
  assert (Hmove :
    (mkMove from_sq to_sq promo = mkMove from_sq to_sq None
     /\ is_legal (board g) (mkMove from_sq to_sq promo) = true)
    \/ (is_legal (board g) (mkMove from_sq to_sq None) = false
        /\ _is_pawn_promotion from_sq to_sq s1 = (Ok true, s1)
        /\ mkMove from_sq to_sq promo = mkMove from_sq to_sq (Some QUEEN)
        /\ is_legal (board g) (mkMove from_sq to_sq promo) = true)).
  { destruct Hpromo as [->| ->]; [left; auto|right].
    destruct Hpawn as (Hplain & q & Hq & Hqt & Hrank); [discriminate|].
    split; [exact Hplain|]. split; [|auto].
    apply (is_pawn_promotion_true s1 from_sq to_sq q); assumption. }
  pose proof (wp_second_click_move s1 (square_rank to_sq) (square_file to_sq)
                from_sq (mkMove from_sq to_sq promo)) as H2.
  rewrite square_of_file_rank in H2. subst s1. gui_simpl.
  specialize (H2 Hacc eq_refl (not_eq_sym Hne) Hmove).
  apply wp_elim in H2.
  destruct H2 as ([] & g2 & Hrun2 & l' & out & d & bs' & r' & rest & ->
                  & Hrest & _ & Htx1 & Hreply & Htx2).
  exists (mkGUI (link g) (board g) (move_stack g) (Some from_sq)
            lt ct bs (mode_var g) (rng g) (stdout g) (dialogs g)).
  eexists. split; [exact Hrun1|]. split; [reflexivity|].
  split; [exact Hrun2|]. gui_simpl. split; [reflexivity|].
  unfold machine_reply in *. gui_simpl.
  destruct (if bool_decide (mode_var g = pvc)
               && negb (is_game_over
                          (push (board g) (mkMove from_sq to_sq promo)))
            then _ else None) as [reply|]; subst rest.
  - destruct Hrest as [Hr|(_ & _ & m & [= <-] & Hm)]; [discriminate|].
    split; [exact Hm|]. do 2 (split; [reflexivity|]).
    intros Hp1 Hp2 Ha. apply (Htx2 reply); auto.
  - do 2 (split; [reflexivity|]). intros Hp1 Ha. apply Htx1; auto.
Qed.

(** C2. In every state the window can reach, the capture targets are
    a subset of the legal targets; in particular after every
    selection. *)
Theorem capture_targets_within_legal_targets g :
  reachable g -> capture_targets g ⊆ legal_targets g.
Proof.
  induction 1 as [l draws|g e Hg IH He].
  - destruct (new_gui_targets l draws) as (-> & -> & _). reflexivity.
  - unfold after. pose proof (wp_handle_subset e g IH) as H.
    apply wp_elim in H. destruct H as ([] & g' & -> & H). exact H.
Qed.

(** C9 (amended). The machine's turn never raises.  When the game is
    not over it pushes a move of the position's legal-move enumeration:
    the one at the index the generator draws, so that each draw below
    the length of the enumeration selects the move at that index (a
    uniform draw gives a uniform choice).  When the game is over, or
    the enumeration is empty, no move is made and nothing changes. *)
Theorem machine_plays_a_drawn_legal_move g :
  exists g',
    _make_computer_move g = (Ok tt, g')
    /\ (if is_game_over (board g) then g' = g
        else match legal_moves (board g) with
             | [] => g' = g
             | _ :: _ =>
                 exists m,
                   drawn_move g = Some m
                   /\ In m (legal_moves (board g))
                   /\ board g' = push (board g) m
                   /\ move_stack g' = move_stack g ++ [m]
             end)
    /\ (forall (i : nat) (r : list nat),
          (i < length (legal_moves (board g)))%nat ->
          drawn_move (set_rng (i :: r) g) = legal_moves (board g) !! i).
Proof.
  pose proof (wp_make_computer_move g) as H.
  apply wp_elim in H. destruct H as ([] & g' & Hrun & H).
  exists g'. split; [exact Hrun|]. split.
  - destruct (is_game_over (board g)); [exact H|].
    destruct (legal_moves (board g)) as [|m0 ms] eqn:El.
    + unfold drawn_move in H. rewrite El in H. exact H.
    + destruct (drawn_move_some g) as [m Hm]; [congruence|].
      rewrite Hm in H. destruct H as (l' & out & d & -> & _).
      exists m. gui_simpl. rewrite <- El.
      split; [exact Hm|]. split; [apply drawn_move_legal, Hm|]. auto.
  - intros i r Hi. unfold drawn_move. gui_simpl. cbn [hd].
    rewrite Nat.mod_small by exact Hi. reflexivity.
Qed.

End GUI_facts.

(** ** The scripted positions *)

Import Script.

Lemma sound_by_check (p : Position) :
  forallb (fun m =>
    is_legal p m
    && match piece_at p (from_square m) with
       | Some q => bool_decide (color q = turn p)
       | None => false
       end
    && negb (from_square m =? to_square m)
    && in_range 0 63 (from_square m)
    && in_range 0 63 (to_square m)
    && match promotion m with
       | None => true
       | Some _ =>
           negb (is_legal p (mkMove (from_square m) (to_square m) None))
           && match piece_at p (from_square m) with
              | Some q =>
                  bool_decide (piece_type q = PAWN)
                  && ((bool_decide (color q = WHITE)
                       && (square_rank (to_square m) =? 7))
                      || (bool_decide (color q = BLACK)
                          && (square_rank (to_square m) =? 0)))
              | None => false
              end
       end) (legal_moves p) = true ->
  enumeration_sound p.
Proof.
  intros H m Hm. rewrite forallb_forall in H. specialize (H m Hm).
  apply andb_prop in H as [H Hpromo]. apply andb_prop in H as [H Hto].
  apply andb_prop in H as [H Hfrom]. apply andb_prop in H as [H Hne].
  apply andb_prop in H as [Hl Hp].
  unfold in_range in Hfrom, Hto.
  split; [exact Hl|]. split; [|split; [|split; [lia|split; [lia|]]]].
  - destruct (piece_at p (from_square m)) as [q|]; [|discriminate].
    exists q. split; [reflexivity|]. exact (bool_decide_eq_true_1 _ Hp).
  - apply negb_true_iff, Z.eqb_neq in Hne. exact Hne.
  - intros Hsome. destruct (promotion m); [|congruence].
    apply andb_prop in Hpromo as [Hplain Hq].
    split; [apply negb_true_iff, Hplain|].
    destruct (piece_at p (from_square m)) as [q|]; [|discriminate].
    exists q. split; [reflexivity|].
    apply andb_prop in Hq as [Hpawn Hrank].
    split; [exact (bool_decide_eq_true_1 _ Hpawn)|].
    apply orb_prop in Hrank as [Hr|Hr]; apply andb_prop in Hr as [Hc Hr];
      [left|right];
      (split; [exact (bool_decide_eq_true_1 _ Hc)|apply Z.eqb_eq, Hr]).
Qed.

Lemma printable_by_check (s : str) :
  forallb (fun c => (32 <=? c) && (c <? 127)) s = true -> Forall printable s.
Proof.
  intros H. apply Forall_forall. intros c Hc.
  rewrite forallb_forall in H. apply list_elem_of_In, H in Hc.
  apply andb_prop in Hc as [H1 H2]. unfold printable. lia.
Qed.

Lemma accepted_by_check `{ChessRules Board} (g : ChessGUI Board) :
  is_game_over (board g) = false ->
  bool_decide (mode_var g = pvc) && bool_decide (turn (board g) = BLACK)
  = false ->
  clicks_accepted g.
Proof.
  intros Hover Hguard. split; [exact Hover|]. intros [Hm Ht].
  rewrite (bool_decide_eq_true_2 _ Hm), (bool_decide_eq_true_2 _ Ht) in Hguard.
  discriminate.
Qed.

Lemma e7_selected_then_pvc_reachable : reachable e7_selected_then_pvc.
Proof.
  unfold e7_selected_then_pvc.
  apply (reachable_after _ (SelectMode pvc)); [|exact I].
  apply (reachable_after _ (Click 6 4)); [|cbn [event_ok]; lia].
  apply (reachable_after _ (Click 3 4)); [|cbn [event_ok]; lia].
  apply (reachable_after _ (Click 1 4)); [|cbn [event_ok]; lia].
  exact (reachable_new the_link [0%nat]).
Qed.

(** The scenario of the design: from the start position, e2 is
    selected, its targets are e3 and e4, none a capture; the click on e4
    plays the move and the encoder's line for the new position goes out. *)
Example scenario_e2_e4 :
  let g1 := after (Click 1 4) opening in
  let g2 := after (Click 3 4) g1 in
  selected_square g1 = Some (parse_square "e2")
  /\ legal_targets g1 = {[parse_square "e3"; parse_square "e4"]}
  /\ capture_targets g1 = ∅
  /\ turn (board g2) = BLACK
  /\ last (tx (ser (link g2))) =
     Some (lit "rnbqkbnr/pppppppp/8/8/4P3/8/PPPP1PPP/RNBQKBNR b KQkq - 0 1"
           ++ [NEWLINE]).
Proof. vm_compute. repeat split; reflexivity. Qed.

(** ** Instances of the theorems, and where the stated claims fail *)


Lemma click_ignored_witness :
  on_square_clicked 4 4 drawn_game = (Ok tt, drawn_game).
Proof.
  apply (click_ignored_when_over_or_machine_to_move drawn_game 4 4).
  left. vm_compute. reflexivity.
Defined.

Lemma idle_click_witness :
  on_square_clicked 3 4 opening = (Ok tt, opening).
Proof.
  apply (idle_click_off_own_piece_is_noop opening 3 4).
  - vm_compute. reflexivity.
  - left. vm_compute. reflexivity.
Defined.

Lemma reclick_deselects_witness :
  exists bs,
    on_square_clicked 1 4 e2_selected =
    (Ok tt, mkGUI (link e2_selected) (board e2_selected)
              (move_stack e2_selected) None ∅ ∅ bs (mode_var e2_selected)
              (rng e2_selected) (stdout e2_selected) (dialogs e2_selected)).
Proof.
  apply (reclick_deselects e2_selected 1 4).
  - apply accepted_by_check; vm_compute; reflexivity.
  - vm_compute. reflexivity.
Defined.

Lemma illegal_target_witness :
  exists bs,
    on_square_clicked 4 0 e2_selected =
    (Ok tt, mkGUI (link e2_selected) (board e2_selected)
              (move_stack e2_selected) None ∅ ∅ bs (mode_var e2_selected)
              (rng e2_selected) (stdout e2_selected) (dialogs e2_selected)).
Proof.
  apply (illegal_target_drops_selection e2_selected 4 0 (parse_square "e2")).
  - apply accepted_by_check; vm_compute; reflexivity.
  - vm_compute. reflexivity.
  - vm_compute. discriminate.
  - vm_compute. reflexivity.
  - vm_compute. reflexivity.
Defined.

Lemma pawn_promotes_witness :
  exists g' rest,
    on_square_clicked 7 0 a7_selected = (Ok tt, g')
    /\ move_stack g' =
       move_stack a7_selected
       ++ mkMove (parse_square "a7") (square 0 7) (Some QUEEN) :: rest
    /\ board g' =
       fold_left push rest
         (push (board a7_selected)
            (mkMove (parse_square "a7") (square 0 7) (Some QUEEN)))
    /\ selected_square g' = None
    /\ (rest = []
        \/ (mode_var a7_selected = pvc
            /\ exists m, rest = [m]
                 /\ In m (legal_moves
                            (push (board a7_selected)
                               (mkMove (parse_square "a7") (square 0 7)
                                  (Some QUEEN)))))).
Proof.
  apply (pawn_on_last_rank_promotes_to_queen a7_selected 7 0
           (parse_square "a7") (mkPiece PAWN WHITE)).
  - apply accepted_by_check; vm_compute; reflexivity.
  - vm_compute. reflexivity.
  - vm_compute. discriminate.
  - vm_compute. reflexivity.
  - reflexivity.
  - left. split; vm_compute; reflexivity.
  - vm_compute. reflexivity.
  - vm_compute. reflexivity.
Defined.

Lemma two_clicks_witness :
  exists g1 g2,
    on_square_clicked (square_rank (from_square (mkMove 12 28 None)))
      (square_file (from_square (mkMove 12 28 None))) opening
    = (Ok tt, g1)
    /\ selected_square g1 = Some (from_square (mkMove 12 28 None))
    /\ on_square_clicked (square_rank (to_square (mkMove 12 28 None)))
         (square_file (to_square (mkMove 12 28 None))) g1
       = (Ok tt, g2)
    /\ selected_square g2 = None
    /\ match machine_reply opening (push (board opening) (mkMove 12 28 None))
       with
       | None =>
           board g2 = push (board opening) (mkMove 12 28 None)
           /\ move_stack g2 = move_stack opening ++ [mkMove 12 28 None]
           /\ (Forall printable
                 (fen (push (board opening) (mkMove 12 28 None))) ->
               accepts 2 (ser (link opening)) = true ->
               tx (ser (link g2)) =
               tx (ser (link opening))
               ++ [fen (push (board opening) (mkMove 12 28 None))
                   ++ [NEWLINE]])
       | Some reply =>
           In reply (legal_moves (push (board opening) (mkMove 12 28 None)))
           /\ board g2 =
              push (push (board opening) (mkMove 12 28 None)) reply
           /\ move_stack g2 =
              move_stack opening ++ [mkMove 12 28 None; reply]
           /\ (Forall printable
                 (fen (push (board opening) (mkMove 12 28 None))) ->
               Forall printable
                 (fen (push (push (board opening) (mkMove 12 28 None))
                         reply)) ->
               accepts 5 (ser (link opening)) = true ->
               tx (ser (link g2)) =
               tx (ser (link opening))
               ++ [fen (push (board opening) (mkMove 12 28 None))
                   ++ [NEWLINE];
                   fen (push (push (board opening) (mkMove 12 28 None))
                          reply) ++ [NEWLINE]])
       end.
Proof.
  apply (two_clicks_apply_the_move opening (mkMove 12 28 None)).
  - vm_compute. reflexivity.
  - apply accepted_by_check; vm_compute; reflexivity.
  - vm_compute. tauto.
  - apply sound_by_check. vm_compute. reflexivity.
  - left. reflexivity.
Defined.

Lemma capture_targets_witness :
  capture_targets e2_selected ⊆ legal_targets e2_selected.
Proof.
  apply (capture_targets_within_legal_targets e2_selected).
  apply (reachable_after _ (Click 1 4)); [|cbn [event_ok]; lia].
  exact (reachable_new the_link [0%nat]).
Defined.

(** C1 as stated fails in "pvc" mode: after e2 and e4 are clicked in
    the opening position, the machine has answered (here with g8-h6), so
    the board is not the one after e2-e4 and two lines have gone out.
    It also fails for an under-promotion: a7-a8=R is enumerated, but the
    clicks on a7 and a8 promote to a queen. *)
Lemma two_clicks_counterexample :
  (let g := opening_vs_machine in
   let g2 := after (Click 3 4) (after (Click 1 4) g) in
   selected_square g = None
   /\ In (uci "e2e4") (legal_moves (board g))
   /\ board g2 <> push (board g) (uci "e2e4")
   /\ move_stack g2 = [uci "e2e4"; uci "g8h6"]
   /\ tx (ser (link g2)) =
      tx (ser (link g))
      ++ [lit "rnbqkbnr/pppppppp/8/8/4P3/8/PPPP1PPP/RNBQKBNR b KQkq - 0 1"
          ++ [NEWLINE];
          lit "rnbqkb1r/pppppppp/7n/8/4P3/8/PPPP1PPP/RNBQKBNR w KQkq - 1 2"
          ++ [NEWLINE]])
  /\ (let h := window_on white_promotes pvp [] in
      let h2 := after (Click 7 0) (after (Click 6 0) h) in
      selected_square h = None
      /\ In (uci "a7a8r") (legal_moves (board h))
      /\ from_square (uci "a7a8r") = square 0 6
      /\ to_square (uci "a7a8r") = square 0 7
      /\ move_stack h2 = [uci "a7a8q"]
      /\ board h2 <> push (board h) (uci "a7a8r")).
Proof.
  cbv zeta. split.
  - split; [vm_compute; reflexivity|].
    split; [vm_compute; tauto|].
    split.
    + intros H. apply (f_equal (fun p => length (p_moves p))) in H.
      vm_compute in H. discriminate.
    + vm_compute. split; reflexivity.
  - split; [vm_compute; reflexivity|].
    split; [vm_compute; tauto|].
    do 3 (split; [vm_compute; reflexivity|]).
    intros H. apply (f_equal p_fen) in H. vm_compute in H. discriminate.
Qed.

(** C3 as stated fails in a state the window reaches: with the pawn on
    e7 selected and the mode then switched to "pvc" (black to move), a
    click on a3, to which no move from e7 goes, is ignored and the
    selection stays. *)
Lemma illegal_target_counterexample :
  let g := e7_selected_then_pvc in
  reachable g
  /\ selected_square g = Some (parse_square "e7")
  /\ square 0 2 = parse_square "a3"
  /\ Forall (fun m => ~ (from_square m = parse_square "e7"
                         /\ to_square m = parse_square "a3"))
       (legal_moves (board g))
  /\ is_legal (board g) (mkMove (parse_square "e7") (square 0 2) None) = false
  /\ is_legal (board g) (mkMove (parse_square "e7") (square 0 2) (Some QUEEN))
     = false
  /\ selected_square (after (Click 2 0) g) = Some (parse_square "e7").
Proof.
  cbv zeta. split; [apply e7_selected_then_pvc_reachable|].
  split; [vm_compute; reflexivity|]. split; [reflexivity|].
  split.
  - apply Forall_forall. intros m Hm. apply list_elem_of_In in Hm.
    vm_compute in Hm. intros [Hf Ht].
    repeat (destruct Hm as [<-|Hm]; [vm_compute in Hf, Ht; congruence|]).
    exact Hm.
  - vm_compute. repeat split; reflexivity.
Qed.

(** C6 as stated fails in the same state: the click on the selected
    square e7 is ignored and e7 stays selected. *)
Lemma reclick_counterexample :
  let g := e7_selected_then_pvc in
  reachable g
  /\ selected_square g = Some (square 4 6)
  /\ after (Click 6 4) g = g
  /\ selected_square (after (Click 6 4) g) <> None.
Proof.
  cbv zeta. split; [apply e7_selected_then_pvc_reachable|].
  split; [vm_compute; reflexivity|].
  split; vm_compute; [reflexivity|discriminate].
Qed.

(** C4 as stated fails when the click is not let through: the black
    pawn on a2 is selected, the mode is "pvc" and black is to move; the
    click on a1, where only the promotion is legal, applies nothing. *)
Lemma pawn_promotes_counterexample :
  let g := a2_selected_then_pvc in
  selected_square g = Some (parse_square "a2")
  /\ piece_at (board g) (parse_square "a2") = Some (mkPiece PAWN BLACK)
  /\ turn (board g) = BLACK
  /\ square_rank (square 0 0) = 0
  /\ is_legal (board g) (mkMove (parse_square "a2") (square 0 0) None) = false
  /\ is_legal (board g) (mkMove (parse_square "a2") (square 0 0) (Some QUEEN))
     = true
  /\ board (after (Click 0 0) g) = board g
  /\ move_stack (after (Click 0 0) g) = [].
Proof. vm_compute. repeat split; reflexivity. Qed.

(** C9 as stated fails on a position whose game is over although legal
    moves remain (king against king): the machine's turn makes no
    move. *)
Lemma machine_move_counterexample :
  legal_moves (board drawn_game) <> []
  /\ length (legal_moves (board drawn_game)) = 8%nat
  /\ _make_computer_move drawn_game = (Ok tt, drawn_game)
  /\ move_stack drawn_game = [].
Proof.
  split; [vm_compute; discriminate|].
  split; [vm_compute; reflexivity|].
  split; [|reflexivity].
  unfold _make_computer_move. unfold_monad. reflexivity.
Qed.

(** * Further properties of the code *)

(** ** The serial transport: failures *)


(** X2. [close()] never raises and writes nothing; once the port is
    closed, [read_line()] answers the empty string while [send_line]
    raises without writing. *)
Theorem close_swallows_and_shuts (l : ArduinoLink) :
  exists l',
    ArduinoLink_.close l = (Ok tt, l')
    /\ tx (ser l') = tx (ser l)
    /\ (head (faults (ser l)) <> Some true -> is_open (ser l') = false)
    /\ (is_open (ser l') = false ->
        (exists l2, ArduinoLink_.read_line l' = (Ok [], l2))
        /\ forall text, exists e l2,
             ArduinoLink_.send_line text l' = (Raise e, l2)
             /\ tx (ser l2) = tx (ser l)).
Proof.
  unfold ArduinoLink_.close, on_ser, ser_close. unfold_monad.
  destruct l as [p b t w s sl]; destruct s as [o tx0 f rx0 fs].
  assert (Hdead : forall l1 : ArduinoLink,
    is_open (ser l1) = false ->
    (exists l2, ArduinoLink_.read_line l1 = (Ok [], l2))
    /\ forall text, exists e l2,
         ArduinoLink_.send_line text l1 = (Raise e, l2)
         /\ tx (ser l2) = tx (ser l1)).
  { intros l1 Hc. split.
    - unfold ArduinoLink_.read_line, on_ser, ser_readline, port_op.
      unfold_monad. rewrite Hc. cbn. eauto.
    - intros text.
      unfold ArduinoLink_.send_line, ArduinoLink_.encode, on_ser, ser_write,
        port_op.
      unfold_monad.
      destruct (utf8_encode _) as [data|]; [|eauto].
      rewrite Hc. cbn. eauto. }
  cbn. destruct fs as [|[] fs]; cbn; eexists; (split; [reflexivity|]);
    (split; [reflexivity|]);
    (split; [intros Hf; first [reflexivity | contradiction Hf; reflexivity]|]);
    intros Hc; apply (Hdead _ Hc).
Qed.

(** X3. [__post_init__] never raises, whatever the port does: it
    sleeps two seconds once, swallows a failing input flush and writes
    nothing. *)
Theorem post_init_never_raises (l : ArduinoLink) :
  exists l',
    ArduinoLink_.post_init l = (Ok tt, l')
    /\ slept l' = slept l ++ [2 # 1]
    /\ tx (ser l') = tx (ser l)
    /\ rx (ser l') = rx (ser l).
Proof.
  unfold ArduinoLink_.post_init, ArduinoLink_.flush_input, on_ser,
    ser_reset_input_buffer, port_op, time_sleep. unfold_monad.
  destruct l as [p b t w s sl]; destruct s as [o tx0 f rx0 fs]; cbn.
  destruct o; cbn; [|eauto].
  destruct fs as [|[] fs]; cbn; eauto.
Qed.

(** ** The window: what it shows and what it keeps *)

Tactic Notation "wp_call" uconstr(lem) :=
  apply wp_bind; eapply wp_mono; [eapply lem|]; cbv beta.
Tactic Notation "wp_last" uconstr(lem) :=
  eapply wp_mono; [eapply lem|]; cbv beta.

Section GUI_more.

Context {Board : Type} `{Rules : ChessRules Board}.
Implicit Types g : ChessGUI Board.

Lemma square_key_inj (a b : Square) :
  (square_rank a, square_file a) = (square_rank b, square_file b) -> a = b.
Proof.
  intros [= Hr Hf].
  rewrite <- (square_of_file_rank a), <- (square_of_file_rank b).
  congruence.
Qed.

Lemma wp_update_board_paints g :
  wp update_board g (fun _ g' =>
    exists bs, g' = set_buttons bs g
      /\ forall sq, sq ∈ SQUARES -> painted g bs sq).
Proof.
  unfold update_board. generalize SQUARES. intros l.
  match goal with |- wp (for_each _ ?body) _ _ => set (paint := body) end.
  assert (H : forall bs0, wp (for_each l paint) (set_buttons bs0 g)
    (fun _ g' => exists bs, g' = set_buttons bs g
       /\ (forall sq, sq ∈ l -> painted g bs sq)
       /\ (forall sq, sq ∉ l ->
             bs !! (square_rank sq, square_file sq)
             = bs0 !! (square_rank sq, square_file sq)))).
  { induction l as [|sq l IH]; intros bs0.
    - apply wp_ret. exists bs0. split; [reflexivity|].
      split; [intros sq Hsq; inversion Hsq|auto].
    - cbn [for_each]. apply (wp_bind (S:=ChessGUI Board)).
      unfold paint at 1. wp_pure. gui_simpl.
      eapply wp_mono; [apply IH|]. intros [] g' (bs & -> & Hin & Hout).
      exists bs. split; [reflexivity|]. split.
      + intros sq' Hsq'. destruct (decide (sq' ∈ l)) as [Hl|Hl]; [auto|].
        apply elem_of_cons in Hsq' as [->|Hsq']; [|contradiction].
        unfold painted. rewrite (Hout sq Hl), lookup_insert_eq. reflexivity.
      + intros sq' Hsq'. apply not_elem_of_cons in Hsq' as [Hne Hl].
        rewrite (Hout sq' Hl), lookup_insert_ne; [reflexivity|].
        intros Hk. apply square_key_inj in Hk. congruence. }
  destruct g. eapply wp_mono; [apply (H _)|].
  intros [] g' (bs & -> & Hin & _). eauto.
Qed.

Lemma targets_among_step (b : Board) (ms : list Move) (sel : Square)
    (lt ct : gset Z) (m : Move) :
  targets_among b ms sel lt ct ->
  targets_among b (ms ++ [m]) sel
    (if bool_decide (from_square m = sel) then {[to_square m]} ∪ lt else lt)
    (if bool_decide (from_square m = sel) && is_capture b m
     then {[to_square m]} ∪ ct else ct).
Proof.
  intros [Hlt Hct]. split; intros x.
  - destruct (decide (from_square m = sel)) as [Hf|Hf].
    + rewrite (bool_decide_eq_true_2 _ Hf), elem_of_union, elem_of_singleton, Hlt.
      split.
      * intros [->|(m' & Hin & H)].
        -- exists m. rewrite in_app_iff. cbn. auto.
        -- exists m'. rewrite in_app_iff. auto.
      * intros (m' & Hin & Hs & Ht). apply in_app_iff in Hin as [Hin|[<-|[]]].
        -- right. eauto.
        -- left. auto.
    + rewrite (bool_decide_eq_false_2 _ Hf), Hlt. split.
      * intros (m' & Hin & H). exists m'. rewrite in_app_iff. auto.
      * intros (m' & Hin & Hs & Ht). apply in_app_iff in Hin as [Hin|[<-|[]]].
        -- eauto.
        -- contradiction.
  - destruct (decide (from_square m = sel)) as [Hf|Hf].
    + rewrite (bool_decide_eq_true_2 _ Hf). cbn [andb].
      destruct (is_capture b m) eqn:Hcap.
      * rewrite elem_of_union, elem_of_singleton, Hct. split.
        -- intros [->|(m' & Hin & H)].
           ++ exists m. rewrite in_app_iff. cbn. auto.
           ++ exists m'. rewrite in_app_iff. auto.
        -- intros (m' & Hin & Hs & Ht & Hc).
           apply in_app_iff in Hin as [Hin|[<-|[]]].
           ++ right. eauto.
           ++ left. auto.
      * rewrite Hct. split.
        -- intros (m' & Hin & H). exists m'. rewrite in_app_iff. auto.
        -- intros (m' & Hin & Hs & Ht & Hc).
           apply in_app_iff in Hin as [Hin|[<-|[]]].
           ++ eauto.
           ++ congruence.
    + rewrite (bool_decide_eq_false_2 _ Hf). cbn [andb]. rewrite Hct. split.
      * intros (m' & Hin & H). exists m'. rewrite in_app_iff. auto.
      * intros (m' & Hin & Hs & Ht & Hc).
        apply in_app_iff in Hin as [Hin|[<-|[]]].
        -- eauto.
        -- contradiction.
Qed.

Lemma wp_compute_targets_exact g :
  wp _compute_targets_for_selected g (fun _ g' =>
    exists lt ct,
      g' = set_capture_targets ct (set_legal_targets lt g)
      /\ match selected_square g with
         | None => lt = ∅ /\ ct = ∅
         | Some sel => targets_for (board g) sel lt ct
         end).
Proof.
  unfold _compute_targets_for_selected.
  wp_call wp_clear_targets_eq. intros _ g0 ->. wp_pure. gui_simpl.
  destruct (selected_square g) as [sel|] eqn:Hsel.
  2:{ apply wp_ret. exists ∅, ∅. auto. }
  unfold targets_for.
  match goal with |- wp (for_each _ ?body) _ _ => set (visit := body) end.
  assert (H : forall l seen lt ct,
    targets_among (board g) seen sel lt ct ->
    wp (for_each l visit)
      (mkGUI (link g) (board g) (move_stack g) (selected_square g) lt ct
         (buttons g) (mode_var g) (rng g) (stdout g) (dialogs g))
      (fun _ g' => exists lt ct,
         g' = set_capture_targets ct (set_legal_targets lt g)
         /\ targets_among (board g) (seen ++ l) sel lt ct)).
  { induction l as [|m l IH]; intros seen lt ct Hseen.
    - apply wp_ret. exists lt, ct. rewrite app_nil_r.
      split; [reflexivity|exact Hseen].
    - cbn [for_each]. apply (wp_bind (S:=ChessGUI Board)).
      pose proof (targets_among_step _ _ _ _ _ m Hseen) as Hstep.
      replace (seen ++ m :: l) with ((seen ++ [m]) ++ l)
        by (rewrite <- app_assoc; reflexivity).
      unfold visit at 1.
      destruct (bool_decide (from_square m = sel)); cbn [andb] in Hstep.
      + wp_pure. gui_simpl. destruct (is_capture (board g) m).
        * wp_pure. gui_simpl. apply (IH _ _ _ Hstep).
        * wp_pure. apply (IH _ _ _ Hstep).
      + wp_pure. apply (IH _ _ _ Hstep). }
  eapply wp_mono; [apply (H (legal_moves (board g)) [] ∅ ∅)|].
  - split; intros x; (split; [intros Hx; set_solver|intros (m & [] & _)]).
  - intros [] g' (lt & ct & -> & Ht). eauto.
Qed.

Lemma sent_fens_same (l l' : ArduinoLink) :
  tx (ser l') = tx (ser l) -> sent_fens 0 l l'.
Proof.
  intros H. exists []. rewrite app_nil_r. split; [exact H|].
  split; [constructor|reflexivity].
Qed.

Lemma sent_fens_trans (n m : nat) (l l' l'' : ArduinoLink) :
  sent_fens n l l' -> sent_fens m l' l'' -> sent_fens (n + m) l l''.
Proof.
  intros (c1 & H1 & F1 & L1) (c2 & H2 & F2 & L2). exists (c1 ++ c2).
  split; [rewrite H2, H1, app_assoc; reflexivity|].
  split; [apply Forall_app; auto|]. rewrite length_app. lia.
Qed.

Lemma sent_fens_le (n m : nat) (l l' : ArduinoLink) :
  (n <= m)%nat -> sent_fens n l l' -> sent_fens m l l'.
Proof.
  intros Hle (c & H & F & L). exists c. split; [exact H|].
  split; [exact F|lia].
Qed.

Lemma send_line_tx (text : str) (l : ArduinoLink) :
  tx (ser (snd (ArduinoLink_.send_line text l))) = tx (ser l)
  \/ exists data,
       utf8_encode (wire_line text) = Some data
       /\ tx (ser (snd (ArduinoLink_.send_line text l))) = tx (ser l) ++ [data].
Proof.
  pose proof (send_line_cases text l) as H.
  destruct (utf8_encode (wire_line text)) as [data|];
    [|rewrite H; left; reflexivity].
  destruct (negb (accepts 1 (ser l))); [rewrite H; left; reflexivity|].
  destruct (negb (accepts 2 (ser l))); rewrite H; right; eauto.
Qed.

Lemma wp_send_position_sent g :
  wp send_position_to_arduino g (fun _ g' =>
    exists l' out,
      g' = set_stdout out (set_link l' g) /\ sent_fens 1 (link g) l').
Proof.
  assert (Hs : sent_fens 1 (link g) (snd (send_fen (board g) (link g)))).
  { unfold send_fen.
    destruct (send_line_tx (fen (board g)) (link g)) as [H|(data & Hd & H)].
    - apply (sent_fens_le 0); [lia|]. apply sent_fens_same, H.
    - exists [data]. split; [exact H|].
      split; [|reflexivity]. constructor; [|constructor].
      exists (board g). exact Hd. }
  unfold wp, send_position_to_arduino, on_link, print. unfold_monad.
  destruct (send_fen (board g) (link g)) as [[[]|e] l']; cbn in Hs.
  - exists l', (stdout g). split; [reflexivity|exact Hs].
  - exists l', (stdout g ++ [Print_Error_enviando_FEN e]).
    split; [reflexivity|exact Hs].
Qed.

Lemma wp_make_computer_move_sent g :
  wp _make_computer_move g (fun _ g' =>
    g' = g
    \/ exists m l' out d,
         is_game_over (board g) = false
         /\ In m (legal_moves (board g))
         /\ sent_fens 1 (link g) l'
         /\ g' = mkGUI l' (push (board g) m) (move_stack g ++ [m])
                  (selected_square g) (legal_targets g) (capture_targets g)
                  (buttons g) (mode_var g) (tail (rng g)) out d).
Proof.
  unfold _make_computer_move. wp_pure.
  destruct (is_game_over (board g)) eqn:Hover; [apply wp_ret; auto|].
  destruct (legal_moves (board g)) as [|m0 ms] eqn:El.
  { apply wp_ret. auto. }
  rewrite <- El. unfold random_choice.
  apply (wp_bind (S:=ChessGUI Board)). wp_pure. gui_simpl.
  fold (drawn_move g).
  destruct (drawn_move_some g) as [m Hm]; [congruence|]. rewrite Hm.
  pose proof (drawn_move_legal g m Hm) as Hin.
  wp_pure. unfold board_push. wp_pure. gui_simpl.
  wp_call wp_send_position_sent. intros _ g1 (l1 & o1 & -> & Hsent).
  wp_call wp_read_line. intros resp g2 (l2 & -> & Htx). gui_simpl.
  assert (Hs : sent_fens 1 (link g) l2).
  { apply (sent_fens_trans 1 0 _ l1); [exact Hsent|].
    apply sent_fens_same, Htx. }
  apply (wp_bind (S:=ChessGUI Board)).
  destruct resp as [|c resp];
    [wp_pure|eapply wp_mono; [apply wp_print|]; intros _ g3 ->; wp_pure];
    gui_simpl.
  - destruct (is_game_over (push (board g) m)).
    + wp_last wp_show_game_over. intros _ g3 (d & ->). gui_simpl.
      right. exists m. eauto 10.
    + apply wp_ret. right. exists m. eauto 10.
  - destruct (is_game_over (push (board g) m)).
    + wp_last wp_show_game_over. intros _ g3 (d & ->). gui_simpl.
      right. exists m. eauto 10.
    + apply wp_ret. right. exists m. eauto 10.
Qed.

Lemma wp_click_outcomes g rank file :
  wp (on_square_clicked rank file) g (fun _ g' =>
    click_outcome g (square file rank) g').
Proof.
  unfold on_square_clicked, click_outcome. wp_pure.
  destruct (is_game_over (board g)) eqn:Hover; [apply wp_ret; auto|].
  destruct (bool_decide (mode_var g = pvc)
            && bool_decide (turn (board g) = BLACK)); [apply wp_ret; auto|].
  set (sq := square file rank).
  destruct (selected_square g) as [sel|] eqn:Hsel.
  2:{ destruct (piece_at (board g) sq) as [p|] eqn:Hp; [|apply wp_ret; auto].
      destruct (decide (color p = turn (board g))) as [Hc|Hc].
      - rewrite (bool_decide_eq_true_2 _ Hc). cbn [negb]. wp_pure.
        wp_call wp_compute_targets_exact.
        intros _ g1 (lt & ct & -> & Ht). gui_simpl.
        wp_last wp_update_board_paints. intros _ g2 (bs & -> & Hpaint).
        gui_simpl. right. left.
        split; [reflexivity|]. split; [reflexivity|]. split; [eauto|].
        exists lt, ct, bs. split; [exact Ht|]. split; [reflexivity|].
        exact Hpaint.
      - rewrite (bool_decide_eq_false_2 _ Hc). cbn [negb]. apply wp_ret. auto. }
  apply (wp_bind (S:=ChessGUI Board)).
  destruct (decide (sq = sel)) as [He|Hne].
  { rewrite (bool_decide_eq_true_2 _ He). wp_pure.
    wp_last wp_clear_targets_eq. intros _ g1 ->.
    wp_last wp_update_board_paints. intros _ g2 (bs & -> & Hpaint).
    gui_simpl. right. right. left. exists bs.
    split; [discriminate|]. split; [reflexivity|exact Hpaint]. }
  rewrite (bool_decide_eq_false_2 _ Hne).
  apply (wp_bind (S:=ChessGUI Board)).
  assert (Hmv : exists move,
    (if negb (is_legal (board g) (mkMove sel sq None))
     then promo ← _is_pawn_promotion sel sq;
          mret (if (promo : bool) then mkMove sel sq (Some QUEEN)
                else mkMove sel sq None)
     else mret (mkMove sel sq None)) g = (Ok move, g)
    /\ from_square move = sel /\ to_square move = sq).
  { destruct (is_legal (board g) (mkMove sel sq None)); cbn [negb].
    - eexists. split; [reflexivity|]. auto.
    - destruct (is_pawn_promotion_total g sel sq) as [r Hr].
      exists (if r then mkMove sel sq (Some QUEEN) else mkMove sel sq None).
      split; [unfold_monad; rewrite Hr; reflexivity|].
      destruct r; auto. }
  destruct Hmv as (move & Hrun & Hfrom & Hto).
  apply (wp_intro _ g g move); [exact Hrun|].
  destruct (is_legal (board g) move) eqn:Hlegal.
  2:{ wp_pure. wp_last wp_clear_targets_eq. intros _ g1 ->.
      wp_last wp_update_board_paints. intros _ g2 (bs & -> & Hpaint).
      gui_simpl. right. right. left. exists bs.
      split; [discriminate|]. split; [reflexivity|exact Hpaint]. }
  unfold board_push. wp_pure. gui_simpl.
  wp_call wp_clear_targets_eq. intros _ g0 ->. gui_simpl.
  wp_call wp_send_position_sent. intros _ g1 (l1 & o1 & -> & Hsent).
  wp_call wp_read_line. intros resp g2 (l2 & -> & Htx). gui_simpl.
  assert (Hs : sent_fens 1 (link g) l2).
  { apply (sent_fens_trans 1 0 _ l1); [exact Hsent|].
    apply sent_fens_same, Htx. }
  assert (Hfin : forall out,
    wp (g ← get;
        if is_game_over (board g) then _show_game_over
        else if bool_decide (mode_var g = pvc) then _make_computer_move
             else mret ())
      (mkGUI l2 (push (board g) move) (move_stack g ++ [move]) None ∅ ∅
         (buttons g) (mode_var g) (rng g) out (dialogs g))
      (fun _ s' => wp ((fun _ : unit => update_board) tt) s' (fun _ g' =>
         g' = g
         \/ (Some sel = None
             /\ false = false
             /\ (exists p, piece_at (board g) sq = Some p
                           /\ color p = turn (board g))
             /\ exists lt ct bs,
                  targets_for (board g) sq lt ct
                  /\ g' = mkGUI (link g) (board g) (move_stack g) (Some sq)
                            lt ct bs (mode_var g) (rng g) (stdout g)
                            (dialogs g)
                  /\ forall s, s ∈ SQUARES -> painted g' bs s)
         \/ (exists bs,
               Some sel <> None
               /\ g' = mkGUI (link g) (board g) (move_stack g) None ∅ ∅ bs
                         (mode_var g) (rng g) (stdout g) (dialogs g)
               /\ forall s, s ∈ SQUARES -> painted g' bs s)
         \/ (exists move rest l' out d bs r',
               Some sel = Some (from_square move)
               /\ to_square move = sq
               /\ is_legal (board g) move = true
               /\ played (push (board g) move) rest
               /\ (rest = [] \/ (mode_var g = pvc /\ exists m, rest = [m]))
               /\ sent_fens (1 + length rest) (link g) l'
               /\ g' = mkGUI l' (fold_left push rest (push (board g) move))
                         (move_stack g ++ move :: rest) None ∅ ∅ bs
                         (mode_var g) r' out d
               /\ forall s, s ∈ SQUARES -> painted g' bs s)))).
  { intros out. wp_pure. gui_simpl.
    assert (Hquiet : forall l' out' d r',
      sent_fens 1 (link g) l' ->
      wp update_board
        (mkGUI l' (push (board g) move) (move_stack g ++ [move]) None ∅ ∅
           (buttons g) (mode_var g) r' out' d)
        (fun _ g' =>
           exists move rest l' out d bs r',
             Some sel = Some (from_square move)
             /\ to_square move = sq
             /\ is_legal (board g) move = true
             /\ played (push (board g) move) rest
             /\ (rest = [] \/ (mode_var g = pvc /\ exists m, rest = [m]))
             /\ sent_fens (1 + length rest) (link g) l'
             /\ g' = mkGUI l' (fold_left push rest (push (board g) move))
                       (move_stack g ++ move :: rest) None ∅ ∅ bs
                       (mode_var g) r' out d
             /\ forall s, s ∈ SQUARES -> painted g' bs s)).
    { intros l' out' d r' Hl'.
      wp_last wp_update_board_paints. intros _ g3 (bs & -> & Hpaint).
      gui_simpl. exists move, [], l', out', d, bs, r'.
      rewrite Hfrom. cbn [length fold_left Nat.add].
      split; [reflexivity|]. split; [exact Hto|]. split; [exact Hlegal|].
      split; [constructor|]. split; [left; reflexivity|].
      split; [exact Hl'|]. split; [reflexivity|exact Hpaint]. }
    destruct (is_game_over (push (board g) move)) eqn:Hover'.
    - wp_last wp_show_game_over. intros _ g3 (d & ->). gui_simpl.
      eapply wp_mono; [apply (Hquiet l2 out d (rng g) Hs)|]. auto.
    - destruct (decide (mode_var g = pvc)) as [Hm|Hm].
      + rewrite (bool_decide_eq_true_2 _ Hm).
        wp_last wp_make_computer_move_sent. intros [] g3. gui_simpl.
        intros [->|(m & l' & out' & d & _ & Hin & Hsent' & ->)].
        * eapply wp_mono; [apply (Hquiet l2 out (dialogs g) (rng g) Hs)|].
          auto.
        * gui_simpl.
          wp_last wp_update_board_paints. intros _ g4 (bs & -> & Hpaint).
          gui_simpl. right. right. right.
          exists move, [m], l', out', d, bs, (tail (rng g)).
          rewrite Hfrom, <- app_assoc. cbn [length fold_left Nat.add app].
          split; [reflexivity|]. split; [exact Hto|].
          split; [exact Hlegal|].
          split; [constructor; [right; exact Hin|constructor]|].
          split; [right; eauto|].
          split; [apply (sent_fens_trans 1 1 _ l2); assumption|].
          split; [reflexivity|exact Hpaint].
      + rewrite (bool_decide_eq_false_2 _ Hm). wp_pure.
        eapply wp_mono; [apply (Hquiet l2 out (dialogs g) (rng g) Hs)|].
        auto. }
  destruct resp as [|c resp];
    [wp_pure
    |apply (wp_bind (S:=ChessGUI Board));
     eapply wp_mono; [apply wp_print|]; intros [] g3 ->; gui_simpl];
    apply Hfin.
Qed.

Lemma wp_conj {S A} (m : M S A) (s : S) (Q1 Q2 : A -> S -> Prop) :
  wp m s Q1 -> wp m s Q2 -> wp m s (fun a s' => Q1 a s' /\ Q2 a s').
Proof. unfold wp. destruct (m s) as [[a|e] s']; tauto. Qed.

Lemma wp_reset_game_full g :
  wp reset_game g (fun _ g' =>
    exists l' out bs,
      sent_fens 1 (link g) l'
      /\ g' = mkGUI l' start_position [] None ∅ ∅ bs (mode_var g) (rng g)
                out (dialogs g)
      /\ (forall s, s ∈ SQUARES -> painted g' bs s)
      /\ (Forall printable (fen start_position) ->
          accepts 2 (ser (link g)) = true ->
          out = (if Qnum (write_delay (link g)) <? 0
                 then stdout g ++ [Print_Error_enviando_FEN ValueError]
                 else stdout g)
          /\ tx (ser l') =
             tx (ser (link g)) ++ [fen start_position ++ [NEWLINE]])).
Proof.
  unfold reset_game. wp_pure.
  wp_call wp_clear_targets_eq. intros _ g0 ->. gui_simpl.
  apply (wp_bind (S:=ChessGUI Board)).
  eapply wp_mono; [apply wp_conj; [apply wp_send_position_sent
                                  |apply wp_send_position]|].
  intros _ g1 [(l1 & o1 & -> & Hsent) (l2 & o2 & Heq & Hacc)]. gui_simpl.
  injection Heq as <- <-.
  wp_last wp_update_board_paints. intros _ g2 (bs & -> & Hpaint). gui_simpl.
  exists l1, o1, bs. split; [exact Hsent|]. split; [reflexivity|].
  split; [exact Hpaint|]. intros Hp Ha.
  destruct (Hacc Hp Ha) as (Ho & Ht & _). auto.
Qed.

Lemma new_gui_full (l : ArduinoLink) (draws : list nat) :
  exists l' out bs,
    sent_fens 1 l l'
    /\ new_gui l draws
       = mkGUI l' start_position [] None ∅ ∅ bs pvp draws out []
    /\ (forall s, s ∈ SQUARES -> painted (new_gui l draws) bs s)
    /\ (Forall printable (fen start_position) ->
        accepts 2 (ser l) = true ->
        out = (if Qnum (write_delay l) <? 0
               then [Print_Error_enviando_FEN ValueError] else [])
        /\ tx (ser l') = tx (ser l) ++ [fen start_position ++ [NEWLINE]]).
Proof.
  unfold new_gui.
  match goal with |- context [snd (?m ?g0)] =>
    assert (H : wp m g0 (fun _ g' =>
      exists l' out bs,
        sent_fens 1 l l'
        /\ g' = mkGUI l' start_position [] None ∅ ∅ bs pvp draws out []
        /\ (forall s, s ∈ SQUARES -> painted g' bs s)
        /\ (Forall printable (fen start_position) ->
            accepts 2 (ser l) = true ->
            out = (if Qnum (write_delay l) <? 0
                   then [Print_Error_enviando_FEN ValueError] else [])
            /\ tx (ser l') = tx (ser l) ++ [fen start_position ++ [NEWLINE]])))
  end.
  { wp_call wp_build_ui. intros _ g1 (bs0 & ->). gui_simpl.
    apply (wp_bind (S:=ChessGUI Board)).
    eapply wp_mono; [apply wp_conj; [apply wp_send_position_sent
                                    |apply wp_send_position]|].
    intros _ g1 [(l1 & o1 & -> & Hsent) (l2 & o2 & Heq & Hacc)]. gui_simpl.
    injection Heq as <- <-.
    wp_last wp_update_board_paints. intros _ g2 (bs & -> & Hpaint).
    gui_simpl. exists l1, o1, bs. split; [exact Hsent|].
    split; [reflexivity|]. split; [exact Hpaint|]. intros Hp Ha.
    destruct (Hacc Hp Ha) as (Ho & Ht & _). auto. }
  apply wp_elim in H. destruct H as ([] & g' & -> & H). exact H.
Qed.

Lemma wp_handle_outcome e g :
  wp (handle e) g (fun _ g' => event_outcome e g g').
Proof.
  destruct e as [rank file| |m]; cbn [handle event_outcome].
  - apply wp_click_outcomes.
  - wp_last wp_reset_game_full.
    intros _ g' (l' & out & bs & Hs & -> & Hp & _). eauto 6.
  - wp_pure. reflexivity.
Qed.

Lemma after_outcome e g : event_outcome e g (after e g).
Proof.
  unfold after. pose proof (wp_handle_outcome e g) as H.
  apply wp_elim in H. destruct H as ([] & g' & -> & H). exact H.
Qed.

Lemma played_app (b : Board) (ms ms' : list Move) :
  played b ms -> played (fold_left push ms b) ms' -> played b (ms ++ ms').
Proof.
  intros H. induction H as [b|b m ms Hm _ IH]; cbn [fold_left app]; intros H'.
  - exact H'.
  - constructor; [exact Hm|]. apply IH, H'.
Qed.

Lemma square_in_SQUARES (file rank : Z) :
  0 <= rank < 8 -> 0 <= file < 8 ->
  square file rank ∈ SQUARES
  /\ square_rank (square file rank) = rank
  /\ square_file (square file rank) = file.
Proof.
  intros Hr Hf. unfold square, square_rank, square_file, SQUARES.
  split; [|split].
  - apply list_elem_of_In, in_map_iff.
    exists (Z.to_nat (rank * 8 + file)). split; [lia|].
    apply in_seq. lia.
  - rewrite Z.shiftr_div_pow2 by lia. change (2 ^ 3) with 8.
    symmetry. apply (Z.div_unique _ 8 rank file); lia.
  - change 7 with (Z.ones 3). rewrite Z.land_ones by lia.
    change (2 ^ 3) with 8. symmetry.
    apply (Z.mod_unique _ 8 rank file); lia.
Qed.

(** X4. [_compute_targets_for_selected] never raises and changes only
    the two target sets: with a selection they become exactly the
    destinations of the enumerated legal moves that start on the
    selected square, and those of them that capture; without one both
    are empty. *)
Theorem compute_targets_gives_the_moves_of_the_selection g :
  exists lt ct,
    _compute_targets_for_selected g
    = (Ok tt, mkGUI (link g) (board g) (move_stack g) (selected_square g)
                lt ct (buttons g) (mode_var g) (rng g) (stdout g)
                (dialogs g))
    /\ match selected_square g with
       | None => lt = ∅ /\ ct = ∅
       | Some sel =>
           (forall x, x ∈ lt <->
              exists m, In m (legal_moves (board g))
                        /\ from_square m = sel /\ to_square m = x)
           /\ (forall x, x ∈ ct <->
                 exists m, In m (legal_moves (board g))
                           /\ from_square m = sel /\ to_square m = x
                           /\ is_capture (board g) m = true)
       end.
Proof.
  pose proof (wp_compute_targets_exact g) as H. apply wp_elim in H.
  destruct H as ([] & g' & Hrun & lt & ct & -> & Ht).
  exists lt, ct. split; [exact Hrun|].
  destruct (selected_square g); exact Ht.
Qed.

(** X5. [update_board] never raises and changes only the buttons:
    afterwards the button of every board cell (rank, file) carries the
    colour and the glyph of its square: the selected square in the
    selection colour, a capture target in the capture colour even
    though it is a legal target too, another legal target in the move
    colour, any other square in the invalid colour, and the plain
    checkerboard when nothing is selected. *)
Theorem update_board_paints_every_cell g :
  exists bs,
    update_board g = (Ok tt, set_buttons bs g)
    /\ forall rank file,
         0 <= rank < 8 -> 0 <= file < 8 ->
         let sq := square file rank in
         let colour :=
           match selected_square g with
           | None =>
               if (rank + file) `mod` 2 =? 0 then LIGHT_COLOR else DARK_COLOR
           | Some sel =>
               if bool_decide (sel = sq) then SELECT_COLOR
               else if bool_decide (sq ∈ capture_targets g) then CAPTURE_COLOR
               else if bool_decide (sq ∈ legal_targets g) then MOVE_COLOR
               else INVALID_COLOR
           end in
         bs !! (rank, file) =
         Some (mkButton colour colour
                 match piece_at (board g) sq with
                 | None => []
                 | Some piece => [piece_glyph (symbol piece)]
                 end).
Proof.
  pose proof (wp_update_board_paints g) as H. apply wp_elim in H.
  destruct H as ([] & g' & Hrun & bs & -> & Hpaint).
  exists bs. split; [exact Hrun|]. intros rank file Hr Hf.
  destruct (square_in_SQUARES file rank Hr Hf) as (Hin & Hrank & Hfile).
  specialize (Hpaint _ Hin). unfold painted, square_bg in Hpaint.
  rewrite Hrank, Hfile in Hpaint. exact Hpaint.
Qed.

Lemma reachable_invariants g :
  reachable g ->
  selection_fits g
  /\ board g = fold_left push (move_stack g) start_position
  /\ played start_position (move_stack g)
  /\ forall s, s ∈ SQUARES -> painted g (buttons g) s.
Proof.
  induction 1 as [l draws|g e Hg (Hfit & Hboard & Hplayed & Hpaint) He].
  - destruct (new_gui_full l draws) as (l' & out & bs & _ & Heq & Hp & _).
    rewrite Heq in *. unfold selection_fits. gui_simpl.
    repeat split; try reflexivity; [constructor|exact Hp].
  - pose proof (after_outcome e g) as Hout.
    destruct e as [rank file| |m]; cbn [event_outcome] in Hout.
    + destruct Hout as [->|[(Hsel & Hover & Hpiece & lt & ct & bs & Ht & -> & Hp)
                          |[(bs & Hsel & -> & Hp)
                           |(move & rest & l' & out & d & bs & r' & Hsel & Hto
                             & Hlegal & Hrest & _ & _ & -> & Hp)]]];
        unfold selection_fits; gui_simpl.
      * auto.
      * split; [|split; [exact Hboard|split; [exact Hplayed|exact Hp]]].
        split; [exact Hover|]. split; [exact Hpiece|exact Ht].
      * split; [split; reflexivity|].
        split; [exact Hboard|split; [exact Hplayed|exact Hp]].
      * split; [split; reflexivity|]. split; [|split; [|exact Hp]].
        -- rewrite fold_left_app, <- Hboard. reflexivity.
        -- apply played_app; [exact Hplayed|]. rewrite <- Hboard.
           constructor; [left; exact Hlegal|exact Hrest].
    + destruct Hout as (l' & out & bs & _ & -> & Hp).
      unfold selection_fits. gui_simpl.
      repeat split; try reflexivity; [constructor|exact Hp].
    + rewrite Hout. unfold selection_fits in *. gui_simpl. auto.
Qed.

(** X6. In every state the window reaches the selection fits the
    board: with nothing selected both target sets are empty; otherwise
    the game is not over, the selected square holds a piece of the side
    to move, and the target sets are those of that square in the
    current position (they are never stale). *)
Theorem selection_always_fits_the_board g :
  reachable g ->
  match selected_square g with
  | None => legal_targets g = ∅ /\ capture_targets g = ∅
  | Some sel =>
      is_game_over (board g) = false
      /\ (exists p, piece_at (board g) sel = Some p
                    /\ color p = turn (board g))
      /\ (forall x, x ∈ legal_targets g <->
            exists m, In m (legal_moves (board g))
                      /\ from_square m = sel /\ to_square m = x)
      /\ (forall x, x ∈ capture_targets g <->
            exists m, In m (legal_moves (board g))
                      /\ from_square m = sel /\ to_square m = x
                      /\ is_capture (board g) m = true)
  end.
Proof.
  intros Hg. destruct (reachable_invariants g Hg) as (Hfit & _).
  unfold selection_fits in Hfit.
  destruct (selected_square g); [|exact Hfit].
  destruct Hfit as (Hover & Hp & Hlt & Hct). auto.
Qed.

(** X7. The window never pushes an illegal move: in every state it
    reaches, the board is the start position with the move stack played
    out, and every move of the stack passed the legality test (a
    human's move) or was one of the enumerated legal moves (the
    machine's) in the position it was played in. *)
Theorem only_legal_moves_are_pushed g :
  reachable g ->
  board g = fold_left push (move_stack g) start_position
  /\ played start_position (move_stack g).
Proof.
  intros Hg. destruct (reachable_invariants g Hg) as (_ & Hb & Hp & _).
  auto.
Qed.

(** X8. What the window shows is never out of date: in every state it
    reaches, each of the 64 buttons carries the colour and glyph that
    [update_board] computes from the current board and selection. *)
Theorem display_is_in_sync g :
  reachable g ->
  forall rank file,
    0 <= rank < 8 -> 0 <= file < 8 ->
    buttons g !! (rank, file) =
    Some (mkButton (square_bg g (square file rank))
            (square_bg g (square file rank))
            match piece_at (board g) (square file rank) with
            | None => []
            | Some piece => [piece_glyph (symbol piece)]
            end).
Proof.
  intros Hg rank file Hr Hf.
  destruct (reachable_invariants g Hg) as (_ & _ & _ & Hpaint).
  destruct (square_in_SQUARES file rank Hr Hf) as (Hin & Hrank & Hfile).
  specialize (Hpaint _ Hin). unfold painted in Hpaint.
  rewrite Hrank, Hfile in Hpaint. exact Hpaint.
Qed.

Lemma sent_fens_refl (l : ArduinoLink) : sent_fens 0 l l.
Proof. apply sent_fens_same. reflexivity. Qed.

(** X9. No event of the window (a click on a board button, the reset
    button, a change of mode) makes it raise, whatever the port does,
    and nothing but FEN lines of positions ever goes out: a click pushes
    at most two moves (at most one in two-player mode) and sends at most
    one line per move pushed, a reset sends at most one line, a change
    of mode none. *)
Theorem events_never_raise_and_send_only_fens e g :
  event_ok e ->
  exists g' pushed chunks,
    handle e g = (Ok tt, g')
    /\ tx (ser (link g')) = tx (ser (link g)) ++ chunks
    /\ Forall fen_line chunks
    /\ match e with
       | Click _ _ =>
           move_stack g' = move_stack g ++ pushed
           /\ (length chunks <= length pushed <= 2)%nat
           /\ (mode_var g = pvp -> (length pushed <= 1)%nat)
       | Reiniciar => move_stack g' = [] /\ (length chunks <= 1)%nat
       | SelectMode _ => move_stack g' = move_stack g /\ chunks = []
       end.
Proof.
  intros _.
  pose proof (wp_handle_outcome e g) as H. apply wp_elim in H.
  destruct H as ([] & g' & Hrun & Hout). exists g'.
  destruct e as [rank file| |m]; cbn [event_outcome] in Hout.
  - destruct Hout as [->|[(_ & _ & _ & lt & ct & bs & _ & -> & _)
                        |[(bs & _ & -> & _)
                         |(move & rest & l' & out & d & bs & r' & _ & _ & _
                           & _ & Hrest & (chunks & Htx & Hfen & Hlen) & ->
                           & _)]]].
    1-3: exists [], []; gui_simpl; rewrite !app_nil_r;
      (split; [exact Hrun|]); repeat split; auto; cbn; lia.
    exists (move :: rest), chunks. gui_simpl.
    split; [exact Hrun|]. split; [exact Htx|]. split; [exact Hfen|].
    split; [reflexivity|]. cbn [length].
    destruct Hrest as [->|(Hm & m & ->)]; cbn [length] in *.
    + split; [lia|]. intros _. lia.
    + split; [lia|]. intros Hp. rewrite Hm in Hp. discriminate.
  - destruct Hout as (l' & out & bs & (chunks & Htx & Hfen & Hlen) & -> & _).
    exists [], chunks. gui_simpl. auto.
  - subst g'. exists [], []. gui_simpl. rewrite app_nil_r. auto.
Qed.



End GUI_more.

(** ** The end of the game *)

Section GUI_dialogs.
Context {Board : Type} `{Rules : ChessRules Board}.
Implicit Types g : ChessGUI Board.

Lemma wp_show_game_over_exact g :
  wp _show_game_over g (fun _ g' =>
    g' = set_dialogs (dialogs g ++ [game_over_dialog (board g)]) g).
Proof.
  unfold _show_game_over, game_over_dialog. wp_pure.
  destruct (outcome_termination (board g)); reflexivity.
Qed.

Lemma wp_send_position_frame g :
  wp send_position_to_arduino g (fun _ g' =>
    exists l' out, g' = set_stdout out (set_link l' g)).
Proof.
  unfold wp, send_position_to_arduino, on_link, print. unfold_monad.
  destruct (send_fen (board g) (link g)) as [[[]|e] l']; eauto.
Qed.

Lemma wp_make_computer_move_dialogs g :
  wp _make_computer_move g (fun _ g' => dialog_rule g g').
Proof.
  unfold _make_computer_move, dialog_rule. wp_pure.
  destruct (is_game_over (board g)) eqn:Hover.
  { apply wp_ret. rewrite Hover, andb_false_r. auto. }
  destruct (legal_moves (board g)) as [|m0 ms] eqn:El.
  { apply wp_ret. rewrite Hover. auto. }
  rewrite <- El. unfold random_choice.
  apply (wp_bind (S:=ChessGUI Board)). wp_pure. gui_simpl.
  fold (drawn_move g).
  destruct (drawn_move_some g) as [m Hm]; [congruence|]. rewrite Hm.
  wp_pure. unfold board_push. wp_pure. gui_simpl.
  wp_call wp_send_position_frame. intros _ g1 (l1 & o1 & ->).
  wp_call wp_read_line. intros resp g2 (l2 & -> & _). gui_simpl.
  apply (wp_bind (S:=ChessGUI Board)).
  destruct resp as [|c resp];
    [wp_pure|eapply wp_mono; [apply wp_print|]; intros _ g3 ->; wp_pure];
    gui_simpl.
  all: destruct (is_game_over (push (board g) m)) eqn:Hover';
    [wp_last wp_show_game_over_exact; intros _ g3 ->; gui_simpl
    |apply wp_ret; gui_simpl];
    rewrite Hover'; auto.
Qed.

Lemma wp_update_board_frame g :
  wp update_board g (fun _ g' => exists bs, g' = set_buttons bs g).
Proof.
  eapply wp_mono; [apply wp_update_board_paints|].
  intros _ g' (bs & -> & _). eauto.
Qed.

Lemma wp_compute_targets_frame g :
  wp _compute_targets_for_selected g (fun _ g' =>
    exists lt ct,
      g' = mkGUI (link g) (board g) (move_stack g) (selected_square g) lt ct
             (buttons g) (mode_var g) (rng g) (stdout g) (dialogs g)).
Proof.
  eapply wp_mono; [apply wp_compute_targets_exact|].
  intros _ g' (lt & ct & -> & _). eauto.
Qed.

Lemma dialog_rule_same g g' :
  mode_var g' = mode_var g -> board g' = board g -> dialogs g' = dialogs g ->
  dialog_rule g g'.
Proof.
  intros Hm Hb Hd. split; [exact Hm|]. rewrite Hb, Hd.
  destruct (is_game_over (board g)); reflexivity.
Qed.

Lemma wp_click_dialogs g rank file :
  wp (on_square_clicked rank file) g (fun _ g' => dialog_rule g g').
Proof.
  unfold on_square_clicked. wp_pure.
  destruct (is_game_over (board g)) eqn:Hover;
    [apply wp_ret, dialog_rule_same; reflexivity|].
  destruct (bool_decide (mode_var g = pvc)
            && bool_decide (turn (board g) = BLACK));
    [apply wp_ret, dialog_rule_same; reflexivity|].
  set (sq := square file rank).
  destruct (selected_square g) as [sel|] eqn:Hsel.
  2:{ destruct (piece_at (board g) sq) as [p|];
        [|apply wp_ret, dialog_rule_same; reflexivity].
      destruct (negb (bool_decide (color p = turn (board g))));
        [apply wp_ret, dialog_rule_same; reflexivity|].
      wp_pure. wp_call wp_compute_targets_frame.
      intros _ g1 (lt & ct & ->). gui_simpl.
      wp_last wp_update_board_frame. intros _ g2 (bs & ->).
      apply dialog_rule_same; reflexivity. }
  apply (wp_bind (S:=ChessGUI Board)).
  destruct (bool_decide (sq = sel)).
  { wp_pure. wp_last wp_clear_targets_eq. intros _ g1 ->.
    wp_last wp_update_board_frame. intros _ g2 (bs & ->).
    apply dialog_rule_same; reflexivity. }
  apply (wp_bind (S:=ChessGUI Board)).
  assert (Hmv : exists move,
    (if negb (is_legal (board g) (mkMove sel sq None))
     then promo ← _is_pawn_promotion sel sq;
          mret (if (promo : bool) then mkMove sel sq (Some QUEEN)
                else mkMove sel sq None)
     else mret (mkMove sel sq None)) g = (Ok move, g)).
  { destruct (is_legal (board g) (mkMove sel sq None)); cbn [negb].
    - eexists. reflexivity.
    - destruct (is_pawn_promotion_total g sel sq) as [r Hr].
      exists (if r then mkMove sel sq (Some QUEEN) else mkMove sel sq None).
      unfold_monad. rewrite Hr. reflexivity. }
  destruct Hmv as (move & Hrun).
  apply (wp_intro _ g g move); [exact Hrun|].
  destruct (is_legal (board g) move).
  2:{ wp_pure. wp_last wp_clear_targets_eq. intros _ g1 ->.
      wp_last wp_update_board_frame. intros _ g2 (bs & ->).
      apply dialog_rule_same; reflexivity. }
  unfold board_push. wp_pure. gui_simpl.
  wp_call wp_clear_targets_eq. intros _ g0 ->. gui_simpl.
  wp_call wp_send_position_frame. intros _ g1 (l1 & o1 & ->).
  wp_call wp_read_line. intros resp g2 (l2 & -> & _). gui_simpl.
  assert (Hfin : forall out,
    wp (g ← get;
        if is_game_over (board g) then _show_game_over
        else if bool_decide (mode_var g = pvc) then _make_computer_move
             else mret ())
      (mkGUI l2 (push (board g) move) (move_stack g ++ [move]) None ∅ ∅
         (buttons g) (mode_var g) (rng g) out (dialogs g))
      (fun _ s' => wp ((fun _ : unit => update_board) tt) s' (fun _ g' =>
         dialog_rule g g'))).
  { intros out. wp_pure. gui_simpl.
    destruct (is_game_over (push (board g) move)) eqn:Hover'.
    - wp_last wp_show_game_over_exact. intros _ g3 ->. gui_simpl.
      wp_last wp_update_board_frame. intros _ g4 (bs & ->).
      split; gui_simpl; [reflexivity|]. rewrite Hover', Hover. reflexivity.
    - destruct (bool_decide (mode_var g = pvc)).
      + wp_last wp_make_computer_move_dialogs. intros [] g3 (Hm & Hd).
        gui_simpl. rewrite Hover' in Hd. cbn [negb] in Hd.
        rewrite andb_true_r in Hd.
        wp_last wp_update_board_frame. intros _ g4 (bs & ->).
        split; gui_simpl; [exact Hm|]. rewrite Hover, andb_true_r. exact Hd.
      + wp_pure. wp_last wp_update_board_frame. intros _ g4 (bs & ->).
        split; gui_simpl; [reflexivity|]. rewrite Hover'. reflexivity. }
  destruct resp as [|c resp];
    [wp_pure
    |apply (wp_bind (S:=ChessGUI Board));
     eapply wp_mono; [apply wp_print|]; intros [] g3 ->; gui_simpl];
    apply Hfin.
Qed.

(** X22. The end-of-game box is shown exactly when a click takes the
    game from running to over (by the human's move or by the machine's
    answer), once, with the result and the termination of the final
    position; no other click, no reset and no change of mode shows
    one. *)
Theorem game_over_box_shown_exactly_when_a_click_ends_the_game
    (e : Event) g :
  dialogs (after e g) =
  match e with
  | Click _ _ =>
      if is_game_over (board (after e g)) && negb (is_game_over (board g))
      then dialogs g ++ [game_over_dialog (board (after e g))]
      else dialogs g
  | _ => dialogs g
  end.
Proof.
  unfold after. destruct e as [rank file| |m]; cbn [handle].
  - pose proof (wp_click_dialogs g rank file) as H. apply wp_elim in H.
    destruct H as ([] & g' & -> & _ & Hd). exact Hd.
  - pose proof (wp_reset_game_full g) as H. apply wp_elim in H.
    destruct H as ([] & g' & -> & l' & out & bs & _ & -> & _).
    reflexivity.
  - reflexivity.
Qed.

End GUI_dialogs.

(** ** Text on the wire: what is sent can be read back *)

Lemma lor_shiftl_add (a b n : Z) :
  0 <= n -> 0 <= b < 2 ^ n -> Z.lor (Z.shiftl a n) b = a * 2 ^ n + b.
Proof.
  intros Hn Hb.
  assert (Hland : Z.land (Z.shiftl a n) b = 0).
  { apply Z.bits_inj'. intros i Hi. rewrite Z.land_spec, Z.bits_0.
    destruct (Z.lt_ge_cases i n) as [Hlt|Hge].
    - rewrite Z.shiftl_spec_low by exact Hlt. reflexivity.
    - destruct (Z.eq_dec b 0) as [->|Hb0].
      + rewrite Z.bits_0. apply andb_false_r.
      + rewrite (Z.bits_above_log2 b i); [apply andb_false_r|lia|].
        apply Z.log2_lt_pow2; [lia|].
        pose proof (Z.pow_le_mono_r 2 n i ltac:(lia) Hge). lia. }
  rewrite <- Z.lxor_lor by exact Hland.
  rewrite <- Z.add_nocarry_lxor by exact Hland.
  rewrite Z.shiftl_mul_pow2 by exact Hn. reflexivity.
Qed.

Lemma lead_byte (tag n x : Z) :
  0 <= n -> 0 <= x < 2 ^ n -> Z.lor (tag * 2 ^ n) x = tag * 2 ^ n + x.
Proof.
  intros Hn Hx. rewrite <- (lor_shiftl_add tag x n Hn Hx).
  rewrite Z.shiftl_mul_pow2 by exact Hn. reflexivity.
Qed.

Lemma low_bits (x n : Z) : 0 <= n -> Z.land x (Z.ones n) = x mod 2 ^ n.
Proof. intros Hn. apply Z.land_ones, Hn. Qed.

(** The octets [utf8_encode_char] gives for a code point decode back to
    it, whatever follows them. *)
Lemma utf8_decode_encode_char (c : Z) (bs rest : bytes) :
  utf8_encode_char c = Some bs ->
  utf8_decode_ignore (bs ++ rest) = c :: utf8_decode_ignore rest.
Proof.
  unfold utf8_encode_char.
  destruct (Z.ltb_spec c 0) as [|H0]; [discriminate|].
  destruct (Z.ltb_spec c 0x80) as [H1|H1].
  { intros [= <-]. cbn [app utf8_decode_ignore]. unfold in_range.
    destruct (Z.leb_spec 0 c); [|lia]. destruct (Z.leb_spec c 0x7F); [|lia].
    reflexivity. }
  destruct (Z.ltb_spec c 0x800) as [H2|H2].
  { intros [= <-].
    assert (Hb0 : Z.lor 0xC0 (Z.shiftr c 6) = 192 + c / 64).
    { rewrite Z.shiftr_div_pow2 by lia.
      change 0xC0 with (6 * 2 ^ 5). rewrite lead_byte; [reflexivity|lia|].
      change (2 ^ 6) with 64. change (2 ^ 5) with 32.
      Z.div_mod_to_equations. lia. }
    assert (Hb1 : Z.lor 0x80 (Z.land c 0x3F) = 128 + c mod 64).
    { change 0x3F with (Z.ones 6). rewrite low_bits by lia.
      change 0x80 with (2 * 2 ^ 6). rewrite lead_byte; [reflexivity|lia|].
      change (2 ^ 6) with 64. Z.div_mod_to_equations. lia. }
    rewrite Hb0, Hb1. cbn [app utf8_decode_ignore].
    unfold in_range, is_cont, cont_bits.
    destruct (Z.leb_spec 0 (192 + c / 64)); [|Z.div_mod_to_equations; lia].
    destruct (Z.leb_spec (192 + c / 64) 0x7F);
      [Z.div_mod_to_equations; lia|]. cbn [andb].
    destruct (Z.leb_spec 0xC2 (192 + c / 64)); [|Z.div_mod_to_equations; lia].
    destruct (Z.leb_spec (192 + c / 64) 0xDF); [|Z.div_mod_to_equations; lia].
    cbn [andb].
    destruct (Z.leb_spec 0x80 (128 + c mod 64));
      [|Z.div_mod_to_equations; lia].
    destruct (Z.leb_spec (128 + c mod 64) 0xBF);
      [|Z.div_mod_to_equations; lia].
    cbn [andb]. f_equal.
    change 0x1F with (Z.ones 5). change 0x3F with (Z.ones 6).
    rewrite !low_bits by lia. rewrite lor_shiftl_add; [|lia|].
    - change (2 ^ 6) with 64. change (2 ^ 5) with 32.
      Z.div_mod_to_equations. lia.
    - change (2 ^ 6) with 64. Z.div_mod_to_equations. lia. }
  destruct (Z.ltb_spec c 0x10000) as [H3|H3].
  { destruct ((0xD800 <=? c) && (c <=? 0xDFFF)) eqn:Hsur; [discriminate|].
    assert (Hns : c < 0xD800 \/ 0xDFFF < c).
    { apply andb_false_iff in Hsur as [H|H];
        [left; apply Z.leb_gt, H|right; apply Z.leb_gt, H]. }
    intros [= <-].
    assert (Hb0 : Z.lor 0xE0 (Z.shiftr c 12) = 224 + c / 4096).
    { rewrite Z.shiftr_div_pow2 by lia.
      change 0xE0 with (14 * 2 ^ 4). rewrite lead_byte; [reflexivity|lia|].
      change (2 ^ 12) with 4096. change (2 ^ 4) with 16.
      Z.div_mod_to_equations. lia. }
    assert (Hb1 : Z.lor 0x80 (Z.land (Z.shiftr c 6) 0x3F)
                  = 128 + (c / 64) mod 64).
    { rewrite Z.shiftr_div_pow2 by lia.
      change 0x3F with (Z.ones 6). rewrite low_bits by lia.
      change 0x80 with (2 * 2 ^ 6). rewrite lead_byte; [reflexivity|lia|].
      change (2 ^ 6) with 64. Z.div_mod_to_equations. lia. }
    assert (Hb2 : Z.lor 0x80 (Z.land c 0x3F) = 128 + c mod 64).
    { change 0x3F with (Z.ones 6). rewrite low_bits by lia.
      change 0x80 with (2 * 2 ^ 6). rewrite lead_byte; [reflexivity|lia|].
      change (2 ^ 6) with 64. Z.div_mod_to_equations. lia. }
    rewrite Hb0, Hb1, Hb2. cbn [app utf8_decode_ignore].
    unfold in_range, second_ok, in_range, is_cont, cont_bits.
    destruct (Z.leb_spec 0 (224 + c / 4096)); [|Z.div_mod_to_equations; lia].
    destruct (Z.leb_spec (224 + c / 4096) 0x7F);
      [Z.div_mod_to_equations; lia|]. cbn [andb].
    destruct (Z.leb_spec 0xC2 (224 + c / 4096));
      [|Z.div_mod_to_equations; lia].
    destruct (Z.leb_spec (224 + c / 4096) 0xDF);
      [Z.div_mod_to_equations; lia|]. cbn [andb].
    destruct (Z.leb_spec 0xE0 (224 + c / 4096));
      [|Z.div_mod_to_equations; lia].
    destruct (Z.leb_spec (224 + c / 4096) 0xEF);
      [|Z.div_mod_to_equations; lia]. cbn [andb].
    assert (Hsecond :
      (if 224 + c / 4096 =? 0xE0
       then (0xA0 <=? 128 + (c / 64) mod 64) && (128 + (c / 64) mod 64 <=? 0xBF)
       else if 224 + c / 4096 =? 0xED
       then (0x80 <=? 128 + (c / 64) mod 64)
            && (128 + (c / 64) mod 64 <=? 0x9F)
       else if 224 + c / 4096 =? 0xF0
       then (0x90 <=? 128 + (c / 64) mod 64)
            && (128 + (c / 64) mod 64 <=? 0xBF)
       else if 224 + c / 4096 =? 0xF4
       then (0x80 <=? 128 + (c / 64) mod 64)
            && (128 + (c / 64) mod 64 <=? 0x8F)
       else (0x80 <=? 128 + (c / 64) mod 64)
            && (128 + (c / 64) mod 64 <=? 0xBF)) = true).
    { destruct (Z.eqb_spec (224 + c / 4096) 0xE0);
        [apply andb_true_iff; split; apply Z.leb_le;
         Z.div_mod_to_equations; lia|].
      destruct (Z.eqb_spec (224 + c / 4096) 0xED);
        [apply andb_true_iff; split; apply Z.leb_le;
         Z.div_mod_to_equations; lia|].
      destruct (Z.eqb_spec (224 + c / 4096) 0xF0);
        [Z.div_mod_to_equations; lia|].
      destruct (Z.eqb_spec (224 + c / 4096) 0xF4);
        [Z.div_mod_to_equations; lia|].
      apply andb_true_iff; split; apply Z.leb_le;
        Z.div_mod_to_equations; lia. }
    rewrite Hsecond. cbn [andb].
    destruct (Z.leb_spec 0x80 (128 + c mod 64));
      [|Z.div_mod_to_equations; lia].
    destruct (Z.leb_spec (128 + c mod 64) 0xBF);
      [|Z.div_mod_to_equations; lia].
    cbn [andb]. f_equal.
    change 0x0F with (Z.ones 4). change 0x3F with (Z.ones 6).
    rewrite !low_bits by lia.
    rewrite (lor_shiftl_add _ ((128 + c mod 64) mod 2 ^ 6) 6);
      [|lia|change (2 ^ 6) with 64; Z.div_mod_to_equations; lia].
    rewrite lor_shiftl_add;
      [|lia|change (2 ^ 12) with 4096; change (2 ^ 6) with 64;
            Z.div_mod_to_equations; lia].
    change (2 ^ 12) with 4096. change (2 ^ 6) with 64. change (2 ^ 4) with 16.
    Z.div_mod_to_equations. lia. }
  destruct (Z.ltb_spec c 0x110000) as [H4|H4]; [|discriminate].
  intros [= <-].
  assert (Hb0 : Z.lor 0xF0 (Z.shiftr c 18) = 240 + c / 262144).
  { rewrite Z.shiftr_div_pow2 by lia.
    change 0xF0 with (30 * 2 ^ 3). rewrite lead_byte; [reflexivity|lia|].
    change (2 ^ 18) with 262144. change (2 ^ 3) with 8.
    Z.div_mod_to_equations. lia. }
  assert (Hb1 : Z.lor 0x80 (Z.land (Z.shiftr c 12) 0x3F)
                = 128 + (c / 4096) mod 64).
  { rewrite Z.shiftr_div_pow2 by lia.
    change 0x3F with (Z.ones 6). rewrite low_bits by lia.
    change 0x80 with (2 * 2 ^ 6). rewrite lead_byte; [reflexivity|lia|].
    change (2 ^ 6) with 64. Z.div_mod_to_equations. lia. }
  assert (Hb2 : Z.lor 0x80 (Z.land (Z.shiftr c 6) 0x3F)
                = 128 + (c / 64) mod 64).
  { rewrite Z.shiftr_div_pow2 by lia.
    change 0x3F with (Z.ones 6). rewrite low_bits by lia.
    change 0x80 with (2 * 2 ^ 6). rewrite lead_byte; [reflexivity|lia|].
    change (2 ^ 6) with 64. Z.div_mod_to_equations. lia. }
  assert (Hb3 : Z.lor 0x80 (Z.land c 0x3F) = 128 + c mod 64).
  { change 0x3F with (Z.ones 6). rewrite low_bits by lia.
    change 0x80 with (2 * 2 ^ 6). rewrite lead_byte; [reflexivity|lia|].
    change (2 ^ 6) with 64. Z.div_mod_to_equations. lia. }
  rewrite Hb0, Hb1, Hb2, Hb3. cbn [app utf8_decode_ignore].
  unfold in_range, second_ok, in_range, is_cont, cont_bits.
  destruct (Z.leb_spec 0 (240 + c / 262144)); [|Z.div_mod_to_equations; lia].
  destruct (Z.leb_spec (240 + c / 262144) 0x7F);
    [Z.div_mod_to_equations; lia|]. cbn [andb].
  destruct (Z.leb_spec 0xC2 (240 + c / 262144));
    [|Z.div_mod_to_equations; lia].
  destruct (Z.leb_spec (240 + c / 262144) 0xDF);
    [Z.div_mod_to_equations; lia|]. cbn [andb].
  destruct (Z.leb_spec 0xE0 (240 + c / 262144));
    [|Z.div_mod_to_equations; lia].
  destruct (Z.leb_spec (240 + c / 262144) 0xEF);
    [Z.div_mod_to_equations; lia|]. cbn [andb].
  destruct (Z.leb_spec 0xF0 (240 + c / 262144));
    [|Z.div_mod_to_equations; lia].
  destruct (Z.leb_spec (240 + c / 262144) 0xF4);
    [|Z.div_mod_to_equations; lia]. cbn [andb].
  assert (Hsecond :
    (if 240 + c / 262144 =? 0xE0
     then (0xA0 <=? 128 + (c / 4096) mod 64)
          && (128 + (c / 4096) mod 64 <=? 0xBF)
     else if 240 + c / 262144 =? 0xED
     then (0x80 <=? 128 + (c / 4096) mod 64)
          && (128 + (c / 4096) mod 64 <=? 0x9F)
     else if 240 + c / 262144 =? 0xF0
     then (0x90 <=? 128 + (c / 4096) mod 64)
          && (128 + (c / 4096) mod 64 <=? 0xBF)
     else if 240 + c / 262144 =? 0xF4
     then (0x80 <=? 128 + (c / 4096) mod 64)
          && (128 + (c / 4096) mod 64 <=? 0x8F)
     else (0x80 <=? 128 + (c / 4096) mod 64)
          && (128 + (c / 4096) mod 64 <=? 0xBF)) = true).
  { destruct (Z.eqb_spec (240 + c / 262144) 0xE0);
      [Z.div_mod_to_equations; lia|].
    destruct (Z.eqb_spec (240 + c / 262144) 0xED);
      [Z.div_mod_to_equations; lia|].
    destruct (Z.eqb_spec (240 + c / 262144) 0xF0);
      [apply andb_true_iff; split; apply Z.leb_le;
       Z.div_mod_to_equations; lia|].
    destruct (Z.eqb_spec (240 + c / 262144) 0xF4);
      [apply andb_true_iff; split; apply Z.leb_le;
       Z.div_mod_to_equations; lia|].
    apply andb_true_iff; split; apply Z.leb_le;
      Z.div_mod_to_equations; lia. }
  rewrite Hsecond. cbn [andb].
  destruct (Z.leb_spec 0x80 (128 + (c / 64) mod 64));
    [|Z.div_mod_to_equations; lia].
  destruct (Z.leb_spec (128 + (c / 64) mod 64) 0xBF);
    [|Z.div_mod_to_equations; lia]. cbn [andb].
  destruct (Z.leb_spec 0x80 (128 + c mod 64));
    [|Z.div_mod_to_equations; lia].
  destruct (Z.leb_spec (128 + c mod 64) 0xBF);
    [|Z.div_mod_to_equations; lia].
  cbn [andb]. f_equal.
  change 0x07 with (Z.ones 3). change 0x3F with (Z.ones 6).
  rewrite !low_bits by lia.
  rewrite (lor_shiftl_add _ ((128 + c mod 64) mod 2 ^ 6) 6);
    [|lia|change (2 ^ 6) with 64; Z.div_mod_to_equations; lia].
  rewrite (lor_shiftl_add _ _ 12);
    [|lia|change (2 ^ 12) with 4096; change (2 ^ 6) with 64;
          Z.div_mod_to_equations; lia].
  rewrite lor_shiftl_add;
    [|lia|change (2 ^ 18) with 262144; change (2 ^ 12) with 4096;
          change (2 ^ 6) with 64; Z.div_mod_to_equations; lia].
  change (2 ^ 18) with 262144. change (2 ^ 12) with 4096.
  change (2 ^ 6) with 64. change (2 ^ 3) with 8.
  Z.div_mod_to_equations. lia.
Qed.

Lemma utf8_decode_encode (s : str) (bs : bytes) :
  utf8_encode s = Some bs -> utf8_decode_ignore bs = s.
Proof.
  revert bs. induction s as [|c s IH]; cbn [utf8_encode]; intros bs.
  - intros [= <-]. reflexivity.
  - destruct (utf8_encode_char c) as [cs|] eqn:Hc; [|discriminate].
    destruct (utf8_encode s) as [rest|]; [|discriminate].
    intros [= <-]. rewrite (utf8_decode_encode_char c cs rest Hc).
    f_equal. apply IH. reflexivity.
Qed.

Lemma lstrip_app_space (s : str) (c : Z) :
  isspace c = true ->
  lstrip (s ++ [c]) = match lstrip s with [] => [] | t => t ++ [c] end.
Proof.
  intros Hc. induction s as [|d s IH]; cbn [app lstrip].
  - rewrite Hc. reflexivity.
  - destruct (isspace d); [exact IH|reflexivity].
Qed.

Lemma strip_app_space (s : str) (c : Z) :
  isspace c = true -> strip (s ++ [c]) = strip s.
Proof.
  intros Hc. unfold strip, rstrip. rewrite (lstrip_app_space s c Hc).
  destruct (lstrip s) as [|d t]; [reflexivity|].
  rewrite rev_app_distr. cbn [rev app lstrip]. rewrite Hc. reflexivity.
Qed.

Lemma strip_wire_line (text : str) : strip (wire_line text) = strip text.
Proof.
  unfold wire_line. destruct (endswith_newline text); [reflexivity|].
  apply strip_app_space. reflexivity.
Qed.

Lemma send_line_returned (text : str) (l l1 : ArduinoLink) :
  ArduinoLink_.send_line text l = (Ok tt, l1) ->
  exists data,
    utf8_encode (wire_line text) = Some data
    /\ tx (ser l1) = tx (ser l) ++ [data].
Proof.
  intros Hrun. pose proof (send_line_cases text l) as H.
  rewrite Hrun in H.
  destruct (utf8_encode (wire_line text)) as [data|]; [|discriminate].
  exists data. split; [reflexivity|].
  destruct (negb (accepts 1 (ser l))); [discriminate|].
  destruct (negb (accepts 2 (ser l))); [discriminate|].
  injection H as _ ->. reflexivity.
Qed.

Lemma wire_line_single (text : str) :
  single_line text = true ->
  exists body,
    wire_line text = body ++ [NEWLINE]
    /\ Forall (fun c => c <> NEWLINE) body.
Proof.
  unfold single_line, wire_line, endswith_newline.
  induction text as [|c init _] using rev_ind; intros Hs.
  - exists []. split; [reflexivity|constructor].
  - rewrite removelast_last in Hs. rewrite rev_app_distr. cbn [rev app].
    assert (Hinit : Forall (fun c => c <> NEWLINE) init).
    { apply Forall_forall. intros x Hx. rewrite forallb_forall in Hs.
      apply list_elem_of_In, Hs, negb_true_iff, Z.eqb_neq in Hx. exact Hx. }
    destruct (Z.eqb_spec c NEWLINE) as [->|Hc].
    + exists init. auto.
    + exists (init ++ [c]). split; [reflexivity|].
      apply Forall_app. split; [exact Hinit|]. repeat constructor. exact Hc.
Qed.

(** The octet 10 occurs in the encoding of the newline only. *)
Lemma utf8_encode_char_no_newline (c : Z) (bs : bytes) :
  utf8_encode_char c = Some bs ->
  c <> NEWLINE ->
  Forall (fun b => b <> NEWLINE) bs.
Proof.
  assert (Hlor : forall k x,
    Z.testbit k 7 = true -> Z.lor k x <> NEWLINE).
  { intros k x Hk H. apply (f_equal (fun z => Z.testbit z 7)) in H.
    rewrite Z.lor_spec, Hk in H. discriminate. }
  unfold utf8_encode_char. intros H Hc.
  destruct (c <? 0); [discriminate|].
  destruct (c <? 0x80); [injection H as <-; repeat constructor; exact Hc|].
  destruct (c <? 0x800);
    [injection H as <-; repeat constructor; apply Hlor; reflexivity|].
  destruct (c <? 0x10000).
  { destruct ((0xD800 <=? c) && (c <=? 0xDFFF)); [discriminate|].
    injection H as <-; repeat constructor; apply Hlor; reflexivity. }
  destruct (c <? 0x110000); [|discriminate].
  injection H as <-; repeat constructor; apply Hlor; reflexivity.
Qed.

Lemma utf8_encode_no_newline (s : str) (bs : bytes) :
  utf8_encode s = Some bs ->
  Forall (fun c => c <> NEWLINE) s ->
  Forall (fun b => b <> NEWLINE) bs.
Proof.
  intros H Hs. revert bs H.
  induction Hs as [|c s Hc Hs IH]; cbn [utf8_encode]; intros bs.
  - intros [= <-]. constructor.
  - destruct (utf8_encode_char c) as [cs|] eqn:Ec; [|discriminate].
    destruct (utf8_encode s) as [rest|]; [|discriminate].
    intros [= <-]. apply Forall_app. split.
    + apply (utf8_encode_char_no_newline c cs Ec Hc).
    + apply IH. reflexivity.
Qed.

Lemma up_to_newline_line (bs : bytes) :
  Forall (fun b => b <> NEWLINE) bs ->
  up_to_newline (bs ++ [NEWLINE]) = (bs ++ [NEWLINE], []).
Proof.
  induction 1 as [|b bs Hb _ IH]; cbn [app up_to_newline].
  - reflexivity.
  - destruct (Z.eqb_spec b NEWLINE) as [->|_]; [contradiction|].
    rewrite IH. reflexivity.
Qed.

(** What [send_line] writes for a one-line text is one line for
    [readline()]. *)
Lemma wire_bytes_one_line (text : str) (data : bytes) :
  single_line text = true ->
  utf8_encode (wire_line text) = Some data ->
  up_to_newline data = (data, []).
Proof.
  intros Hs Henc.
  destruct (wire_line_single text Hs) as (body & Hw & Hbody).
  rewrite Hw, utf8_encode_app in Henc.
  destruct (utf8_encode body) as [bs|] eqn:Eb; [|discriminate].
  injection Henc as <-.
  apply up_to_newline_line, (utf8_encode_no_newline body bs Eb Hbody).
Qed.

(** X12. What [send_line] writes, [read_line] reads back: when
    [send_line(text)] returns for a text with no newline inside it, it
    has written one chunk, and a link whose port receives that chunk
    for its next [readline()] answers [read_line()] with
    [text.strip()], whatever code points [text] holds. *)
Theorem read_line_reads_back_what_send_line_wrote
    (text : str) (l l1 : ArduinoLink) :
  single_line text = true ->
  ArduinoLink_.send_line text l = (Ok tt, l1) ->
  exists data,
    tx (ser l1) = tx (ser l) ++ [data]
    /\ forall (r : ArduinoLink) (more : list bytes),
         accepts 1 (ser r) = true ->
         rx (ser r) = data :: more ->
         exists r',
           ArduinoLink_.read_line r = (Ok (strip text), r')
           /\ rx (ser r') = more
           /\ tx (ser r') = tx (ser r).
Proof.
  intros Hline Hsend.
  destruct (send_line_returned text l l1 Hsend) as (data & Henc & Htx).
  exists data. split; [exact Htx|]. intros r more Hacc Hrx.
  pose proof (wire_bytes_one_line text data Hline Henc) as Hcut.
  unfold ArduinoLink_.read_line, on_ser, ser_readline, port_op. unfold_monad.
  destruct r as [p b t w s sl]; destruct s as [o tx0 f rx0 fs].
  unfold accepts in Hacc. cbn in Hacc, Hrx. subst rx0.
  destruct o; [|discriminate]. cbn.
  destruct fs as [|[] fs]; try discriminate; cbn; rewrite Hcut; cbn;
    rewrite (utf8_decode_encode _ _ Henc), strip_wire_line; eauto.
Qed.

(** ** The optional highlight commands (inicial.py) *)

Lemma SQUARE_NAMES_lookup (n : nat) :
  (n < 64)%nat ->
  SQUARE_NAMES !! n = Some (coordinate (Z.of_nat n)).
Proof.
  intros Hn.
  do 64 (destruct n as [|n]; [reflexivity|]). lia.
Qed.

Lemma py_index_SQUARE_NAMES (sq : Square) :
  py_index SQUARE_NAMES sq =
  if (-64 <=? sq) && (sq <? 64) then Some (coordinate sq) else None.
Proof.
  unfold py_index. change (Z.of_nat (length SQUARE_NAMES)) with 64.
  destruct (Z.ltb_spec sq 0) as [Hneg|Hpos].
  - destruct (Z.ltb_spec (sq + 64) 0) as [Hlow|Hin].
    + destruct (Z.leb_spec (-64) sq); [lia|reflexivity].
    + destruct (Z.leb_spec (-64) sq); [|lia].
      destruct (Z.ltb_spec sq 64); [|lia]. cbn [andb].
      rewrite SQUARE_NAMES_lookup by lia. f_equal.
      rewrite Z2Nat.id by lia. unfold coordinate.
      replace ((sq + 64) `mod` 8) with (sq `mod` 8)
        by (rewrite <- (Z.mod_add sq 8 8) by lia; reflexivity).
      replace ((sq + 64) `mod` 64) with (sq `mod` 64)
        by (rewrite <- (Z.mod_add sq 1 64) by lia; reflexivity).
      reflexivity.
  - destruct (Z.ltb_spec sq 0); [lia|].
    destruct (Z.leb_spec (-64) sq); [|lia]. cbn [andb].
    destruct (Z.ltb_spec sq 64) as [Hin|Hout].
    + rewrite SQUARE_NAMES_lookup by lia. rewrite Z2Nat.id by lia.
      reflexivity.
    + apply lookup_ge_None_2. change (length SQUARE_NAMES) with 64%nat. lia.
Qed.

Lemma square_name_eq {S} (sq : Square) (s : S) :
  square_name sq s =
  if (-64 <=? sq) && (sq <? 64) then (Ok (coordinate sq), s)
  else (Raise IndexError, s).
Proof.
  unfold square_name. rewrite py_index_SQUARE_NAMES.
  destruct ((-64 <=? sq) && (sq <? 64)); reflexivity.
Qed.

Lemma list_comp_square_name_ok (squares : list Square) (l : ArduinoLink) :
  Forall (fun sq => -64 <= sq < 64) squares ->
  list_comp square_name squares l = (Ok (List.map coordinate squares), l).
Proof.
  induction 1 as [|sq sqs Hsq _ IH]; [reflexivity|].
  cbn [list_comp List.map]. unfold_monad. rewrite square_name_eq.
  destruct (Z.leb_spec (-64) sq); [|lia]. destruct (Z.ltb_spec sq 64); [|lia].
  cbn [andb]. rewrite IH. reflexivity.
Qed.

Lemma list_comp_square_name_raises (squares : list Square) (l : ArduinoLink) :
  Exists (fun sq => sq < -64 \/ 64 <= sq) squares ->
  list_comp square_name squares l = (Raise IndexError, l).
Proof.
  induction 1 as [sq sqs Hsq|sq sqs _ IH];
    cbn [list_comp]; unfold_monad; rewrite square_name_eq.
  - destruct (Z.leb_spec (-64) sq); destruct (Z.ltb_spec sq 64);
      try lia; reflexivity.
  - destruct ((-64 <=? sq) && (sq <? 64)); [|reflexivity].
    rewrite IH. reflexivity.
Qed.

Lemma coordinate_printable (sq : Square) : Forall printable (coordinate sq).
Proof.
  unfold coordinate, printable.
  pose proof (Z.mod_pos_bound sq 8). pose proof (Z.mod_pos_bound sq 64).
  repeat constructor; try lia.
  - assert (0 <= (sq `mod` 64) / 8) by (apply Z.div_pos; lia). lia.
  - assert ((sq `mod` 64) / 8 < 8) by (apply Z.div_lt_upper_bound; lia). lia.
Qed.

Lemma join_printable (sep : str) (xs : list str) :
  Forall printable sep -> Forall (Forall printable) xs ->
  Forall printable (join sep xs).
Proof.
  intros Hsep. induction 1 as [|x xs Hx Hxs IH]; [constructor|].
  cbn [join]. destruct xs as [|y ys]; [exact Hx|].
  apply Forall_app. split; [exact Hx|].
  apply Forall_app. split; [exact Hsep|exact IH].
Qed.

Lemma highlight_payload_printable (squares : list Square) :
  Forall printable
    (lit "HIGHLIGHT:" ++ join (lit ",") (List.map coordinate squares)).
Proof.
  apply Forall_app. split.
  - apply printable_by_check. vm_compute. reflexivity.
  - apply join_printable.
    + apply printable_by_check. vm_compute. reflexivity.
    + apply Forall_forall. intros x Hx.
      apply list_elem_of_In, in_map_iff in Hx as (sq & <- & _).
      apply coordinate_printable.
Qed.



(** X14. If one of the squares is off the board (below -64 or above
    63), [send_highlight_squares] raises IndexError before anything is
    sent: the link and its port are left as they were, also when squares
    before the bad one were fine. *)
Theorem send_highlight_squares_off_board_raises_before_sending
    (squares : list Square) (l : ArduinoLink) :
  Exists (fun sq => sq < -64 \/ 64 <= sq) squares ->
  send_highlight_squares squares l = (Raise IndexError, l).
Proof.
  intros Hsq. unfold send_highlight_squares. unfold_monad.
  rewrite (list_comp_square_name_raises _ _ Hsq). reflexivity.
Qed.

Lemma coordinate_inj (a b : Square) :
  0 <= a < 64 -> 0 <= b < 64 -> coordinate a = coordinate b -> a = b.
Proof.
  unfold coordinate. intros Ha Hb [= H1 H2].
  rewrite (Z.mod_small a 64), (Z.mod_small b 64) in H2 by lia.
  Z.div_mod_to_equations. lia.
Qed.

Lemma join_coordinates_inj (xs ys : list Square) :
  Forall (fun sq => 0 <= sq < 64) xs ->
  Forall (fun sq => 0 <= sq < 64) ys ->
  join (lit ",") (List.map coordinate xs)
  = join (lit ",") (List.map coordinate ys) ->
  xs = ys.
Proof.
  intros Hxs. revert ys.
  induction Hxs as [|x xs Hx Hxs IH]; intros ys Hys; destruct Hys as [|y ys Hy Hys].
  - reflexivity.
  - cbn [List.map join]. destruct (List.map coordinate ys); discriminate.
  - cbn [List.map join]. destruct (List.map coordinate xs); discriminate.
  - cbn [List.map join]. intros H.
    assert (Hhead : coordinate x = coordinate y
                    /\ (xs = [] /\ ys = []
                        \/ join (lit ",") (List.map coordinate xs)
                           = join (lit ",") (List.map coordinate ys)
                           /\ xs <> [] /\ ys <> [])).
    { destruct xs as [|x' xs']; destruct ys as [|y' ys'];
        cbn [List.map] in H |- *; unfold coordinate at 1 2 in H;
        cbn [app] in H.
      - split; [unfold coordinate; congruence|]. left. auto.
      - discriminate.
      - discriminate.
      - injection H as H1 H2 H3. split; [unfold coordinate; congruence|].
        right. split; [exact H3|]. split; discriminate. }
    destruct Hhead as (Hc & Hrest).
    apply (coordinate_inj x y Hx Hy) in Hc. subst y.
    destruct Hrest as [(-> & ->)|(Hj & _ & _)]; [reflexivity|].
    f_equal. apply (IH ys Hys Hj).
Qed.

Lemma send_line_printable_returned (text : str) (l l1 : ArduinoLink) :
  Forall printable text ->
  ArduinoLink_.send_line text l = (Ok tt, l1) ->
  last (tx (ser l1)) = Some (text ++ [NEWLINE]).
Proof.
  intros Hp Hrun.
  destruct (send_line_returned text l l1 Hrun) as (data & Henc & Htx).
  unfold wire_line in Henc. rewrite (endswith_newline_printable _ Hp) in Henc.
  rewrite (utf8_encode_printable _ Hp) in Henc. injection Henc as <-.
  rewrite Htx. apply last_snoc.
Qed.

Lemma send_highlight_squares_in_range
    (squares : list Square) (l l1 : ArduinoLink) :
  send_highlight_squares squares l = (Ok tt, l1) ->
  Forall (fun sq => -64 <= sq < 64) squares.
Proof.
  intros Hrun.
  assert (Hdec : forall sq : Z,
            {-64 <= sq < 64} + {sq < -64 \/ 64 <= sq}).
  { intros sq. destruct (Z_le_dec (-64) sq); destruct (Z_lt_dec sq 64);
      first [left; lia | right; lia]. }
  destruct (Forall_Exists_dec _ _ Hdec squares) as [H|He]; [exact H|].
  unfold send_highlight_squares in Hrun. unfold_monad.
  rewrite (list_comp_square_name_raises _ _ He) in Hrun. discriminate.
Qed.

Lemma send_highlight_squares_returned
    (squares : list Square) (l l1 : ArduinoLink) :
  send_highlight_squares squares l = (Ok tt, l1) ->
  last (tx (ser l1))
  = Some ((lit "HIGHLIGHT:" ++ join (lit ",") (List.map coordinate squares))
          ++ [NEWLINE]).
Proof.
  intros Hrun.
  pose proof (send_highlight_squares_in_range _ _ _ Hrun) as Hsq.
  revert Hrun. unfold send_highlight_squares. unfold_monad.
  rewrite (list_comp_square_name_ok _ _ Hsq).
  apply send_line_printable_returned, highlight_payload_printable.
Qed.

(** X15. The line of a highlight command tells the squares: two calls
    of [send_highlight_squares] on squares 0 to 63 that return having
    written the same line were given the same squares in the same
    order. *)
Theorem highlight_line_determines_the_squares
    (xs ys : list Square) (l l1 k k1 : ArduinoLink) :
  Forall (fun sq => 0 <= sq < 64) xs ->
  Forall (fun sq => 0 <= sq < 64) ys ->
  send_highlight_squares xs l = (Ok tt, l1) ->
  send_highlight_squares ys k = (Ok tt, k1) ->
  last (tx (ser l1)) = last (tx (ser k1)) ->
  xs = ys.
Proof.
  intros Hxs Hys Hl Hk.
  rewrite (send_highlight_squares_returned _ _ _ Hl),
    (send_highlight_squares_returned _ _ _ Hk).
  intros H. apply (inj Some) in H.
  apply app_inv_tail in H. apply (app_inv_head (lit "HIGHLIGHT:")) in H.
  apply (join_coordinates_inj _ _ Hxs Hys H).
Qed.


(** ** The command-line game (inicial.py) *)


Lemma send_line_raised (text : str) (l l1 : ArduinoLink) (e : exn) :
  ArduinoLink_.send_line text l = (Raise e, l1) ->
  (e = UnicodeEncodeError /\ l1 = l)
  \/ (e = SerialException /\ ~ healthy (ser l)
      /\ (tx (ser l1) = tx (ser l)
          \/ exists data, utf8_encode (wire_line text) = Some data
                          /\ tx (ser l1) = tx (ser l) ++ [data]))
  \/ (e = ValueError /\ Qnum (write_delay l) < 0).
Proof.
  intros Hrun. pose proof (send_line_cases text l) as H.
  rewrite Hrun in H.
  destruct (utf8_encode (wire_line text)) as [data|];
    [|injection H as -> ->; left; auto].
  assert (Hsick : forall n, accepts n (ser l) = false -> ~ healthy (ser l)).
  { intros n Hn [Ho Hf]. unfold accepts in Hn. rewrite Ho, Hf in Hn.
    destruct n; discriminate. }
  destruct (accepts 1 (ser l)) eqn:Ha1; cbn [negb] in H.
  2:{ injection H as -> ->. right. left. split; [reflexivity|].
      split; [apply (Hsick _ Ha1)|]. left. reflexivity. }
  destruct (accepts 2 (ser l)) eqn:Ha2; cbn [negb] in H.
  2:{ injection H as -> ->. right. left. split; [reflexivity|].
      split; [apply (Hsick _ Ha2)|]. right. eauto. }
  destruct (Z.ltb_spec (Qnum (write_delay l)) 0); [|discriminate].
  injection H as -> _. right. right. auto.
Qed.

Lemma send_line_healthy (text : str) (l l1 : ArduinoLink) :
  healthy (ser l) ->
  ArduinoLink_.send_line text l = (Ok tt, l1) ->
  healthy (ser l1).
Proof.
  intros [Ho Hf] Hrun. pose proof (send_line_cases text l) as H.
  rewrite Hrun in H.
  destruct (utf8_encode (wire_line text)) as [data|]; [|discriminate].
  destruct (negb (accepts 1 (ser l))); [discriminate|].
  destruct (negb (accepts 2 (ser l))); [discriminate|].
  injection H as _ ->. split; cbn; [reflexivity|]. rewrite Hf. reflexivity.
Qed.

Lemma send_line_delay (text : str) (l : ArduinoLink) :
  write_delay (snd (ArduinoLink_.send_line text l)) = write_delay l.
Proof.
  pose proof (send_line_cases text l) as H.
  destruct (utf8_encode (wire_line text)) as [data|];
    [|rewrite H; reflexivity].
  destruct (negb (accepts 1 (ser l))); [rewrite H; reflexivity|].
  destruct (negb (accepts 2 (ser l))); rewrite H; reflexivity.
Qed.

Lemma read_line_run (l : ArduinoLink) :
  exists (line : str) (l' : ArduinoLink),
    ArduinoLink_.read_line l = (Ok line, l')
    /\ tx (ser l') = tx (ser l)
    /\ (healthy (ser l) -> healthy (ser l')).
Proof.
  pose proof (read_line_port l) as (Htx & Ho & Hf & _).
  destruct (read_line_returns l) as (line & l' & Hrun & _).
  rewrite Hrun in Htx, Ho, Hf. cbn [snd] in Htx, Ho, Hf.
  exists line, l'. split; [exact Hrun|]. split; [exact Htx|].
  intros [Hopen Hfaults]. split; [congruence|].
  rewrite Hf, Hfaults. reflexivity.
Qed.

Lemma post_init_run (l : ArduinoLink) :
  exists l',
    ArduinoLink_.post_init l = (Ok tt, l')
    /\ tx (ser l') = tx (ser l)
    /\ (healthy (ser l) -> healthy (ser l'))
    /\ write_delay l' = write_delay l.
Proof.
  unfold ArduinoLink_.post_init, ArduinoLink_.flush_input, on_ser,
    ser_reset_input_buffer, port_op, time_sleep, healthy. unfold_monad.
  destruct l as [p b t w s sl]; destruct s as [o tx0 f rx0 fs]; cbn.
  destruct o; cbn.
  - destruct fs as [|[] fs]; cbn; eexists; (split; [reflexivity|]); cbn;
      (split; [reflexivity|]); (split; [|reflexivity]);
      try (intros [_ ?]; discriminate); auto.
  - eexists. split; [reflexivity|]. cbn. split; [reflexivity|].
    split; [|reflexivity]. intros [? _]; discriminate.
Qed.

Section CLI_facts.

Context {Board : Type} `{Rules : ChessRules Board} `{Text : MoveText Board}.
Implicit Types (b : Board) (s : Session Board).

Lemma typed_move_legal b line m :
  typed_move b line = Some m -> is_legal b m = true.
Proof.
  unfold typed_move, typed_san.
  destruct (strip line); [discriminate|].
  destruct (from_uci _) as [u|].
  - destruct (is_legal b u) eqn:Hu; [intros [= <-]; exact Hu|].
    destruct (parse_san _ _) as [w|]; [|discriminate].
    destruct (is_legal b w) eqn:Hw; [intros [= <-]; exact Hw|discriminate].
  - destruct (parse_san _ _) as [w|]; [|discriminate].
    destruct (is_legal b w) eqn:Hw; [intros [= <-]; exact Hw|discriminate].
Qed.

Lemma pick_move_cli_spec b stdin out :
  exists rejected,
    Forall (fun line => typed_move b line = None) rejected
    /\ match pick_move_cli b stdin out with
       | (Some m, (rest, out')) =>
           exists line,
             stdin = rejected ++ line :: rest
             /\ typed_move b line = Some m
             /\ out' = out ++ rejected_output rejected ++ [Prompt_Move]
       | (None, (rest, out')) =>
           stdin = rejected /\ rest = []
           /\ out' = out ++ rejected_output rejected ++ [Prompt_Move]
       end.
Proof.
  revert out. induction stdin as [|line rest IH]; intros out.
  - exists []. split; [constructor|]. cbn. auto.
  - cbn [pick_move_cli].
    assert (Hskip : forall out1 extra,
      typed_move b line = None ->
      rejected_output [line] = Prompt_Move :: extra ->
      out1 = (out ++ [Prompt_Move]) ++ extra ->
      exists rejected,
        Forall (fun line => typed_move b line = None) rejected
        /\ match pick_move_cli b rest out1 with
           | (Some m, (rest', out')) =>
               exists line',
                 line :: rest = rejected ++ line' :: rest'
                 /\ typed_move b line' = Some m
                 /\ out' = out ++ rejected_output rejected ++ [Prompt_Move]
           | (None, (rest', out')) =>
               line :: rest = rejected /\ rest' = []
               /\ out' = out ++ rejected_output rejected ++ [Prompt_Move]
           end).
    { intros out1 extra Hnone Hout ->.
      destruct (IH ((out ++ [Prompt_Move]) ++ extra)) as (rej & Hrej & Hres).
      exists (line :: rej). split; [constructor; assumption|].
      assert (Hro : forall tl,
        out ++ rejected_output (line :: rej) ++ tl
        = ((out ++ [Prompt_Move]) ++ extra) ++ rejected_output rej ++ tl).
      { intros tl. change (line :: rej) with ([line] ++ rej).
        unfold rejected_output at 1. rewrite flat_map_app.
        fold (rejected_output [line]). fold (rejected_output rej).
        rewrite Hout. rewrite <- !app_assoc. reflexivity. }
      destruct (pick_move_cli b rest _) as [[m|] [rest' out']].
      - destruct Hres as (line' & -> & Hm & ->). exists line'.
        split; [reflexivity|]. split; [exact Hm|]. symmetry. apply Hro.
      - destruct Hres as (-> & -> & ->).
        split; [reflexivity|]. split; [reflexivity|]. symmetry. apply Hro. }
    unfold typed_move, typed_san in Hskip |- *.
    unfold rejected_output in Hskip at 1. cbn [flat_map] in Hskip.
    rewrite app_nil_r in Hskip.
    destruct (strip line) as [|c txt] eqn:Hstrip.
    + apply (Hskip _ []); [reflexivity|reflexivity|].
      rewrite app_nil_r. reflexivity.
    + assert (Hone : forall m,
        typed_move b line = Some m ->
        exists rejected,
          Forall (fun line => typed_move b line = None) rejected
          /\ exists line',
               line :: rest = rejected ++ line' :: rest
               /\ typed_move b line' = Some m
               /\ out ++ [Prompt_Move]
                  = out ++ rejected_output rejected ++ [Prompt_Move]).
      { intros m Hm. exists []. split; [constructor|]. exists line. auto. }
      unfold typed_move, typed_san in Hone. rewrite Hstrip in Hone.
      destruct (from_uci _) as [u|].
      * destruct (is_legal b u); [apply Hone; reflexivity|].
        destruct (parse_san _ _) as [w|].
        -- destruct (is_legal b w); [apply Hone; reflexivity|].
           apply (Hskip _ [Print_Illegal_invalid_move]); reflexivity.
        -- apply (Hskip _ [Print_Illegal_invalid_move]); reflexivity.
      * destruct (parse_san _ _) as [w|].
        -- destruct (is_legal b w); [apply Hone; reflexivity|].
           apply (Hskip _ [Print_Illegal_invalid_move]); reflexivity.
        -- apply (Hskip _ [Print_Illegal_invalid_move]); reflexivity.
Qed.

Ltac loop_done :=
  repeat split; auto; try lia; try constructor; try discriminate;
  try match goal with
      | H : healthy _ |- _ => solve [destruct H; assumption]
      | H : healthy _, N : ~ healthy _ |- _ => contradiction
      end.

Lemma game_loop_spec (fuel : nat) s :
  (length (s_stdin s) < fuel)%nat ->
  0 <= Qnum (write_delay (s_link s)) ->
  exists exit s', game_loop fuel s = Some (exit, s') /\ loop_outcome s exit s'.
Proof.
  revert s. induction fuel as [|fuel IH]; intros s Hlen Hdelay; [lia|].
  cbn [game_loop]. destruct (is_game_over (s_board s)) eqn:Hover.
  { exists Returned, s. split; [reflexivity|]. exists [], [], [].
    rewrite !app_nil_r. cbn. loop_done. }
  destruct (pick_move_cli_spec (s_board s) (s_stdin s)
              (s_stdout s ++ [Print_board (board_str (s_board s));
                              Print_FEN (fen (s_board s))]))
    as (rejected & Hrej & Hpick).
  destruct (pick_move_cli _ _ _) as [[move|] [stdin' out']].
  2:{ destruct Hpick as (Hin & -> & _).
      eexists _, _. split; [reflexivity|]. exists [], [], (s_stdin s).
      rewrite !app_nil_r. cbn. loop_done. }
  destruct Hpick as (line & Hin & Hmove & _).
  pose proof (typed_move_legal _ _ _ Hmove) as Hlegal.
  unfold send_fen.
  destruct (ArduinoLink_.send_line (fen (push (s_board s) move)) (s_link s))
    as [[[]|e] l1] eqn:Hsend.
  2:{ eexists _, _. split; [reflexivity|].
      apply send_line_raised in Hsend.
      destruct Hsend as [(-> & ->)|[(-> & Hsick & Htx)|(_ & Hneg)]];
        [| |lia].
      - exists [move], [], (rejected ++ [line]). cbn.
        rewrite app_nil_r, <- app_assoc, length_app. cbn.
        loop_done.
      - destruct Htx as [Htx|(data & Henc & Htx)].
        + exists [move], [], (rejected ++ [line]). cbn.
          rewrite app_nil_r, <- app_assoc, length_app. cbn.
          loop_done.
        + exists [move], [data], (rejected ++ [line]). cbn.
          rewrite <- app_assoc, length_app. cbn.
          loop_done. }
  destruct (send_line_returned _ _ _ Hsend) as (data & Henc & Htx1).
  destruct (read_line_run l1) as (resp & l2 & Hread & Htx2 & Hh2).
  rewrite Hread.
  set (s1 := mkSession l2 (push (s_board s) move) (s_moves s ++ [move])
               stdin' _).
  assert (Hlen1 : (length (s_stdin s1) < fuel)%nat).
  { subst s1. cbn. rewrite Hin, length_app in Hlen. cbn in Hlen. lia. }
  assert (Hdelay1 : 0 <= Qnum (write_delay (s_link s1))).
  { subst s1. cbn.
    pose proof (read_line_port l1) as (_ & _ & _ & Hd2).
    pose proof (send_line_delay (fen (push (s_board s) move)) (s_link s))
      as Hd1.
    rewrite Hread in Hd2. rewrite Hsend in Hd1. cbn [snd] in Hd1, Hd2.
    rewrite Hd2, Hd1. exact Hdelay. }
  destruct (IH s1 Hlen1 Hdelay1) as (exit & s' & Hrun & Hout).
  exists exit, s'. split; [exact Hrun|].
  destruct Hout as (ms & chunks & used & Hms & Hb & Hleg & Hused & Hlu & Htx
                    & Hlines & Hbound & Hexit & Hhealthy).
  subst s1. cbn in Hms, Hb, Hleg, Hused, Htx, Hlines, Hhealthy.
  exists (move :: ms), (data :: chunks), (rejected ++ line :: used).
  split; [rewrite Hms, <- app_assoc; reflexivity|].
  split; [exact Hb|].
  split; [split; [exact Hlegal|exact Hleg]|].
  split; [rewrite Hin, Hused, <- app_assoc; reflexivity|].
  split; [rewrite length_app; cbn; lia|].
  split; [rewrite Htx, Htx2, Htx1, <- app_assoc; reflexivity|].
  split; [cbn; constructor; [exact Henc|exact Hlines]|].
  split; [cbn; lia|].
  split.
  - destruct exit as [|e|].
    + destruct Hexit as (? & ?). split; [assumption|cbn; lia].
    + destruct Hexit as (? & _). split; [assumption|discriminate].
    + destruct Hexit as (? & ? & ?). repeat split; try assumption. cbn; lia.
  - intros Hh. apply Hhealthy, Hh2.
    apply (send_line_healthy _ _ _ Hh Hsend).
Qed.

Lemma main_spec (win : bool) (port : Serial) (stdin : list str)
    (fuel : nat) :
  (length stdin < fuel)%nat ->
  exists exit s',
    main win port stdin fuel = Some (exit, s')
    /\ main_outcome port stdin exit s'.
Proof.
  intros Hlen. unfold main, send_fen.
  destruct (post_init_run
              (mkLink (SERIAL_PORT win) 115200 (1 # 1) (2 # 100) port []))
    as (l0 & -> & Htx0 & Hh0 & Hd0).
  cbn [ser write_delay] in Htx0, Hh0, Hd0.
  destruct (ArduinoLink_.send_line (fen start_position) l0)
    as [[[]|e] l1] eqn:Hsend.
  2:{ eexists _, _. split; [reflexivity|].
      apply send_line_raised in Hsend.
      destruct Hsend as [(-> & ->)|[(-> & Hsick & Htx)|(_ & Hneg)]];
        [| |rewrite Hd0 in Hneg; cbn in Hneg; lia].
      - exists [], []. cbn. rewrite app_nil_r.
        repeat split; auto; try lia; try constructor; discriminate.
      - destruct Htx as [Htx|(data & Henc & Htx)].
        + exists [], []. cbn. rewrite app_nil_r, Htx.
          repeat split; auto; try lia; try constructor.
          all: intros Hh _; apply Hsick, Hh0, Hh.
        + exists [data], []. cbn. rewrite Htx, Htx0.
          repeat split; auto; try lia;
            try (constructor; [exact Henc|constructor]).
          all: intros Hh _; apply Hsick, Hh0, Hh. }
  destruct (send_line_returned _ _ _ Hsend) as (data & Henc & Htx1).
  destruct (read_line_run l1) as (resp & l2 & Hread & Htx2 & Hh2).
  rewrite Hread.
  set (s0 := mkSession l2 start_position [] stdin _).
  assert (Hdelay : 0 <= Qnum (write_delay (s_link s0))).
  { subst s0. cbn.
    pose proof (read_line_port l1) as (_ & _ & _ & Hd2).
    pose proof (send_line_delay (fen start_position) l0) as Hd1.
    rewrite Hread in Hd2. rewrite Hsend in Hd1. cbn [snd] in Hd1, Hd2.
    rewrite Hd2, Hd1, Hd0. cbn. lia. }
  destruct (game_loop_spec fuel s0 Hlen Hdelay) as (exit & s' & -> & Hout).
  destruct Hout as (ms & chunks & used & Hms & Hb & Hleg & Hused & Hlu & Htx
                    & Hlines & Hbound & Hexit & Hhealthy).
  subst s0. cbn in Hms, Hb, Hleg, Hused, Htx, Hlines, Hhealthy.
  assert (Hh : healthy port -> exit <> Raised SerialException).
  { intros H. apply Hhealthy, Hh2, (send_line_healthy _ _ _ (Hh0 H) Hsend). }
  assert (Hall : forall s'' : Session Board,
    s_link s'' = s_link s' -> s_board s'' = s_board s' ->
    s_moves s'' = s_moves s' -> s_stdin s'' = s_stdin s' ->
    match exit with
    | Returned =>
        last (s_stdout s'')
        = Some (Print_Game_over (result (s_board s'))
                  (outcome_str (s_board s')))
    | _ => True
    end ->
    main_outcome port stdin exit s'').
  { intros s'' El Eb Em Ei Hlast. exists (data :: chunks), used.
    rewrite El, Eb, Em, Ei, Hms.
    split; [exact Hb|]. split; [exact Hleg|]. split; [exact Hused|].
    split; [exact Hlu|].
    split; [rewrite Htx, Htx2, Htx1, Htx0, <- app_assoc; reflexivity|].
    split; [cbn; constructor; [exact Henc|exact Hlines]|].
    split; [cbn; lia|]. split; [|exact Hh].
    destruct exit as [|e|].
    - destruct Hexit as (? & ?). repeat split; try assumption. cbn; lia.
    - destruct Hexit as (? & _). assumption.
    - destruct Hexit as (? & ? & ?). repeat split; try assumption. cbn; lia. }
  destruct exit as [|e|]; eexists _, _; (split; [reflexivity|]);
    apply Hall; try reflexivity; try exact I.
  cbn. apply last_snoc.
Qed.

(** X17. [pick_move_cli] returns the move of the first line typed that
    stands for a legal move, read as UCI (in lower case) and otherwise
    as SAN; that move passes the legality test.  Every line before it is
    prompted for and answered with the complaint, except blank lines,
    which are only prompted for again.  When the input ends first, the
    EOFError of [input()] leaves the function after a last prompt. *)
Theorem pick_move_cli_takes_the_first_legal_line b stdin out :
  exists rejected,
    Forall (fun line => typed_move b line = None) rejected
    /\ match pick_move_cli b stdin out with
       | (Some m, (rest, out')) =>
           exists line,
             stdin = rejected ++ line :: rest
             /\ typed_move b line = Some m
             /\ is_legal b m = true
             /\ out' = out ++ rejected_output rejected ++ [Prompt_Move]
       | (None, (rest, out')) =>
           stdin = rejected /\ rest = []
           /\ out' = out ++ rejected_output rejected ++ [Prompt_Move]
       end.
Proof.
  destruct (pick_move_cli_spec b stdin out) as (rejected & Hrej & Hres).
  exists rejected. split; [exact Hrej|].
  destruct (pick_move_cli b stdin out) as [[m|] [rest out']]; [|exact Hres].
  destruct Hres as (line & Hin & Hm & Hout). exists line.
  split; [exact Hin|]. split; [exact Hm|].
  split; [exact (typed_move_legal _ _ _ Hm)|exact Hout].
Qed.

(** X18. [main()] ends in one of three ways once its input is finite:
    it returns, and then the game is over and the last line printed is
    the "Game over" line; or the input ran out in a game still on
    (EOFError); or the link raised (a serial error or an encoding
    error), which nothing in [main()] catches.  Each move pushed used up
    at least one line of input. *)
Theorem main_ends_by_game_over_end_of_input_or_link_error
    (win : bool) (port : Serial) (stdin : list str) (fuel : nat) :
  (length stdin < fuel)%nat ->
  exists exit s' used,
    main win port stdin fuel = Some (exit, s')
    /\ stdin = used ++ s_stdin s'
    /\ (length (s_moves s') <= length used)%nat
    /\ match exit with
       | Returned =>
           is_game_over (s_board s') = true
           /\ last (s_stdout s')
              = Some (Print_Game_over (result (s_board s'))
                        (outcome_str (s_board s')))
       | RaisedEOFError =>
           is_game_over (s_board s') = false /\ s_stdin s' = []
       | Raised e => e = SerialException \/ e = UnicodeEncodeError
       end.
Proof.
  intros Hlen.
  destruct (main_spec win port stdin fuel Hlen) as (exit & s' & Hrun & Hout).
  destruct Hout as (chunks & used & _ & _ & Hused & Hlu & _ & _ & _ & Hexit
                    & _).
  exists exit, s', used. split; [exact Hrun|]. split; [exact Hused|].
  split; [exact Hlu|].
  destruct exit as [|e|]; [|exact Hexit|]; destruct Hexit as (? & ? & ?);
    auto.
Qed.

(** X19. [main()] never pushes a move that fails the legality test:
    however it ends, the board is the start position with the move
    stack played out, each move legal where it was played. *)
Theorem main_pushes_only_legal_moves
    (win : bool) (port : Serial) (stdin : list str) (fuel : nat) :
  (length stdin < fuel)%nat ->
  exists exit s',
    main win port stdin fuel = Some (exit, s')
    /\ s_board s' = fold_left push (s_moves s') start_position
    /\ legal_from start_position (s_moves s').
Proof.
  intros Hlen.
  destruct (main_spec win port stdin fuel Hlen) as (exit & s' & Hrun & Hout).
  destruct Hout as (chunks & used & Hb & Hleg & _).
  exists exit, s'. auto.
Qed.

(** X20. What [main()] writes to the port is the FEN line of the start
    position and then of the position after each move, in order and
    nothing else; a position is missing only when its write raised,
    which is the last thing [main()] did.  On a port that is open and
    never fails, no serial error ends the session. *)
Theorem main_sends_every_position_in_order
    (win : bool) (port : Serial) (stdin : list str) (fuel : nat) :
  (length stdin < fuel)%nat ->
  exists exit s' chunks,
    main win port stdin fuel = Some (exit, s')
    /\ tx (ser (s_link s')) = tx port ++ chunks
    /\ Forall2 line_of
         (take (length chunks)
            (start_position :: positions_after start_position (s_moves s')))
         chunks
    /\ (length chunks <= S (length (s_moves s')) <= S (length chunks))%nat
    /\ ((forall e, exit <> Raised e) ->
        length chunks = S (length (s_moves s')))
    /\ (healthy port -> exit <> Raised SerialException).
Proof.
  intros Hlen.
  destruct (main_spec win port stdin fuel Hlen) as (exit & s' & Hrun & Hout).
  destruct Hout as (chunks & used & _ & _ & _ & _ & Htx & Hlines & Hbound
                    & Hexit & Hh).
  exists exit, s', chunks. split; [exact Hrun|]. split; [exact Htx|].
  split; [exact Hlines|]. split; [exact Hbound|]. split; [|exact Hh].
  intros Hne. destruct exit as [|e|].
  - destruct Hexit as (_ & ? & _). assumption.
  - contradiction (Hne e). reflexivity.
  - destruct Hexit as (_ & _ & ?). assumption.
Qed.

(** X21. A port that is closed, or that refuses the first write or the
    first flush, ends [main()] at once: the exception of [send_fen]
    leaves it before a line of input is read or anything is printed.
    (The first port operation is the input flush of [__post_init__],
    whose failure is swallowed.) *)
Theorem main_stops_when_the_first_send_fails
    (win : bool) (port : Serial) (stdin : list str) (fuel : nat) :
  is_open port = false
  \/ faults port !! 1%nat = Some true
  \/ faults port !! 2%nat = Some true ->
  exists e s',
    main win port stdin fuel = Some (Raised e, s')
    /\ s_stdin s' = stdin
    /\ s_stdout s' = []
    /\ s_moves s' = []
    /\ s_board s' = start_position.
Proof.
  intros Hbad. unfold main, send_fen, ArduinoLink_.post_init,
    ArduinoLink_.flush_input, ArduinoLink_.send_line, ArduinoLink_.encode,
    on_ser, ser_reset_input_buffer, ser_write, ser_flush, port_op,
    time_sleep.
  unfold_monad. destruct port as [o tx0 f rx0 fs]. cbn in Hbad |- *.
  destruct (utf8_encode _) as [data|].
  2:{ destruct o; cbn; [destruct fs as [|[] fs]|]; cbn; eauto 10. }
  destruct o; cbn.
  2:{ eauto 10. }
  destruct Hbad as [Hbad|Hbad]; [discriminate|].
  destruct fs as [|f0 [|[] [|[] fs]]]; cbn in Hbad;
    try (destruct Hbad; discriminate);
    destruct f0; cbn; eauto 10.
Qed.

End CLI_facts.


(** ** Instances in the scripted game *)

Lemma e2_selected_reachable : reachable e2_selected.
Proof.
  apply (reachable_after _ (Click 1 4)); [|cbn [event_ok]; lia].
  exact (reachable_new the_link [0%nat]).
Qed.

Lemma e2_e4_played_reachable : reachable (after (Click 3 4) e2_selected).
Proof.
  apply (reachable_after _ (Click 3 4)); [|cbn [event_ok]; lia].
  exact e2_selected_reachable.
Qed.

Lemma selection_fits_witness :
  match selected_square e2_selected with
  | None =>
      legal_targets e2_selected = ∅ /\ capture_targets e2_selected = ∅
  | Some sel =>
      is_game_over (board e2_selected) = false
      /\ (exists p, piece_at (board e2_selected) sel = Some p
                    /\ color p = turn (board e2_selected))
      /\ (forall x, x ∈ legal_targets e2_selected <->
            exists m, In m (legal_moves (board e2_selected))
                      /\ from_square m = sel /\ to_square m = x)
      /\ (forall x, x ∈ capture_targets e2_selected <->
            exists m, In m (legal_moves (board e2_selected))
                      /\ from_square m = sel /\ to_square m = x
                      /\ is_capture (board e2_selected) m = true)
  end.
Proof.
  exact (selection_always_fits_the_board e2_selected e2_selected_reachable).
Defined.

Lemma only_legal_moves_witness :
  board (after (Click 3 4) e2_selected)
  = fold_left push (move_stack (after (Click 3 4) e2_selected)) start_position
  /\ played start_position (move_stack (after (Click 3 4) e2_selected)).
Proof.
  exact (only_legal_moves_are_pushed _ e2_e4_played_reachable).
Defined.

Lemma display_in_sync_witness :
  buttons e2_selected !! (3, 4) =
  Some (mkButton (square_bg e2_selected (square 4 3))
          (square_bg e2_selected (square 4 3))
          match piece_at (board e2_selected) (square 4 3) with
          | None => []
          | Some piece => [piece_glyph (symbol piece)]
          end).
Proof.
  apply (display_is_in_sync e2_selected e2_selected_reachable 3 4); lia.
Defined.

Lemma read_back_witness :
  exists data,
    tx (ser (snd (ArduinoLink_.send_line (lit "OK") the_link)))
    = tx (ser the_link) ++ [data]
    /\ forall (r : ArduinoLink) (more : list bytes),
         accepts 1 (ser r) = true ->
         rx (ser r) = data :: more ->
         exists r',
           ArduinoLink_.read_line r = (Ok (strip (lit "OK")), r')
           /\ rx (ser r') = more
           /\ tx (ser r') = tx (ser r).
Proof.
  apply (read_line_reads_back_what_send_line_wrote (lit "OK") the_link).
  - reflexivity.
  - vm_compute. reflexivity.
Defined.

Lemma events_witness :
  exists g' pushed chunks,
    handle (Click 3 4) e2_selected = (Ok tt, g')
    /\ tx (ser (link g')) = tx (ser (link e2_selected)) ++ chunks
    /\ Forall fen_line chunks
    /\ match Click 3 4 with
       | Click _ _ =>
           move_stack g' = move_stack e2_selected ++ pushed
           /\ (length chunks <= length pushed <= 2)%nat
           /\ (mode_var e2_selected = pvp -> (length pushed <= 1)%nat)
       | Reiniciar => move_stack g' = [] /\ (length chunks <= 1)%nat
       | SelectMode _ =>
           move_stack g' = move_stack e2_selected /\ chunks = []
       end.
Proof.
  apply (events_never_raise_and_send_only_fens (Click 3 4) e2_selected).
  cbn [event_ok]. lia.
Defined.



Import ScriptText.


Lemma highlight_off_board_witness :
  send_highlight_squares [28; 64] the_link = (Raise IndexError, the_link).
Proof.
  apply (send_highlight_squares_off_board_raises_before_sending
           [28; 64] the_link).
  apply Exists_cons_tl, Exists_cons_hd. lia.
Defined.

Lemma highlight_line_witness : [28; 35] = [28; 35].
Proof.
  assert (Hsq : Forall (fun sq => 0 <= sq < 64) [28; 35])
    by (repeat constructor; lia).
  apply (highlight_line_determines_the_squares
           [28; 35] [28; 35] the_link
           (snd (send_highlight_squares [28; 35] the_link)) the_link
           (snd (send_highlight_squares [28; 35] the_link)) Hsq Hsq);
    vm_compute; reflexivity.
Defined.

Lemma main_ends_witness :
  exists exit s' used,
    main false quiet_port typed 5 = Some (exit, s')
    /\ typed = used ++ s_stdin s'
    /\ (length (s_moves s') <= length used)%nat
    /\ match exit with
       | Returned =>
           is_game_over (s_board s') = true
           /\ last (s_stdout s')
              = Some (Print_Game_over (result (s_board s'))
                        (outcome_str (s_board s')))
       | RaisedEOFError =>
           is_game_over (s_board s') = false /\ s_stdin s' = []
       | Raised e => e = SerialException \/ e = UnicodeEncodeError
       end.
Proof.
  apply (main_ends_by_game_over_end_of_input_or_link_error
           false quiet_port typed 5).
  cbn. lia.
Defined.

Lemma main_legal_moves_witness :
  exists exit s',
    main false quiet_port typed 5 = Some (exit, s')
    /\ s_board s' = fold_left push (s_moves s') start_position
    /\ legal_from start_position (s_moves s').
Proof.
  apply (main_pushes_only_legal_moves false quiet_port typed 5).
  cbn. lia.
Defined.

Lemma main_sends_witness :
  exists exit s' chunks,
    main false quiet_port typed 5 = Some (exit, s')
    /\ tx (ser (s_link s')) = tx quiet_port ++ chunks
    /\ Forall2 line_of
         (take (length chunks)
            (start_position :: positions_after start_position (s_moves s')))
         chunks
    /\ (length chunks <= S (length (s_moves s')) <= S (length chunks))%nat
    /\ ((forall e, exit <> Raised e) ->
        length chunks = S (length (s_moves s')))
    /\ (healthy quiet_port -> exit <> Raised SerialException).
Proof.
  apply (main_sends_every_position_in_order false quiet_port typed 5).
  cbn. lia.
Defined.

Lemma main_stops_witness :
  exists e s',
    main false (mkSerial true [] 0 [] [false; true]) typed 5
    = Some (Raised e, s')
    /\ s_stdin s' = typed
    /\ s_stdout s' = []
    /\ s_moves s' = []
    /\ s_board s' = start_position.
Proof.
  apply (main_stops_when_the_first_send_fails
           false (mkSerial true [] 0 [] [false; true]) typed 5).
  right. left. reflexivity.
Defined.

(** Why C3 speaks of the legality test and not of the legal targets:
    with the king on e1 selected, no enumerated move goes to h1 and h1
    is painted as unavailable; the click on h1 castles all the same, and
    the FEN after castling goes out. *)
Example king_takes_rook_castles :
  let g := Castling.e1_selected in
  let g' := @after _ Castling.lib_rules (Click 0 7) g in
  selected_square g = Some (parse_square "e1")
  /\ square 7 0 = parse_square "h1"
  /\ legal_targets g =
     {[parse_square "d1"; parse_square "d2"; parse_square "e2";
       parse_square "f2"; parse_square "f1"; parse_square "g1"]}
  /\ buttons g !! (0, 7) = Some (mkButton INVALID_COLOR INVALID_COLOR [0x2656])
  /\ @is_legal _ Castling.lib_rules (board g)
       (mkMove (parse_square "e1") (parse_square "h1") None)
     = true
  /\ move_stack g' = [uci "e1h1"]
  /\ selected_square g' = None
  /\ tx (ser (link g')) =
     [lit "4k3/8/8/8/8/8/8/5RK1 b - - 1 1" ++ [NEWLINE]].
Proof.
  cbv zeta. vm_compute. repeat split; reflexivity.
Qed.
